(** * WebSocket chat (src/main.py): frame codec, handshake, registry

    A shallow embedding of the Python program [src/main.py] and the proofs
    of the properties its specification states about it.

    - Python [int] is [Z]; [bytes] / [bytearray] is [list byte]; a value
      appended to a [bytearray] must lie in [0, 256) or [ValueError] is
      raised.
    - Python exceptions are the [Raise] outcomes of the [result] monad.
    - [time.time()] is an input of the functions that read it. *)

From Stdlib Require Import Strings.Byte Strings.String Strings.Ascii.

From Stdlib Require Import ZArith List Lia Bool Arith.

Import ListNotations.

Local Open Scope Z_scope.

(** * Part I: the program *)

(** ** Exceptions *)

Inductive exn : Set :=
| ValueError    (* bytearray.append of a value outside range(256) *)
| StructError   (* struct.pack / struct.unpack *)
| IndexError    (* sequence index out of range *)
| OSError       (* socket failure *)
| KeyError      (* missing dict key *)
| UnicodeDecodeError
| RecursionError.

Inductive result (A : Type) : Type :=
| Ok (a : A)
| Raise (e : exn).

Arguments Ok {A} a.

Arguments Raise {A} e.

Definition bind {A B : Type} (c : result A) (k : A -> result B) : result B :=
  match c with
  | Ok a => k a
  | Raise e => Raise e
  end.

Notation "x <- c ;; k" := (bind c (fun x => k))
  (at level 61, c at next level, right associativity).

(** ** Bytes, indexing, slicing, [struct] *)

Definition byte_val (b : byte) : Z := Z.of_N (Byte.to_N b).

(** The byte whose value is [z mod 256]. *)
Definition byte_trunc (z : Z) : byte :=
  match Byte.of_N (Z.to_N (z mod 256)) with
  | Some b => b
  | None => x00
  end.

(** [bytearray.append(z)]: the value must be in range(256). *)
Definition to_byte (z : Z) : result byte :=
  if (0 <=? z) && (z <? 256) then Ok (byte_trunc z) else Raise ValueError.

(** [len(s)] *)
Definition len {A : Type} (l : list A) : Z := Z.of_nat (length l).

(** [s[i]] for an index [i >= 0]. *)
Definition getitem {A : Type} (l : list A) (i : nat) : result A :=
  match nth_error l i with
  | Some a => Ok a
  | None => Raise IndexError
  end.

(** [s[a:b]] for [0 <= a <= b]: Python clamps the slice to the sequence. *)
Definition slice {A : Type} (l : list A) (a b : Z) : list A :=
  firstn (Z.to_nat (b - a)) (skipn (Z.to_nat a) l).

(** The big-endian unsigned formats of [struct] the program uses. *)
Inductive fmt : Set :=
| fmt_H   (* ">H", 2 bytes *)
| fmt_I   (* ">I", 4 bytes *)
| fmt_Q.  (* ">Q", 8 bytes *)

Definition fmt_size (f : fmt) : nat :=
  match f with
  | fmt_H => 2
  | fmt_I => 4
  | fmt_Q => 8
  end%nat.

Fixpoint be_bytes (n : nat) (v : Z) : list byte :=
  match n with
  | O => []
  | S k => byte_trunc (v / 256 ^ Z.of_nat k) :: be_bytes k v
  end.

Definition be_value (bs : list byte) : Z :=
  fold_left (fun acc b => acc * 256 + byte_val b) bs 0.

(** [struct.pack(f, v)] *)
Definition struct_pack (f : fmt) (v : Z) : result (list byte) :=
  if (0 <=? v) && (v <? 256 ^ Z.of_nat (fmt_size f))
  then Ok (be_bytes (fmt_size f) v)
  else Raise StructError.

(** [struct.unpack(f, bs)[0]] *)
Definition struct_unpack (f : fmt) (bs : list byte) : result Z :=
  if Nat.eqb (length bs) (fmt_size f) then Ok (be_value bs)
  else Raise StructError.

(** ** class WebSocketFrame *)

Definition OPCODE_CONT   : Z := 0x0.

Definition OPCODE_TEXT   : Z := 0x1.

Definition OPCODE_BINARY : Z := 0x2.

Definition OPCODE_CLOSE  : Z := 0x8.

Definition OPCODE_PING   : Z := 0x9.

Definition OPCODE_PONG   : Z := 0xA.

Definition opcodes : list Z :=
  [OPCODE_CONT; OPCODE_TEXT; OPCODE_BINARY; OPCODE_CLOSE; OPCODE_PING;
   OPCODE_PONG].

(** The loop [for i, byte in enumerate(payload): out.append(byte ^
    masking_key[i % 4])] of [create_frame], started at index [i]; the loop
    [for i in range(payload_len): payload[i] ^= masking_key[i % 4]] of
    [parse_frame] walks the payload in the same way. *)
Fixpoint xor_loop (masking_key : list byte) (i : nat) (payload : list byte)
  : result (list byte) :=
  match payload with
  | [] => Ok []
  | b :: rest =>
      k <- getitem masking_key (i mod 4) ;;
      x <- to_byte (Z.lxor (byte_val b) (byte_val k)) ;;
      out <- xor_loop masking_key (S i) rest ;;
      Ok (x :: out)
  end.

(** [masking_key = struct.pack(">I", int(time.time() * 1000) % 0xFFFFFFFF)]
    where [now_ms] is the value of [int(time.time() * 1000)]. *)
Definition masking_key_at (now_ms : Z) : result (list byte) :=
  struct_pack fmt_I (now_ms mod 0xFFFFFFFF).

(** The bytes written after the first one and before the masking key:
    the second byte, always with 0x80 set, and the extended length. *)
Definition length_field (payload_len : Z) : result (list byte) :=
  if payload_len <=? 125 then
    b <- to_byte (Z.lor 0x80 payload_len) ;;
    Ok [b]
  else if payload_len <=? 65535 then
    b <- to_byte (Z.lor 0x80 126) ;;
    ext <- struct_pack fmt_H payload_len ;;
    Ok (b :: ext)
  else
    b <- to_byte (Z.lor 0x80 127) ;;
    ext <- struct_pack fmt_Q payload_len ;;
    Ok (b :: ext).

(** [WebSocketFrame.create_frame(payload, opcode, mask)], run when
    [int(time.time() * 1000)] is [now_ms].  The body never reads [mask]. *)
Definition create_frame (now_ms : Z) (payload : list byte) (opcode : Z)
  (mask : bool) : result (list byte) :=
  b0 <- to_byte (Z.lor 0x80 opcode) ;;
  let payload_len := len payload in
  lf <- length_field payload_len ;;
  masking_key <- masking_key_at now_ms ;;
  masked_payload <- xor_loop masking_key 0 payload ;;
  Ok ((b0 :: lf) ++ masking_key ++ masked_payload).

(** What [parse_frame] returns: [Incomplete] is the tuple
    [(None, None, 0, False, 0)], [Frame] the tuple
    [(opcode, payload, payload_len, fin, header_size + payload_len)]. *)
Inductive parsed : Type :=
| Incomplete
| Frame (opcode : Z) (payload : list byte) (payload_len : Z) (fin : bool)
        (consumed : Z).

(** The local variables of [parse_frame] when it reaches its last length
    test (line 82). *)
Record header : Type := mk_header {
  h_fin : bool;
  h_opcode : Z;
  h_mask : bool;
  h_payload_len : Z;
  h_header_size : Z;
  h_masking_key : list byte
}.

(** Lines 59-81 of [parse_frame]: [None] when one of the early returns is
    taken. *)
Definition parse_header (data : list byte) : result (option header) :=
  if len data <? 2 then Ok None else
  byte1 <- getitem data 0 ;;
  let fin := negb (Z.land (byte_val byte1) 0x80 =? 0) in
  let opcode := Z.land (byte_val byte1) 0x0F in
  byte2 <- getitem data 1 ;;
  let mask := negb (Z.land (byte_val byte2) 0x80 =? 0) in
  let payload_len := Z.land (byte_val byte2) 0x7F in
  let header_size := 2 in
  ext <- (if payload_len =? 126 then
            if len data <? 4 then Ok None
            else
              v <- struct_unpack fmt_H (slice data 2 4) ;;
              Ok (Some (v, header_size + 2))
          else if payload_len =? 127 then
            if len data <? 10 then Ok None
            else
              v <- struct_unpack fmt_Q (slice data 2 10) ;;
              Ok (Some (v, header_size + 8))
          else Ok (Some (payload_len, header_size))) ;;
  match ext with
  | None => Ok None
  | Some (payload_len, header_size) =>
      if mask then
        let header_size := header_size + 4 in
        let masking_key := slice data (header_size - 4) header_size in
        Ok (Some (mk_header fin opcode mask payload_len header_size
                            masking_key))
      else
        Ok (Some (mk_header fin opcode mask payload_len header_size []))
  end.

(** [WebSocketFrame.parse_frame(data)] *)
Definition parse_frame (data : list byte) : result parsed :=
  h <- parse_header data ;;
  match h with
  | None => Ok Incomplete
  | Some h =>
      let header_size := h_header_size h in
      let payload_len := h_payload_len h in
      if len data <? header_size + payload_len then Ok Incomplete
      else
        let payload := slice data header_size (header_size + payload_len) in
        payload <- (if h_mask h then xor_loop (h_masking_key h) 0 payload
                    else Ok payload) ;;
        Ok (Frame (h_opcode h) payload payload_len (h_fin h)
                  (header_size + payload_len))
  end.

Definition hello : list byte := [x68; x65; x6c; x6c; x6f].

(** ** Definitions used to state the properties of the codec *)

(** The header [parse_header] reads, by cases on the shape of the buffer. *)
Definition header_of (data : list byte) : option header :=
  match data with
  | byte1 :: byte2 :: tl =>
      let fin := negb (Z.land (byte_val byte1) 0x80 =? 0) in
      let opcode := Z.land (byte_val byte1) 0x0F in
      let mask := negb (Z.land (byte_val byte2) 0x80 =? 0) in
      let l7 := Z.land (byte_val byte2) 0x7F in
      let hdr (payload_len header_size : Z) (rest : list byte) :=
        if mask
        then mk_header fin opcode mask payload_len (header_size + 4)
                       (firstn 4 rest)
        else mk_header fin opcode mask payload_len header_size [] in
      if l7 =? 126 then
        match tl with
        | e0 :: e1 :: rest => Some (hdr (be_value [e0; e1]) 4 rest)
        | _ => None
        end
      else if l7 =? 127 then
        match tl with
        | e0 :: e1 :: e2 :: e3 :: e4 :: e5 :: e6 :: e7 :: rest =>
            Some (hdr (be_value [e0; e1; e2; e3; e4; e5; e6; e7]) 10 rest)
        | _ => None
        end
      else Some (hdr l7 2 tl)
  | _ => None
  end.

(** The accumulation the client's [receive] loop performs on the bytes it
    reads ([buffer += data], then [parse_frame(buffer)], going back to read
    when the frame is incomplete), stopped at the first frame. *)
Fixpoint decode_accumulating (buffer : list byte) (chunks : list (list byte))
  : result parsed :=
  match chunks with
  | [] => Ok Incomplete
  | data :: later =>
      let buffer := buffer ++ data in
      r <- parse_frame buffer ;;
      match r with
      | Incomplete => decode_accumulating buffer later
      | Frame _ _ _ _ _ => Ok r
      end
  end.

(** ** Library functions of the handshake: [hashlib.sha1], [base64] *)

Definition w32 (x : Z) : Z := x mod 2 ^ 32.

(** Rotation of a 32-bit word to the left by [n] bits. *)
Definition rotl (n x : Z) : Z :=
  w32 (Z.lor (Z.shiftl x n) (Z.shiftr x (32 - n))).

(** The message followed by 0x80, zero bytes up to 56 modulo 64, and the
    bit length as a 64-bit big-endian integer. *)
Definition sha1_pad (msg : list byte) : list byte :=
  msg ++ [x80]
      ++ repeat x00 (Z.to_nat ((55 - len msg) mod 64))
      ++ be_bytes 8 (8 * len msg).

(** The big-endian 32-bit words of a byte sequence. *)
Fixpoint words_of (n : nat) (bs : list byte) : list Z :=
  match n with
  | O => []
  | S k => be_value (firstn 4 bs) :: words_of k (skipn 4 bs)
  end.

(** The message schedule, newest word first: [n] more words are added to
    the words [w_rev]. *)
Fixpoint sha1_extend (n : nat) (w_rev : list Z) : list Z :=
  match n with
  | O => w_rev
  | S k =>
      let x := Z.lxor (Z.lxor (nth 2 w_rev 0) (nth 7 w_rev 0))
                      (Z.lxor (nth 13 w_rev 0) (nth 15 w_rev 0)) in
      sha1_extend k (rotl 1 x :: w_rev)
  end.

Definition sha1_f (t : nat) (b c d : Z) : Z :=
  if (t <? 20)%nat then
    Z.lor (Z.land b c) (Z.land (Z.lxor b 0xFFFFFFFF) d)
  else if (t <? 40)%nat then Z.lxor (Z.lxor b c) d
  else if (t <? 60)%nat then
    Z.lor (Z.lor (Z.land b c) (Z.land b d)) (Z.land c d)
  else Z.lxor (Z.lxor b c) d.

Definition sha1_k (t : nat) : Z :=
  if (t <? 20)%nat then 0x5A827999
  else if (t <? 40)%nat then 0x6ED9EBA1
  else if (t <? 60)%nat then 0x8F1BBCDC
  else 0xCA62C1D6.

Definition sha1_state : Type := (Z * Z * Z * Z * Z)%type.

Definition sha1_round (s : sha1_state) (tw : nat * Z) : sha1_state :=
  let '(a, b, c, d, e) := s in
  let '(t, w) := tw in
  let temp := w32 (rotl 5 a + sha1_f t b c d + e + sha1_k t + w) in
  (temp, a, rotl 30 b, c, d).

Definition sha1_block (h : sha1_state) (block : list byte) : sha1_state :=
  let w := rev (sha1_extend 64 (rev (words_of 16 block))) in
  let '(a, b, c, d, e) := fold_left sha1_round (combine (seq 0 80) w) h in
  let '(h0, h1, h2, h3, h4) := h in
  (w32 (h0 + a), w32 (h1 + b), w32 (h2 + c), w32 (h3 + d), w32 (h4 + e)).

Fixpoint sha1_blocks (n : nat) (h : sha1_state) (bs : list byte)
  : sha1_state :=
  match n with
  | O => h
  | S k => sha1_blocks k (sha1_block h (firstn 64 bs)) (skipn 64 bs)
  end.

(** [hashlib.sha1(msg).digest()] (FIPS 180-4). *)
Definition sha1 (msg : list byte) : list byte :=
  let padded := sha1_pad msg in
  let '(h0, h1, h2, h3, h4) :=
    sha1_blocks (length padded / 64)
      (0x67452301, 0xEFCDAB89, 0x98BADCFE, 0x10325476, 0xC3D2E1F0) padded in
  be_bytes 4 h0 ++ be_bytes 4 h1 ++ be_bytes 4 h2 ++ be_bytes 4 h3
           ++ be_bytes 4 h4.

Definition b64_alphabet : list byte :=
  list_byte_of_string
    "ABCDEFGHIJKLMNOPQRSTUVWXYZabcdefghijklmnopqrstuvwxyz0123456789+/".

Definition b64_char (i : Z) : byte := nth (Z.to_nat i) b64_alphabet x3d.

(** [base64.b64encode(bs)] (RFC 4648, with padding). *)
Fixpoint b64encode (bs : list byte) : list byte :=
  match bs with
  | [] => []
  | [a] =>
      let n := byte_val a * 65536 in
      [b64_char (n / 262144 mod 64); b64_char (n / 4096 mod 64); x3d; x3d]
  | [a; b] =>
      let n := byte_val a * 65536 + byte_val b * 256 in
      [b64_char (n / 262144 mod 64); b64_char (n / 4096 mod 64);
       b64_char (n / 64 mod 64); x3d]
  | a :: b :: c :: rest =>
      let n := byte_val a * 65536 + byte_val b * 256 + byte_val c in
      b64_char (n / 262144 mod 64) :: b64_char (n / 4096 mod 64)
        :: b64_char (n / 64 mod 64) :: b64_char (n mod 64) :: b64encode rest
  end.

Definition hex_abc_sha1 : list byte :=
  [xa9; x99; x3e; x36; x47; x06; x81; x6a; xba; x3e;
   x25; x71; x78; x50; xc2; x6c; x9c; xd0; xd8; x9d].

Local Open Scope string_scope.

(** ** Python [str]

    A [str] is modelled by the string of its UTF-8 bytes, so that
    [str.encode()] is [list_byte_of_string] and [bytes.decode('utf-8')]
    checks that the bytes are well-formed UTF-8.  [str.lower] is modelled on
    the letters A-Z, which is what it does on ASCII text. *)

Definition CRLF : string := String "013" (String "010" "").

(** [s.startswith(p)] *)
Definition startswith (s p : string) : bool := prefix p s.

(** [s[n:]] *)
Fixpoint str_drop (n : nat) (s : string) : string :=
  match n, s with
  | O, _ => s
  | S _, EmptyString => EmptyString
  | S k, String _ s' => str_drop k s'
  end.

(** [s.partition(sep)] when [sep] occurs in [s]: the text before its first
    occurrence and the text after it. *)
Fixpoint partition_at (sep s : string) : option (string * string) :=
  if prefix sep s then Some ("", str_drop (String.length sep) s)
  else
    match s with
    | EmptyString => None
    | String c s' =>
        match partition_at sep s' with
        | Some (before, after) => Some (String c before, after)
        | None => None
        end
    end.

(** [sub in s] *)
Definition str_in (sub s : string) : bool :=
  match partition_at sub s with
  | Some _ => true
  | None => false
  end.

(** [s.split(sep, 1)] *)
Definition split_1 (sep s : string) : list string :=
  match partition_at sep s with
  | Some (before, after) => [before; after]
  | None => [s]
  end.

(** [s.split(sep)] for a non-empty [sep]: [skip] counts the characters of a
    separator already found that are still to pass, [cur] holds the
    characters of the current piece, newest first. *)
Fixpoint split_go (sep : string) (skip : nat) (cur : list ascii) (s : string)
  : list string :=
  match s with
  | EmptyString => [string_of_list_ascii (rev cur)]
  | String c s' =>
      match skip with
      | S k => split_go sep k cur s'
      | O =>
          if prefix sep s
          then string_of_list_ascii (rev cur)
                 :: split_go sep (String.length sep - 1) [] s'
          else split_go sep 0 (c :: cur) s'
      end
  end.

Definition split (sep s : string) : list string := split_go sep 0 [] s.

Definition lower_ascii (c : ascii) : ascii :=
  let n := nat_of_ascii c in
  if ((65 <=? n) && (n <=? 90))%nat then ascii_of_nat (n + 32) else c.

(** [s.lower()] *)
Fixpoint lower (s : string) : string :=
  match s with
  | EmptyString => EmptyString
  | String c s' => String (lower_ascii c) (lower s')
  end.

(** [a, b = l] *)
Definition unpack2 (l : list string) : result (string * string) :=
  match l with
  | [a; b] => Ok (a, b)
  | _ => Raise ValueError
  end.

(** A [dict] with [str] keys that is only read by key: the binding added
    last for a key is the one in front. *)
Definition dict : Type := list (string * string).

(** [d[k] = v] *)
Definition dict_set (k v : string) (d : dict) : dict := (k, v) :: d.

Fixpoint dict_find (k : string) (d : dict) : option string :=
  match d with
  | [] => None
  | (k', v) :: rest => if String.eqb k' k then Some v else dict_find k rest
  end.

(** [k in d] *)
Definition dict_in (k : string) (d : dict) : bool :=
  match dict_find k d with
  | Some _ => true
  | None => false
  end.

(** [d[k]] *)
Definition dict_get (k : string) (d : dict) : result string :=
  match dict_find k d with
  | Some v => Ok v
  | None => Raise KeyError
  end.

(** ** Sockets *)

(** One connected socket as the server sees it: whether [close()] has been
    called on it, whether the peer still takes data, and the byte strings
    passed to [send] so far, oldest first. *)
Record transport : Type := mk_transport {
  t_closed : bool;
  t_up : bool;
  t_sent : list (list byte)
}.

(** [sock.send(data)]: raises [OSError] on a closed or broken socket. *)
Definition sock_send (t : transport) (data : list byte) : result transport :=
  if negb (t_closed t) && t_up t
  then Ok (mk_transport (t_closed t) (t_up t) (t_sent t ++ [data])%list)
  else Raise OSError.

(** [sock.close()] *)
Definition sock_close (t : transport) : transport :=
  mk_transport true (t_up t) (t_sent t).

(** ** class WebSocketServer: the handshake *)

(** [WebSocketServer.GUID] *)
Definition GUID : string := "258EAFA5-E914-47DA-95CA-C5AB0DC85B11".

(** The loop over [data.split('\r\n')[1:]] that fills [headers]. *)
Fixpoint read_headers (lines : list string) (headers : dict) : result dict :=
  match lines with
  | [] => Ok headers
  | line :: rest =>
      if str_in ": " line then
        kv <- unpack2 (split_1 ": " line) ;;
        let '(key, val) := kv in
        read_headers rest (dict_set (lower key) val headers)
      else read_headers rest headers
  end.

(** Lines 124-125: [base64.b64encode(hashlib.sha1((k + GUID).encode())
    .digest()).decode()] for the client key [k]. *)
Definition accept_key_of (k : string) : string :=
  let key := k ++ GUID in
  string_of_list_byte (b64encode (sha1 (list_byte_of_string key))).

(** Lines 127-132. *)
Definition response_for (accept_key : string) : string :=
  "HTTP/1.1 101 Switching Protocols" ++ CRLF
  ++ "Upgrade: websocket" ++ CRLF
  ++ "Connection: Upgrade" ++ CRLF
  ++ "Sec-WebSocket-Accept: " ++ accept_key ++ CRLF ++ CRLF.

(** [WebSocketServer._handshake(client_sock)] where [data] is the text
    [client_sock.recv(4096).decode('utf-8')] and [t] the state of
    [client_sock]; returns the value returned and the socket afterwards. *)
Definition _handshake (data : string) (t : transport)
  : result (bool * transport) :=
  if negb (startswith data "GET") then Ok (false, t) else
  headers <- read_headers (tl (split CRLF data)) [] ;;
  if negb (dict_in "upgrade" headers) then Ok (false, t) else
  upgrade <- dict_get "upgrade" headers ;;
  if negb (str_in "websocket" (lower upgrade)) then Ok (false, t) else
  if negb (dict_in "connection" headers) then Ok (false, t) else
  connection <- dict_get "connection" headers ;;
  if negb (str_in "upgrade" (lower connection)) then Ok (false, t) else
  if negb (dict_in "sec-websocket-key" headers) then Ok (false, t) else
  client_key <- dict_get "sec-websocket-key" headers ;;
  let accept_key := accept_key_of client_key in
  let response := response_for accept_key in
  t' <- sock_send t (list_byte_of_string response) ;;
  Ok (true, t').

Definition fresh_socket : transport := mk_transport false true [].

Definition rfc_request : string :=
  "GET /chat HTTP/1.1" ++ CRLF
  ++ "Host: server.example.com" ++ CRLF
  ++ "Upgrade: websocket" ++ CRLF
  ++ "Connection: Upgrade" ++ CRLF
  ++ "Sec-WebSocket-Key: dGhlIHNhbXBsZSBub25jZQ==" ++ CRLF
  ++ "Sec-WebSocket-Version: 13" ++ CRLF ++ CRLF.




Definition request_without_upgrade : string :=
  "GET /chat HTTP/1.1" ++ CRLF
  ++ "Host: server.example.com" ++ CRLF
  ++ "Connection: Upgrade" ++ CRLF
  ++ "Sec-WebSocket-Key: dGhlIHNhbXBsZSBub25jZQ==" ++ CRLF ++ CRLF.

Definition request_without_key : string :=
  "GET /chat HTTP/1.1" ++ CRLF
  ++ "UPGRADE: WebSocket" ++ CRLF
  ++ "connection: keep-alive, Upgrade" ++ CRLF ++ CRLF.

Local Close Scope string_scope.

(** ** class WebSocketServer: registry and broadcast

    The methods are run one at a time on the state of the server object:
    [clients] is [self.clients], a dict from socket to user name kept in
    insertion order, [net] the state of every socket, and [ticks] counts the
    frames created so far, the [n]-th of which reads the clock value
    [clock n].  An exception that leaves [broadcast] or [close_client]
    ([RecursionError], or one raised by [create_frame]) is a [Raise]
    outcome; the state it leaves behind is not followed. *)

Definition sock : Set := nat.

Record server : Type := mk_server {
  clients : list (sock * string);
  net : sock -> transport;
  ticks : nat
}.

(** [self.clients.get(s)] *)
Fixpoint clients_find (s : sock) (cl : list (sock * string)) : option string :=
  match cl with
  | [] => None
  | (s', name) :: rest =>
      if Nat.eqb s' s then Some name else clients_find s rest
  end.

(** [self.clients] after [self.clients.pop(s)] *)
Definition clients_pop (s : sock) (cl : list (sock * string))
  : list (sock * string) :=
  filter (fun p => negb (Nat.eqb (fst p) s)) cl.

Definition net_set (st : server) (s : sock) (t : transport) : server :=
  mk_server (clients st) (fun x => if Nat.eqb x s then t else net st x)
            (ticks st).

(** [sock != sender_sock] where [sender_sock] may be [None]. *)
Definition is_sender (sender_sock : option sock) (s : sock) : bool :=
  match sender_sock with
  | Some a => Nat.eqb s a
  | None => false
  end.

Section Hub.

Variable clock : nat -> Z.

(** [WebSocketFrame.create_frame(payload, opcode=opcode)] called by the
    server: the [mask] argument keeps its default [True]. *)
Definition new_frame (st : server) (payload : list byte) (opcode : Z)
  : result (list byte * server) :=
  frame <- create_frame (clock (ticks st)) payload opcode true ;;
  Ok (frame, mk_server (clients st) (net st) (S (ticks st))).

(** The loop of [broadcast] over [list(self.clients.keys())], where
    [close_client] is the method the [except] branch calls. *)
Fixpoint broadcast_loop (close_client : server -> sock -> result server)
  (frame : list byte) (sender_sock : option sock) (targets : list sock)
  (st : server) : result server :=
  match targets with
  | [] => Ok st
  | s :: rest =>
      if is_sender sender_sock s
      then broadcast_loop close_client frame sender_sock rest st
      else
        match sock_send (net st s) frame with
        | Ok t =>
            broadcast_loop close_client frame sender_sock rest
                           (net_set st s t)
        | Raise OSError =>
            st' <- close_client st s ;;
            broadcast_loop close_client frame sender_sock rest st'
        | Raise e => Raise e
        end
  end.

(** [WebSocketServer.close_client(client_sock)], with at most [depth]
    nested calls of the method before [RecursionError]. *)
Fixpoint close_client (depth : nat) (st : server) (client_sock : sock)
  {struct depth} : result server :=
  match depth with
  | O => Raise RecursionError
  | S d =>
      match clients_find client_sock (clients st) with
      | None => Ok st
      | Some username =>
          let st := mk_server (clients_pop client_sock (clients st))
                              (net st) (ticks st) in
          fs <- new_frame st [] OPCODE_CLOSE ;;
          let '(close_frame, st) := fs in
          let st :=
            match sock_send (net st client_sock) close_frame with
            | Ok t => net_set st client_sock (sock_close t)
            | Raise _ => st
            end in
          fs <- new_frame st
                  (list_byte_of_string
                     (username ++ " has left the chat")%string)
                  OPCODE_TEXT ;;
          let '(frame, st) := fs in
          broadcast_loop (close_client d) frame None
                         (map fst (clients st)) st
      end
  end.

(** [WebSocketServer.broadcast(message, sender_sock)] *)
Definition broadcast (depth : nat) (st : server) (message : string)
  (sender_sock : option sock) : result server :=
  fs <- new_frame st (list_byte_of_string message) OPCODE_TEXT ;;
  let '(frame, st) := fs in
  broadcast_loop (close_client depth) frame sender_sock
                 (map fst (clients st)) st.

End Hub.

(** ** class WebSocketServer: the session of one client *)

Definition in_range (lo hi : Z) (b : byte) : bool :=
  (lo <=? byte_val b) && (byte_val b <=? hi).

(** Whether [bs.decode('utf-8')] succeeds: the well-formed byte sequences
    of the Unicode standard. *)
Fixpoint utf8_valid (bs : list byte) : bool :=
  match bs with
  | [] => true
  | b0 :: r1 =>
      if in_range 0x00 0x7F b0 then utf8_valid r1
      else
        match r1 with
        | [] => false
        | b1 :: r2 =>
            if in_range 0xC2 0xDF b0 then in_range 0x80 0xBF b1 && utf8_valid r2
            else
              match r2 with
              | [] => false
              | b2 :: r3 =>
                  let second3 :=
                    if in_range 0xE0 0xE0 b0 then in_range 0xA0 0xBF b1
                    else if in_range 0xED 0xED b0 then in_range 0x80 0x9F b1
                    else in_range 0x80 0xBF b1 in
                  if in_range 0xE0 0xEF b0
                  then second3 && in_range 0x80 0xBF b2 && utf8_valid r3
                  else
                    match r3 with
                    | [] => false
                    | b3 :: r4 =>
                        let second4 :=
                          if in_range 0xF0 0xF0 b0 then in_range 0x90 0xBF b1
                          else if in_range 0xF4 0xF4 b0
                               then in_range 0x80 0x8F b1
                               else in_range 0x80 0xBF b1 in
                        in_range 0xF0 0xF4 b0 && second4
                        && in_range 0x80 0xBF b2 && in_range 0x80 0xBF b3
                        && utf8_valid r4
                    end
              end
        end
  end.

(** How the loop over the frames of a buffer ends: the buffer is used up or
    its rest is incomplete, the method returns, or an exception is raised. *)
Inductive outcome : Set :=
| LoopEnd
| Returned
| Raised (e : exn).

Section Session.

Variable clock : nat -> Z.

(** The loop [while buffer:] of [_handle_client] (lines 149-164).  Every
    pass drops at least two bytes of the buffer, so [fuel] passes are
    enough when [fuel] is the length of the buffer. *)
Fixpoint handle_frames (fuel depth : nat) (st : server) (client_sock : sock)
  (buffer : list byte) : result (server * outcome) :=
  match buffer, fuel with
  | [], _ => Ok (st, LoopEnd)
  | _ :: _, O => Ok (st, LoopEnd)
  | _ :: _, S fuel' =>
      r <- parse_frame buffer ;;
      match r with
      | Incomplete => Ok (st, LoopEnd)
      | Frame opcode payload plen fin frame_len =>
          let rest := skipn (Z.to_nat frame_len) buffer in
          if opcode =? OPCODE_TEXT then
            if utf8_valid payload then
              let message := string_of_list_byte payload in
              st' <- broadcast clock depth st message (Some client_sock) ;;
              handle_frames fuel' depth st' client_sock rest
            else Ok (st, Raised UnicodeDecodeError)
          else if opcode =? OPCODE_CLOSE then
            st' <- close_client clock depth st client_sock ;;
            Ok (st', Returned)
          else if opcode =? OPCODE_PING then
            fs <- new_frame clock st [] OPCODE_PONG ;;
            let '(pong_frame, st) := fs in
            match sock_send (net st client_sock) pong_frame with
            | Ok t =>
                handle_frames fuel' depth (net_set st client_sock t)
                              client_sock rest
            | Raise e => Ok (st, Raised e)
            end
          else handle_frames fuel' depth st client_sock rest
      end
  end.

(** One pass of the loop [while self.running:] of [_handle_client] in which
    [recv] returned [data], followed, when the pass leaves the loop, by the
    [except] and [finally] clauses; the boolean tells whether the method is
    over. *)
Definition _handle_client (depth : nat) (st : server) (client_sock : sock)
  (data : list byte) : result (server * bool) :=
  match data with
  | [] =>
      st' <- close_client clock depth st client_sock ;;
      Ok (st', true)
  | _ :: _ =>
      r <- handle_frames (length data) depth st client_sock data ;;
      let '(st', o) := r in
      match o with
      | LoopEnd => Ok (st', false)
      | Returned =>
          st'' <- close_client clock depth st' client_sock ;;
          Ok (st'', true)
      | Raised OSError =>
          st'' <- close_client clock depth st' client_sock ;;
          Ok (st'', true)
      | Raised e =>
          st'' <- close_client clock depth st' client_sock ;;
          Raise e
      end
  end.

End Session.

(** ** Definitions used to state the properties of the registry *)

(** A socket on which [send] succeeds. *)
Definition writable (t : transport) : Prop :=
  t_closed t = false /\ t_up t = true.

(** The socket after the byte strings [fs] were sent on it. *)
Definition pushes (fs : list (list byte)) (t : transport) : transport :=
  mk_transport (t_closed t) (t_up t) (t_sent t ++ fs).

(** How often the loop of [broadcast] reaches the socket [x]. *)
Definition reached (sender_sock : option sock) (targets : list sock)
  (x : sock) : nat :=
  if is_sender sender_sock x then O else count_occ Nat.eq_dec targets x.

(** The text of the leave notice for [name]. *)
Definition leave_notice (name : string) : string :=
  (name ++ " has left the chat")%string.

Section HubGeneral.

Variable clock : nat -> Z.

(** The frames the close path of a client writes: its close frame and its
    leave notice. *)
Definition control_frame (f : list byte) : Prop :=
  exists t,
    create_frame (clock t) [] OPCODE_CLOSE true = Ok f
    \/ exists name,
        create_frame (clock t) (list_byte_of_string (leave_notice name))
                     OPCODE_TEXT true = Ok f.

(** Every registered name is short enough for its leave notice to fit a
    frame. *)
Definition names_short (cl : list (sock * string)) : Prop :=
  forall s n, In (s, n) cl ->
              len (list_byte_of_string (leave_notice n)) < 2 ^ 64.

(** What [close_client] on the socket [c] may do to the server. *)
Definition closes (c : sock) (st st' : server) : Prop :=
  (forall p, In p (clients st') -> In p (clients st))
  /\ clients_find c (clients st') = None
  /\ (length (clients st') <= length (clients st))%nat
  /\ (forall x, t_up (net st' x) = t_up (net st x))
  /\ (forall x, x <> c \/ ~ writable (net st c) ->
                t_closed (net st' x) = t_closed (net st x))
  /\ (forall x n, x <> c -> writable (net st x) ->
                  In (x, n) (clients st) -> In (x, n) (clients st'))
  /\ (forall x, exists new,
         t_sent (net st' x) = t_sent (net st x) ++ new
         /\ Forall control_frame new).

(** What the loop of [broadcast] may do to the server. *)
Definition spreads (frame : list byte) (sender_sock : option sock)
  (targets : list sock) (st st' : server) : Prop :=
  (forall p, In p (clients st') -> In p (clients st))
  /\ (length (clients st') <= length (clients st))%nat
  /\ (forall x, t_up (net st' x) = t_up (net st x)
                /\ t_closed (net st' x) = t_closed (net st x))
  /\ (forall x n, writable (net st x) ->
                  In (x, n) (clients st) -> In (x, n) (clients st'))
  /\ (forall x, exists new,
         t_sent (net st' x) = t_sent (net st x) ++ new
         /\ Forall (fun g => g = frame \/ control_frame g) new
         /\ (is_sender sender_sock x = true -> Forall control_frame new)
         /\ (In x targets -> is_sender sender_sock x = false ->
             writable (net st x) -> In frame new)).

End HubGeneral.

(** ** A sample chat room *)

Definition chat_clock (n : nat) : Z := 1700000000000 + Z.of_nat n.

Definition chat_room : server :=
  mk_server [(1%nat, "ann"%string); (2%nat, "bob"%string);
             (3%nat, "cy"%string)]
            (fun _ => fresh_socket) 0.

Definition close_frame_bytes : list byte :=
  [x88; x80; x00; x00; x00; x00].

(** ** class WebSocketClient *)

(** The client object: [self.connected], the state of [self.sock], and the
    number of frames it has created, the [n]-th of which reads the clock
    value [clock n]. *)
Record client : Type := mk_client {
  connected : bool;
  c_sock : transport;
  c_ticks : nat
}.

(** What [receive] answers: a text message, [None], or nothing yet because
    the loop is still waiting for data. *)
Inductive received : Type :=
| Message (text : string)
| NoMessage
| Waiting.

(** How the loop over the frames of the client's buffer ends: it stops with
    the bytes still to be completed, or it found a text frame or a close
    frame. *)
Inductive frames_end : Type :=
| Pending (buffer : list byte)
| GotText (payload : list byte)
| GotClose.

Section Client.

Variable clock : nat -> Z.

(** [WebSocketClient.send(message)] *)
Definition client_send (c : client) (message : string) : result client :=
  frame <- create_frame (clock (c_ticks c)) (list_byte_of_string message)
             OPCODE_TEXT true ;;
  t <- sock_send (c_sock c) frame ;;
  Ok (mk_client (connected c) t (S (c_ticks c))).

(** [WebSocketClient.close()] *)
Definition client_close (c : client) : result client :=
  if connected c then
    close_frame <- create_frame (clock (c_ticks c)) [] OPCODE_CLOSE true ;;
    let t := match sock_send (c_sock c) close_frame with
             | Ok t => t
             | Raise _ => c_sock c
             end in
    Ok (mk_client false (sock_close t) (S (c_ticks c)))
  else Ok c.

(** The loop [while buffer:] of [receive] (lines 282-292); every pass drops
    at least two bytes, so [fuel] passes are enough when [fuel] is the
    length of the buffer. *)
Fixpoint receive_frames (fuel : nat) (buffer : list byte)
  : result frames_end :=
  match buffer, fuel with
  | [], _ => Ok (Pending [])
  | _ :: _, O => Ok (Pending buffer)
  | _ :: _, S fuel' =>
      r <- parse_frame buffer ;;
      match r with
      | Incomplete => Ok (Pending buffer)
      | Frame opcode payload plen fin frame_len =>
          let buffer := skipn (Z.to_nat frame_len) buffer in
          if opcode =? OPCODE_TEXT then Ok (GotText payload)
          else if opcode =? OPCODE_CLOSE then Ok GotClose
          else receive_frames fuel' buffer
      end
  end.

(** The loop [while self.connected:] of [receive], started with [buffer],
    where [inbox] lists what the calls of [recv] return, in order, an empty
    byte string meaning that the peer has closed; when [inbox] is used up
    the loop is left waiting.  Returns the answer, the part of [inbox] not
    read, and the client. *)
Fixpoint receive_loop (buffer : list byte) (inbox : list (list byte))
  (c : client) : result (received * list (list byte) * client) :=
  match inbox with
  | [] => if connected c then Ok (Waiting, [], c) else Ok (NoMessage, [], c)
  | data :: later =>
      if negb (connected c) then Ok (NoMessage, inbox, c)
      else
        match data with
        | [] =>
            c' <- client_close c ;;
            Ok (NoMessage, later, c')
        | _ :: _ =>
            let buffer := buffer ++ data in
            e <- receive_frames (length buffer) buffer ;;
            match e with
            | Pending buffer => receive_loop buffer later c
            | GotText payload =>
                if utf8_valid payload
                then Ok (Message (string_of_list_byte payload), later, c)
                else Raise UnicodeDecodeError
            | GotClose =>
                c' <- client_close c ;;
                Ok (NoMessage, later, c')
            end
        end
  end.

(** [WebSocketClient.receive()]: the buffer starts empty at every call. *)
Definition receive (inbox : list (list byte)) (c : client)
  : result (received * list (list byte) * client) :=
  receive_loop [] inbox c.

End Client.

(** ** class WebSocketServer: [start] and [stop] *)

(** [self.clients] after [self.clients[s] = name]: the value of an existing
    key is replaced in place, a new key goes last. *)
Fixpoint clients_set (s : sock) (name : string) (cl : list (sock * string))
  : list (sock * string) :=
  match cl with
  | [] => [(s, name)]
  | (s', n) :: rest =>
      if Nat.eqb s' s then (s, name) :: rest
      else (s', n) :: clients_set s name rest
  end.

(** The server object with the fields the registry does not read:
    [self.running], and whether the listening socket [self.sock] is still
    open. *)
Record listener : Type := mk_listener {
  srv : server;
  running : bool;
  listening : bool
}.

Section StartStop.

Variable clock : nat -> Z.

(** One pass of the loop of [start] (lines 201-210) for the accepted socket
    [client_sock], where [request] is the text of what its first [recv]
    returns and [data] what the second returns; the boolean tells whether
    the client was registered.  An [OSError] makes [start] leave its loop;
    the session thread of a registered client is not started here. *)
Definition start_accept (depth : nat) (st : server) (client_sock : sock)
  (request : string) (data : list byte) : result (server * bool) :=
  hs <- _handshake request (net st client_sock) ;;
  let '(ok, t) := hs in
  let st := net_set st client_sock t in
  if ok then
    r <- parse_frame data ;;
    match r with
    | Incomplete => Ok (st, false)
    | Frame opcode payload _ _ _ =>
        if opcode =? OPCODE_TEXT then
          if utf8_valid payload then
            let username := string_of_list_byte payload in
            let st := mk_server (clients_set client_sock username
                                             (clients st))
                                (net st) (ticks st) in
            st' <- broadcast clock depth st
                     (username ++ " joined the chat")%string None ;;
            Ok (st', true)
          else Raise UnicodeDecodeError
        else Ok (st, false)
    end
  else Ok (st, false).

(** The loop of [stop] over [list(self.clients.keys())]. *)
Fixpoint stop_loop (depth : nat) (targets : list sock) (st : server)
  : result server :=
  match targets with
  | [] => Ok st
  | s :: rest =>
      st' <- close_client clock depth st s ;;
      stop_loop depth rest st'
  end.

(** [WebSocketServer.stop()] *)
Definition stop (depth : nat) (l : listener) : result listener :=
  let l := mk_listener (srv l) false (listening l) in
  st' <- stop_loop depth (map fst (clients (srv l))) (srv l) ;;
  Ok (mk_listener st' (running l) false).

End StartStop.

(** ** Definitions used to state what the close paths leave alone *)

(** From [st] to [st'] clients are only removed, a socket that is not
    writable or not registered stays as it is, a writable socket of a
    registered client other than [c] stays writable and registered, and
    what was sent on a socket stays sent. *)
Definition keeps (c : option sock) (st st' : server) : Prop :=
  (forall p, In p (clients st') -> In p (clients st))
  /\ (forall x, ~ writable (net st x) -> net st' x = net st x)
  /\ (forall x, ~ In x (map fst (clients st)) -> net st' x = net st x)
  /\ (forall x n, Some x <> c -> writable (net st x) ->
                  In (x, n) (clients st) ->
                  In (x, n) (clients st') /\ writable (net st' x))
  /\ (forall x, exists new, t_sent (net st' x) = t_sent (net st x) ++ new).

Local Open Scope string_scope.

(** ** class WebSocketClient: the handshake *)

(** Line 248: [base64.b64encode(hashlib.sha1(str(time.time()).encode())
    .digest()[:16]).decode()], where [now_text] is [str(time.time())]. *)
Definition request_key (now_text : string) : string :=
  string_of_list_byte
    (b64encode (firstn 16 (sha1 (list_byte_of_string now_text)))).

(** Lines 249-256, with [port] the text of [self.port]. *)
Definition client_request (host port key : string) : string :=
  "GET / HTTP/1.1" ++ CRLF
  ++ ("Host: " ++ host ++ ":" ++ port) ++ CRLF
  ++ "Upgrade: websocket" ++ CRLF
  ++ "Connection: Upgrade" ++ CRLF
  ++ ("Sec-WebSocket-Key: " ++ key) ++ CRLF
  ++ "Sec-WebSocket-Version: 13" ++ CRLF ++ CRLF.

(** [WebSocketClient._handshake()], where [response] is the text of what
    [recv] returns: the client afterwards and the exception raised, if any
    ([ConnectionError] is an [OSError]). *)
Definition client_handshake (c : client) (host port now_text response : string)
  : client * result unit :=
  let key := request_key now_text in
  let request := client_request host port key in
  match sock_send (c_sock c) (list_byte_of_string request) with
  | Raise e => (c, Raise e)
  | Ok t =>
      let c := mk_client (connected c) t (c_ticks c) in
      if negb (str_in "101 Switching Protocols" response)
      then (c, Raise OSError)
      else (c, Ok tt)
  end.

(** Whether no character of [s] is [bad]. *)
Fixpoint lacks (bad : ascii) (s : string) : bool :=
  match s with
  | EmptyString => true
  | String c s' => negb (Ascii.eqb c bad) && lacks bad s'
  end.

Definition CR : ascii := "013"%char.

Local Close Scope string_scope.

Section ClientConnect.

Variable clock : nat -> Z.

(** [WebSocketClient.connect(username)] on a socket that is connected to
    the server, where [response] is the text of what [recv] returns during
    the handshake: the value returned and the client afterwards. *)
Definition connect (c : client) (host port now_text response : string)
  (username : string) : result (bool * client) :=
  match client_handshake c host port now_text response with
  | (c, Raise _) => Ok (false, c)
  | (c, Ok _) =>
      let c := mk_client true (c_sock c) (c_ticks c) in
      match client_send clock c username with
      | Ok c' => Ok (true, c')
      | Raise OSError => Ok (false, c)
      | Raise e => Raise e
      end
  end.

End ClientConnect.

(** ** Sample frames, a sample client and a sample request *)

Definition hi_frame : list byte :=
  [x81; x82; x00; x00; x00; x00; x68; x69].

Definition yo_frame : list byte :=
  [x81; x82; x00; x00; x00; x00; x79; x6f].

Definition dee_frame : list byte :=
  [x81; x83; x00; x00; x00; x00; x64; x65; x65].

Definition ping_frame : list byte :=
  [x89; x82; x00; x00; x00; x00; x68; x69].

Definition binary_frame : list byte :=
  [x82; x82; x00; x00; x00; x00; x68; x69].

Definition bad_text_frame : list byte :=
  [x81; x81; x00; x00; x00; x00; xff].

Definition sample_client : client := mk_client true fresh_socket 0.

Definition sample_request : string :=
  client_request "127.0.0.1" "8000" (request_key "1700000000.5").

Definition sample_response : string :=
  response_for (accept_key_of (request_key "1700000000.5")).

(** ** A room with a dead connection *)

Definition broken_room : server :=
  mk_server [(1%nat, "ann"%string); (2%nat, "bob"%string);
             (3%nat, "cy"%string)]
            (fun s => if Nat.eqb s 3 then mk_transport true true []
                      else fresh_socket) 0.

(** * Part II: properties *)

(** ** Frames by example *)

Example create_frame_hello :
  create_frame 0x01020304 hello OPCODE_TEXT true
  = Ok [x81; x85; x01; x02; x03; x04; x69; x67; x6f; x68; x6e].
Proof. reflexivity. Qed.

Example parse_frame_hello :
  parse_frame [x81; x85; x01; x02; x03; x04; x69; x67; x6f; x68; x6e]
  = Ok (Frame OPCODE_TEXT hello 5 true 11).
Proof. reflexivity. Qed.

(** ** Bytes and big-endian integers *)

Lemma byte_val_range (b : byte) : 0 <= byte_val b < 256.
Proof.
  unfold byte_val. pose proof (Byte.to_N_bounded b). lia.
Qed.

Lemma byte_val_trunc (z : Z) : byte_val (byte_trunc z) = z mod 256.
Proof.
  unfold byte_val, byte_trunc.
  pose proof (Z.mod_pos_bound z 256 ltac:(lia)) as Hr.
  destruct (Byte.of_N (Z.to_N (z mod 256))) as [b|] eqn:E.
  - apply Byte.to_of_N in E. rewrite E. lia.
  - apply Byte.of_N_None_iff in E. lia.
Qed.

Lemma byte_trunc_val (b : byte) : byte_trunc (byte_val b) = b.
Proof.
  unfold byte_trunc. pose proof (byte_val_range b) as Hr.
  rewrite Z.mod_small by lia. unfold byte_val. rewrite N2Z.id.
  now rewrite Byte.of_to_N.
Qed.

Lemma byte_val_inj (a b : byte) : byte_val a = byte_val b -> a = b.
Proof.
  intros H. rewrite <- (byte_trunc_val a), <- (byte_trunc_val b).
  now rewrite H.
Qed.

Lemma to_byte_ok (z : Z) : 0 <= z < 256 -> to_byte z = Ok (byte_trunc z).
Proof.
  intros H. unfold to_byte.
  destruct (Z.leb_spec 0 z); destruct (Z.ltb_spec z 256); simpl;
    try reflexivity; lia.
Qed.

Lemma to_byte_inv (z : Z) (b : byte) :
  to_byte z = Ok b -> 0 <= z < 256 /\ byte_val b = z.
Proof.
  unfold to_byte.
  destruct (Z.leb_spec 0 z); destruct (Z.ltb_spec z 256); simpl;
    try discriminate.
  intros [= <-]. split; [lia|]. rewrite byte_val_trunc. apply Z.mod_small. lia.
Qed.

Lemma lxor_byte_range (a b : Z) :
  0 <= a < 256 -> 0 <= b < 256 -> 0 <= Z.lxor a b < 256.
Proof.
  intros Ha Hb.
  assert (H0 : 0 <= Z.lxor a b) by (apply Z.lxor_nonneg; lia).
  split; [exact H0|].
  destruct (Z.eq_dec (Z.lxor a b) 0) as [E|E]; [lia|].
  change 256 with (2 ^ 8). apply Z.log2_lt_pow2; [lia|].
  pose proof (Z.log2_lxor a b ltac:(lia) ltac:(lia)) as Hl.
  assert (Z.log2 a < 8).
  { destruct (Z.eq_dec a 0) as [->|]; [simpl; lia|].
    apply Z.log2_lt_pow2; [lia|]. change (2 ^ 8) with 256. lia. }
  assert (Z.log2 b < 8).
  { destruct (Z.eq_dec b 0) as [->|]; [simpl; lia|].
    apply Z.log2_lt_pow2; [lia|]. change (2 ^ 8) with 256. lia. }
  lia.
Qed.

Lemma len_nil {A : Type} : len (@nil A) = 0.
Proof. reflexivity. Qed.

Lemma len_cons {A : Type} (a : A) (l : list A) : len (a :: l) = 1 + len l.
Proof. unfold len. simpl length. lia. Qed.

Lemma len_app {A : Type} (l1 l2 : list A) : len (l1 ++ l2) = len l1 + len l2.
Proof. unfold len. rewrite length_app. lia. Qed.

Lemma len_nonneg {A : Type} (l : list A) : 0 <= len l.
Proof. unfold len. lia. Qed.

Lemma be_bytes_length (n : nat) (v : Z) : length (be_bytes n v) = n.
Proof. induction n; simpl; congruence. Qed.

Lemma be_value_acc (bs : list byte) (acc : Z) :
  fold_left (fun a b => a * 256 + byte_val b) bs acc
  = acc * 256 ^ len bs + be_value bs.
Proof.
  unfold be_value. revert acc.
  induction bs as [|b bs IH]; intros acc.
  - cbn. lia.
  - cbn [fold_left]. rewrite (IH (acc * 256 + byte_val b)).
    rewrite (IH (0 * 256 + byte_val b)).
    rewrite len_cons. rewrite Z.pow_add_r by (pose proof (len_nonneg bs); lia).
    lia.
Qed.

Lemma be_value_cons (b : byte) (bs : list byte) :
  be_value (b :: bs) = byte_val b * 256 ^ len bs + be_value bs.
Proof.
  unfold be_value at 1. simpl fold_left. rewrite be_value_acc. lia.
Qed.

Lemma be_value_bytes (n : nat) (v : Z) :
  be_value (be_bytes n v) = v mod 256 ^ Z.of_nat n.
Proof.
  induction n as [|k IH].
  - simpl. now rewrite Z.mod_1_r.
  - cbn [be_bytes]. rewrite be_value_cons, IH, byte_val_trunc.
    unfold len. rewrite be_bytes_length.
    rewrite Nat2Z.inj_succ, Z.pow_succ_r by lia.
    rewrite (Z.mul_comm 256 (256 ^ Z.of_nat k)).
    rewrite Z.rem_mul_r by lia. lia.
Qed.

Lemma be_value_range (bs : list byte) : 0 <= be_value bs < 256 ^ len bs.
Proof.
  induction bs as [|b bs IH].
  - cbn. lia.
  - rewrite be_value_cons, len_cons.
    rewrite Z.pow_add_r by (pose proof (len_nonneg bs); lia).
    pose proof (byte_val_range b). nia.
Qed.

Lemma struct_pack_ok (f : fmt) (v : Z) :
  0 <= v < 256 ^ Z.of_nat (fmt_size f) ->
  struct_pack f v = Ok (be_bytes (fmt_size f) v).
Proof.
  intros H. unfold struct_pack.
  destruct (Z.leb_spec 0 v); destruct (Z.ltb_spec v (256 ^ Z.of_nat (fmt_size f)));
    simpl; try reflexivity; lia.
Qed.

Lemma struct_unpack_pack (f : fmt) (v : Z) :
  0 <= v < 256 ^ Z.of_nat (fmt_size f) ->
  struct_unpack f (be_bytes (fmt_size f) v) = Ok v.
Proof.
  intros H. unfold struct_unpack.
  rewrite be_bytes_length, Nat.eqb_refl, be_value_bytes.
  now rewrite Z.mod_small.
Qed.

(** ** The masking loop *)

Lemma getitem_key (key : list byte) (i : nat) :
  length key = 4%nat -> exists k, getitem key (i mod 4) = Ok k.
Proof.
  intros Hk. unfold getitem.
  destruct (nth_error key (i mod 4)) as [k|] eqn:E; [now exists k|].
  apply nth_error_None in E.
  pose proof (Nat.mod_upper_bound i 4 ltac:(lia)). lia.
Qed.

Lemma xor_byte_ok (b k : byte) :
  to_byte (Z.lxor (byte_val b) (byte_val k))
  = Ok (byte_trunc (Z.lxor (byte_val b) (byte_val k))).
Proof.
  apply to_byte_ok. apply lxor_byte_range; apply byte_val_range.
Qed.

Lemma xor_byte_twice (b k : byte) :
  byte_trunc (Z.lxor (byte_val (byte_trunc (Z.lxor (byte_val b) (byte_val k))))
                     (byte_val k)) = b.
Proof.
  rewrite byte_val_trunc.
  rewrite Z.mod_small
    by (apply lxor_byte_range; apply byte_val_range).
  rewrite Z.lxor_assoc, Z.lxor_nilpotent, Z.lxor_0_r.
  apply byte_trunc_val.
Qed.

(** With a 4-byte key the loop never raises, keeps the length, and is its
    own inverse. *)
Lemma xor_loop_involutive (key : list byte) (payload : list byte) (i : nat) :
  length key = 4%nat ->
  exists m, xor_loop key i payload = Ok m
            /\ length m = length payload
            /\ xor_loop key i m = Ok payload.
Proof.
  intros Hk. revert i.
  induction payload as [|b rest IH]; intros i.
  - exists []. repeat split.
  - destruct (getitem_key key i Hk) as [k Ek].
    destruct (IH (S i)) as (m & Em & Hl & Eb).
    exists (byte_trunc (Z.lxor (byte_val b) (byte_val k)) :: m).
    cbn [xor_loop]. rewrite Ek. cbn [bind].
    rewrite !xor_byte_ok. cbn [bind]. rewrite Em, Eb. cbn [bind].
    rewrite xor_byte_twice. cbn [length].
    repeat split; congruence.
Qed.

(** ** [parse_frame] never raises *)

Ltac len_lia := exfalso; unfold len in *; cbn [length] in *; lia.

Ltac len_test :=
  repeat rewrite len_cons; repeat rewrite len_nil;
  match goal with
  | |- context [ ?a <? ?b ] =>
      destruct (Z.ltb_spec a b); [ try len_lia | try len_lia ]
  end.

Lemma parse_header_eq (data : list byte) :
  parse_header data = Ok (header_of data).
Proof.
  destruct data as [|b1 [|b2 tl]]; try reflexivity.
  unfold parse_header, header_of.
  len_test.
  cbn [getitem nth_error bind].
  destruct (Z.land (byte_val b2) 127 =? 126) eqn:E126.
  - destruct tl as [|e0 [|e1 rest]].
    + len_test. reflexivity.
    + len_test. reflexivity.
    + len_test. cbn.
      destruct (negb (Z.land (byte_val b2) 128 =? 0)); reflexivity.
  - destruct (Z.land (byte_val b2) 127 =? 127) eqn:E127.
    + destruct tl as [|e0 [|e1 [|e2 [|e3 [|e4 [|e5 [|e6 [|e7 rest]]]]]]]];
        len_test; try reflexivity.
      cbn. destruct (negb (Z.land (byte_val b2) 128 =? 0)); reflexivity.
    + cbn. destruct (negb (Z.land (byte_val b2) 128 =? 0)); reflexivity.
Qed.

Lemma parse_frame_eq (data : list byte) :
  parse_frame data
  = match header_of data with
    | None => Ok Incomplete
    | Some h =>
        if len data <? h_header_size h + h_payload_len h then Ok Incomplete
        else
          payload <- (if h_mask h
                      then xor_loop (h_masking_key h) 0
                             (slice data (h_header_size h)
                                    (h_header_size h + h_payload_len h))
                      else Ok (slice data (h_header_size h)
                                     (h_header_size h + h_payload_len h))) ;;
          Ok (Frame (h_opcode h) payload (h_payload_len h) (h_fin h)
                    (h_header_size h + h_payload_len h))
    end.
Proof.
  unfold parse_frame. rewrite parse_header_eq. reflexivity.
Qed.

Lemma slice_length {A : Type} (l : list A) (a b : Z) :
  0 <= a <= b -> b <= len l -> len (slice l a b) = b - a.
Proof.
  intros Hab Hb. unfold slice, len in *.
  rewrite length_firstn, length_skipn. lia.
Qed.

Lemma land_7F_range (x : Z) : 0 <= Z.land x 0x7F < 128.
Proof.
  change 0x7F with (Z.ones 7). rewrite Z.land_ones by lia.
  change (2 ^ 7) with 128. apply Z.mod_pos_bound. lia.
Qed.

Lemma land_0F_range (x : Z) : 0 <= Z.land x 0x0F < 16.
Proof.
  change 0x0F with (Z.ones 4). rewrite Z.land_ones by lia.
  change (2 ^ 4) with 16. apply Z.mod_pos_bound. lia.
Qed.

(** What a header that was read says about the buffer it was read from. *)
Lemma header_of_bounds (data : list byte) (h : header) :
  header_of data = Some h ->
  2 + (if h_mask h then 4 else 0) <= h_header_size h <= 14
  /\ h_header_size h - (if h_mask h then 4 else 0) <= len data
  /\ 0 <= h_payload_len h < 2 ^ 64
  /\ 0 <= h_opcode h < 16
  /\ h_masking_key h
     = (if h_mask h
        then slice data (h_header_size h - 4) (h_header_size h)
        else []).
Proof.
  destruct data as [|b1 [|b2 tl]]; try discriminate.
  cbn [header_of].
  pose proof (land_7F_range (byte_val b2)) as H7.
  pose proof (land_0F_range (byte_val b1)) as HF.
  destruct (Z.land (byte_val b2) 127 =? 126) eqn:E126;
    [|destruct (Z.land (byte_val b2) 127 =? 127) eqn:E127].
  - destruct tl as [|e0 [|e1 rest]]; try discriminate.
    pose proof (be_value_range [e0; e1]) as Hv.
    change (256 ^ len [e0; e1]) with 65536 in Hv.
    destruct (negb (Z.land (byte_val b2) 128 =? 0)); intros [= <-];
      cbn [h_header_size h_mask h_payload_len h_opcode h_masking_key];
      rewrite !len_cons; pose proof (len_nonneg rest);
      repeat split; try lia; reflexivity.
  - destruct tl as [|e0 [|e1 [|e2 [|e3 [|e4 [|e5 [|e6 [|e7 rest]]]]]]]];
      try discriminate.
    pose proof (be_value_range [e0; e1; e2; e3; e4; e5; e6; e7]) as Hv.
    change (256 ^ len [e0; e1; e2; e3; e4; e5; e6; e7]) with (2 ^ 64) in Hv.
    destruct (negb (Z.land (byte_val b2) 128 =? 0)); intros [= <-];
      cbn [h_header_size h_mask h_payload_len h_opcode h_masking_key];
      rewrite !len_cons; pose proof (len_nonneg rest);
      repeat split; try lia; reflexivity.
  - destruct (negb (Z.land (byte_val b2) 128 =? 0)); intros [= <-];
      cbn [h_header_size h_mask h_payload_len h_opcode h_masking_key];
      rewrite !len_cons; pose proof (len_nonneg tl);
      repeat split; try lia; reflexivity.
Qed.

(** Once the buffer holds the whole frame, the unmasking loop has a 4-byte
    key and a payload of the declared length. *)
Lemma parse_frame_payload (data : list byte) (h : header) :
  header_of data = Some h ->
  h_header_size h + h_payload_len h <= len data ->
  exists payload,
    (if h_mask h
     then xor_loop (h_masking_key h) 0
            (slice data (h_header_size h)
                   (h_header_size h + h_payload_len h))
     else Ok (slice data (h_header_size h)
                    (h_header_size h + h_payload_len h))) = Ok payload
    /\ len payload = h_payload_len h.
Proof.
  intros Hh Hlen.
  destruct (header_of_bounds data h Hh) as (Hs & _ & Hp & _ & Hk).
  destruct (h_mask h).
  - assert (Hsl : len (slice data (h_header_size h)
                         (h_header_size h + h_payload_len h))
                  = h_payload_len h)
      by (rewrite slice_length; lia).
    assert (Hk4 : length (h_masking_key h) = 4%nat).
    { assert (len (h_masking_key h) = 4)
        by (rewrite Hk, slice_length; lia).
      unfold len in *. lia. }
    destruct (xor_loop_involutive (h_masking_key h)
                (slice data (h_header_size h)
                       (h_header_size h + h_payload_len h)) 0 Hk4)
      as (m & Em & Hl & _).
    exists m. split; [exact Em|]. unfold len in *. lia.
  - eexists. split; [reflexivity|]. rewrite slice_length; lia.
Qed.

(** ** Frames written by [create_frame] *)

(** Bit facts about a byte with 0x80 or-ed in, checked on all 256 bytes. *)
Lemma lor_80_byte (b : byte) :
  0 <= Z.lor 0x80 (byte_val b) < 256
  /\ (Z.land (Z.lor 0x80 (byte_val b)) 0x80 =? 0) = false
  /\ Z.land (Z.lor 0x80 (byte_val b)) 0x7F = Z.land (byte_val b) 0x7F
  /\ Z.land (Z.lor 0x80 (byte_val b)) 0x0F = Z.land (byte_val b) 0x0F.
Proof.
  destruct b; vm_compute; repeat split; congruence.
Qed.

Lemma land_7F_small (x : Z) : 0 <= x < 128 -> Z.land x 0x7F = x.
Proof.
  intros Hx. change 0x7F with (Z.ones 7). rewrite Z.land_ones by lia.
  apply Z.mod_small. change (2 ^ 7) with 128. lia.
Qed.

Lemma land_0F_small (x : Z) : 0 <= x < 16 -> Z.land x 0x0F = x.
Proof.
  intros Hx. change 0x0F with (Z.ones 4). rewrite Z.land_ones by lia.
  apply Z.mod_small. change (2 ^ 4) with 16. lia.
Qed.

(** [0x80 | v] for a value [v] that fits a byte. *)
Lemma lor_80_ok (v : Z) :
  0 <= v < 256 ->
  exists b, to_byte (Z.lor 0x80 v) = Ok b
            /\ (Z.land (byte_val b) 0x80 =? 0) = false
            /\ Z.land (byte_val b) 0x7F = Z.land v 0x7F
            /\ Z.land (byte_val b) 0x0F = Z.land v 0x0F.
Proof.
  intros Hv.
  assert (Ev : byte_val (byte_trunc v) = v)
    by (rewrite byte_val_trunc; apply Z.mod_small; lia).
  destruct (lor_80_byte (byte_trunc v)) as (Hr & H80 & H7F & H0F).
  rewrite Ev in *.
  exists (byte_trunc (Z.lor 0x80 v)).
  rewrite to_byte_ok by exact Hr.
  rewrite byte_val_trunc, Z.mod_small by exact Hr.
  repeat split; assumption.
Qed.

Lemma slice_app_mid {A : Type} (pre body rest : list A) :
  slice (pre ++ body ++ rest) (len pre) (len pre + len body) = body.
Proof.
  unfold slice, len.
  replace (Z.of_nat (length pre) + Z.of_nat (length body)
           - Z.of_nat (length pre)) with (Z.of_nat (length body)) by lia.
  rewrite !Nat2Z.id.
  rewrite skipn_app, skipn_all, Nat.sub_diag. cbn [skipn app].
  rewrite firstn_app, firstn_all, Nat.sub_diag. cbn [firstn].
  apply app_nil_r.
Qed.

(** Decoding a buffer that starts with a masked frame whose header has been
    read: the payload is the unmasked body, whatever follows the frame. *)
Lemma parse_frame_masked (pre body rest payload : list byte) (h : header) :
  header_of (pre ++ body ++ rest) = Some h ->
  h_mask h = true ->
  h_header_size h = len pre ->
  h_payload_len h = len body ->
  xor_loop (h_masking_key h) 0 body = Ok payload ->
  parse_frame (pre ++ body ++ rest)
  = Ok (Frame (h_opcode h) payload (len body) (h_fin h)
              (len pre + len body)).
Proof.
  intros Hh Hm Hs Hp Hx.
  rewrite parse_frame_eq, Hh, Hm, Hs, Hp.
  rewrite slice_app_mid, Hx. cbn [bind].
  rewrite !len_app.
  destruct (Z.ltb_spec (len pre + (len body + len rest))
                       (len pre + len body)); [|reflexivity].
  pose proof (len_nonneg rest). lia.
Qed.

(** The header [parse_frame] reads back from the bytes [create_frame]
    writes before the payload. *)
Lemma header_of_created (b0 : byte) (lf key tl : list byte) (n : Z) :
  0 <= n < 2 ^ 64 ->
  length_field n = Ok lf ->
  length key = 4%nat ->
  header_of ((b0 :: lf ++ key) ++ tl)
  = Some (mk_header (negb (Z.land (byte_val b0) 0x80 =? 0))
                    (Z.land (byte_val b0) 0x0F) true n
                    (len (b0 :: lf ++ key)) key).
Proof.
  intros Hn Hlf Hk.
  destruct key as [|k0 [|k1 [|k2 [|k3 [|]]]]]; try discriminate.
  unfold length_field in Hlf.
  destruct (Z.leb_spec n 125) as [H125|H125];
    [|destruct (Z.leb_spec n 65535) as [H64k|H64k]].
  - destruct (lor_80_ok n ltac:(lia)) as (b & Eb & H80 & H7F & _).
    rewrite Eb in Hlf. cbn [bind] in Hlf. injection Hlf as <-.
    rewrite (land_7F_small n) in H7F by lia.
    cbn [app header_of]. rewrite H7F, H80.
    destruct (Z.eqb_spec n 126); [lia|].
    destruct (Z.eqb_spec n 127); [lia|].
    reflexivity.
  - destruct (lor_80_ok 126 ltac:(lia)) as (b & Eb & H80 & H7F & _).
    rewrite Eb, struct_pack_ok in Hlf
      by (change (256 ^ Z.of_nat (fmt_size fmt_H)) with 65536; lia).
    change (Z.land 126 127) with 126 in H7F.
    pose proof (be_value_bytes 2 n) as Hv.
    rewrite Z.mod_small in Hv by (change (256 ^ Z.of_nat 2) with 65536; lia).
    pose proof (be_bytes_length 2 n) as Hl.
    change (fmt_size fmt_H) with 2%nat in Hlf.
    destruct (be_bytes 2 n) as [|e0 [|e1 [|]]]; try discriminate Hl.
    cbn [bind] in Hlf. injection Hlf as <-.
    cbn [app header_of]. rewrite H7F, H80, Hv. reflexivity.
  - destruct (lor_80_ok 127 ltac:(lia)) as (b & Eb & H80 & H7F & _).
    rewrite Eb, struct_pack_ok in Hlf
      by (change (256 ^ Z.of_nat (fmt_size fmt_Q)) with (2 ^ 64); lia).
    change (Z.land 127 127) with 127 in H7F.
    pose proof (be_value_bytes 8 n) as Hv.
    rewrite Z.mod_small in Hv
      by (change (256 ^ Z.of_nat 8) with (2 ^ 64); lia).
    pose proof (be_bytes_length 8 n) as Hl.
    change (fmt_size fmt_Q) with 8%nat in Hlf.
    destruct (be_bytes 8 n)
      as [|e0 [|e1 [|e2 [|e3 [|e4 [|e5 [|e6 [|e7 [|]]]]]]]]];
      try discriminate Hl.
    cbn [bind] in Hlf. injection Hlf as <-.
    cbn [app header_of]. rewrite H7F, H80, Hv. reflexivity.
Qed.

Lemma length_field_ok (n : Z) :
  0 <= n < 2 ^ 64 -> exists lf, length_field n = Ok lf.
Proof.
  intros Hn. unfold length_field.
  destruct (Z.leb_spec n 125); [|destruct (Z.leb_spec n 65535)].
  - destruct (lor_80_ok n ltac:(lia)) as (b & -> & _). now eexists.
  - destruct (lor_80_ok 126 ltac:(lia)) as (b & -> & _).
    rewrite struct_pack_ok
      by (change (256 ^ Z.of_nat (fmt_size fmt_H)) with 65536; lia).
    now eexists.
  - destruct (lor_80_ok 127 ltac:(lia)) as (b & -> & _).
    rewrite struct_pack_ok
      by (change (256 ^ Z.of_nat (fmt_size fmt_Q)) with (2 ^ 64); lia).
    now eexists.
Qed.

Lemma masking_key_at_eq (now_ms : Z) :
  masking_key_at now_ms = Ok (be_bytes 4 (now_ms mod 0xFFFFFFFF)).
Proof.
  unfold masking_key_at.
  pose proof (Z.mod_pos_bound now_ms 0xFFFFFFFF ltac:(lia)).
  apply (struct_pack_ok fmt_I).
  change (256 ^ Z.of_nat (fmt_size fmt_I)) with 0x100000000. lia.
Qed.

(** The frame [create_frame] returns: first byte, length field, 4-byte key
    taken from the clock, payload xor-ed with the key. *)
Lemma create_frame_ok (now_ms : Z) (payload : list byte) (opcode : Z)
  (mask : bool) :
  0 <= opcode < 256 ->
  len payload < 2 ^ 64 ->
  exists b0 lf masked,
    let key := be_bytes 4 (now_ms mod 0xFFFFFFFF) in
    create_frame now_ms payload opcode mask
    = Ok ((b0 :: lf ++ key) ++ masked)
    /\ to_byte (Z.lor 0x80 opcode) = Ok b0
    /\ length_field (len payload) = Ok lf
    /\ xor_loop key 0 payload = Ok masked
    /\ xor_loop key 0 masked = Ok payload
    /\ len masked = len payload.
Proof.
  intros Hop Hlen.
  destruct (lor_80_ok opcode Hop) as (b0 & Eb0 & _).
  destruct (length_field_ok (len payload)) as (lf & Elf);
    [pose proof (len_nonneg payload); lia|].
  destruct (xor_loop_involutive (be_bytes 4 (now_ms mod 0xFFFFFFFF))
              payload 0 (be_bytes_length 4 _)) as (masked & Em & Hl & Eu).
  exists b0, lf, masked. cbv zeta.
  unfold create_frame.
  rewrite Eb0, Elf, masking_key_at_eq. cbn [bind]. rewrite Em. cbn [bind].
  repeat split; try assumption.
  - cbn [app]. now rewrite <- app_assoc.
  - unfold len. now rewrite Hl.
Qed.

(** Decoding what [create_frame] wrote, whatever bytes follow it. *)
Lemma parse_created_frame (now_ms : Z) (payload : list byte) (opcode : Z)
  (mask : bool) (frame rest : list byte) :
  0 <= opcode < 16 ->
  create_frame now_ms payload opcode mask = Ok frame ->
  parse_frame (frame ++ rest)
  = Ok (Frame opcode payload (len payload) true (len frame)).
Proof.
  intros Hop Hc.
  assert (Hlen : len payload < 2 ^ 64).
  { unfold create_frame in Hc.
    destruct (to_byte (Z.lor 128 opcode)); [|discriminate].
    cbn [bind] in Hc. unfold length_field in Hc.
    destruct (Z.leb_spec (len payload) 125); [lia|].
    destruct (Z.leb_spec (len payload) 65535); [lia|].
    destruct (to_byte (Z.lor 128 127)); [|discriminate].
    cbn [bind] in Hc. unfold struct_pack in Hc.
    destruct (Z.ltb_spec (len payload) (256 ^ Z.of_nat (fmt_size fmt_Q)));
      [assumption|].
    rewrite andb_false_r in Hc. discriminate. }
  destruct (create_frame_ok now_ms payload opcode mask ltac:(lia) Hlen)
    as (b0 & lf & masked & Ec & Eb0 & Elf & Em & Eu & Hl).
  cbv zeta in *.
  set (key := be_bytes 4 (now_ms mod 0xFFFFFFFF)) in *.
  assert (Ef : frame = (b0 :: lf ++ key) ++ masked) by congruence.
  subst frame. clear Ec.
  destruct (lor_80_ok opcode ltac:(lia)) as (b0' & Eb0' & H80 & _ & H0F).
  rewrite Eb0 in Eb0'. injection Eb0' as <-.
  rewrite (land_0F_small opcode) in H0F by lia.
  pose proof (header_of_created b0 lf key (masked ++ rest) (len payload)
                ltac:(pose proof (len_nonneg payload); lia) Elf
                (be_bytes_length 4 _)) as Hh.
  rewrite H80, H0F in Hh. cbn [negb] in Hh.
  rewrite <- app_assoc.
  rewrite (parse_frame_masked (b0 :: lf ++ key) masked rest payload _ Hh);
    cbn [h_mask h_header_size h_payload_len h_masking_key h_opcode h_fin];
    try reflexivity; try assumption; try (symmetry; assumption).
  rewrite len_app, Hl. reflexivity.
Qed.

(** ** Claims about the frame codec *)

(** C1 (the code departs from the claim).  The claim wants frames of the
    server role unmasked.  [create_frame] has a [mask] argument and a
    docstring that says the payload is masked for client-to-server, but it
    never reads the argument: called with [mask=False] it returns the very
    frame it returns with [mask=True], whose second byte has the MASK bit
    0x80 set and which carries the 4-byte key; for [b"hello"] at clock
    0x01020304 these are the bytes shown. *)
Theorem create_frame_ignores_mask :
  (forall now_ms payload opcode,
      create_frame now_ms payload opcode false
      = create_frame now_ms payload opcode true)
  /\ create_frame 0x01020304 hello OPCODE_TEXT false
     = Ok [x81; x85; x01; x02; x03; x04; x69; x67; x6f; x68; x6e].
Proof.
  split; reflexivity.
Qed.

(** C2.  Round trip: for a payload of 0, 125, 126, 65535 or 65536 bytes and
    any of the six opcodes, [create_frame] returns a frame, whatever the
    [mask] argument and the clock, and [parse_frame] reads back the same
    opcode and payload with fin set. *)
Theorem roundtrip_boundary_lengths (now_ms : Z) (payload : list byte)
  (opcode : Z) (mask : bool) :
  In (len payload) [0; 125; 126; 65535; 65536] ->
  In opcode opcodes ->
  exists frame,
    create_frame now_ms payload opcode mask = Ok frame
    /\ parse_frame frame
       = Ok (Frame opcode payload (len payload) true (len frame)).
Proof.
  intros Hlen Hop.
  assert (Hop16 : 0 <= opcode < 16).
  { unfold opcodes, OPCODE_CONT, OPCODE_TEXT, OPCODE_BINARY, OPCODE_CLOSE,
      OPCODE_PING, OPCODE_PONG in Hop.
    cbn [In] in Hop. lia. }
  assert (Hl64 : len payload < 2 ^ 64) by (cbn [In] in Hlen; lia).
  destruct (create_frame_ok now_ms payload opcode mask ltac:(lia) Hl64)
    as (b0 & lf & masked & Ec & _).
  cbv zeta in Ec. eexists. split; [exact Ec|].
  rewrite <- (app_nil_r (_ ++ masked)) at 1.
  apply (parse_created_frame now_ms payload opcode mask _ [] Hop16 Ec).
Qed.

Lemma roundtrip_boundary_lengths_witness :
  exists frame,
    create_frame 1700000000000 (repeat x61 125) OPCODE_PING false = Ok frame
    /\ parse_frame frame
       = Ok (Frame OPCODE_PING (repeat x61 125) (len (repeat x61 125)) true
                   (len frame)).
Proof.
  apply (roundtrip_boundary_lengths 1700000000000 (repeat x61 125)
           OPCODE_PING false).
  - right; left; reflexivity.
  - unfold opcodes. do 4 right; left; reflexivity.
Defined.

(** C4.  The length field [create_frame] writes: a payload of at most 125
    bytes has its length in the low 7 bits of the second byte and no
    extension; up to 65535 bytes the low 7 bits are 126 and the next two
    bytes are the length, big-endian; above, the low 7 bits are 127 and
    the next eight bytes are the length, big-endian. *)
Theorem create_frame_length_field (now_ms : Z) (payload : list byte)
  (opcode : Z) (mask : bool) :
  0 <= opcode < 256 ->
  len payload < 2 ^ 64 ->
  exists b0 b1 ext rest,
    create_frame now_ms payload opcode mask = Ok (b0 :: b1 :: ext ++ rest)
    /\ (len payload <= 125 ->
        Z.land (byte_val b1) 0x7F = len payload /\ ext = [])
    /\ (125 < len payload <= 65535 ->
        Z.land (byte_val b1) 0x7F = 126
        /\ ext = be_bytes 2 (len payload) /\ be_value ext = len payload)
    /\ (65535 < len payload ->
        Z.land (byte_val b1) 0x7F = 127
        /\ ext = be_bytes 8 (len payload) /\ be_value ext = len payload).
Proof.
  intros Hop Hlen.
  pose proof (len_nonneg payload) as H0.
  destruct (create_frame_ok now_ms payload opcode mask Hop Hlen)
    as (b0 & lf & masked & Ec & _ & Elf & _).
  cbv zeta in Ec. rewrite Ec. clear Ec.
  unfold length_field in Elf.
  destruct (Z.leb_spec (len payload) 125);
    [|destruct (Z.leb_spec (len payload) 65535)].
  - destruct (lor_80_ok (len payload) ltac:(lia)) as (b & Eb & _ & H7F & _).
    rewrite Eb in Elf. cbn [bind] in Elf.
    assert (lf = [b]) by congruence. subst lf.
    rewrite (land_7F_small (len payload)) in H7F by lia.
    exists b0, b, [], (be_bytes 4 (now_ms mod 0xFFFFFFFF) ++ masked).
    split; [cbn [app]; rewrite <- ?app_assoc; reflexivity|].
    repeat split; try assumption; lia.
  - destruct (lor_80_ok 126 ltac:(lia)) as (b & Eb & _ & H7F & _).
    rewrite Eb, struct_pack_ok in Elf
      by (change (256 ^ Z.of_nat (fmt_size fmt_H)) with 65536; lia).
    cbn [bind] in Elf. change (fmt_size fmt_H) with 2%nat in Elf.
    assert (lf = b :: be_bytes 2 (len payload)) by congruence. subst lf.
    exists b0, b, (be_bytes 2 (len payload)),
      (be_bytes 4 (now_ms mod 0xFFFFFFFF) ++ masked).
    split; [cbn [app]; rewrite <- ?app_assoc; reflexivity|].
    repeat split; try assumption; try lia.
    rewrite be_value_bytes. apply Z.mod_small.
    change (256 ^ Z.of_nat 2) with 65536. lia.
  - destruct (lor_80_ok 127 ltac:(lia)) as (b & Eb & _ & H7F & _).
    rewrite Eb, struct_pack_ok in Elf
      by (change (256 ^ Z.of_nat (fmt_size fmt_Q)) with (2 ^ 64); lia).
    cbn [bind] in Elf. change (fmt_size fmt_Q) with 8%nat in Elf.
    assert (lf = b :: be_bytes 8 (len payload)) by congruence. subst lf.
    exists b0, b, (be_bytes 8 (len payload)),
      (be_bytes 4 (now_ms mod 0xFFFFFFFF) ++ masked).
    split; [cbn [app]; rewrite <- ?app_assoc; reflexivity|].
    repeat split; try assumption; try lia.
    rewrite be_value_bytes. apply Z.mod_small.
    change (256 ^ Z.of_nat 8) with (2 ^ 64). lia.
Qed.

Lemma create_frame_length_field_witness :
  exists b0 b1 ext rest,
    create_frame 0 hello OPCODE_TEXT true = Ok (b0 :: b1 :: ext ++ rest)
    /\ (len hello <= 125 ->
        Z.land (byte_val b1) 0x7F = len hello /\ ext = [])
    /\ (125 < len hello <= 65535 ->
        Z.land (byte_val b1) 0x7F = 126
        /\ ext = be_bytes 2 (len hello) /\ be_value ext = len hello)
    /\ (65535 < len hello ->
        Z.land (byte_val b1) 0x7F = 127
        /\ ext = be_bytes 8 (len hello) /\ be_value ext = len hello).
Proof.
  apply (create_frame_length_field 0 hello OPCODE_TEXT true).
  - unfold OPCODE_TEXT. lia.
  - vm_compute. reflexivity.
Defined.

(** C10.  [parse_frame] is total and stays inside the buffer: on every byte
    sequence it returns without raising; when it returns a frame, the
    header was read whole, the consumed count is header size plus declared
    length, lies between 2 and the length of the buffer, and the payload is
    exactly consumed minus header size bytes long. *)
Theorem parse_frame_total_in_bounds (data : list byte) :
  exists r,
    parse_frame data = Ok r
    /\ match r with
       | Incomplete => True
       | Frame opcode payload payload_len fin consumed =>
           exists h,
             parse_header data = Ok (Some h)
             /\ consumed = h_header_size h + h_payload_len h
             /\ 2 <= h_header_size h <= consumed
             /\ consumed <= len data
             /\ len payload = consumed - h_header_size h
             /\ payload_len = len payload
       end.
Proof.
  rewrite parse_frame_eq.
  destruct (header_of data) as [h|] eqn:Hh; [|now exists Incomplete].
  destruct (Z.ltb_spec (len data) (h_header_size h + h_payload_len h))
    as [Hlt|Hge]; [now exists Incomplete|].
  destruct (parse_frame_payload data h Hh Hge) as (payload & Ep & Hl).
  rewrite Ep. cbn [bind]. eexists. split; [reflexivity|].
  exists h. rewrite parse_header_eq, Hh.
  destruct (header_of_bounds data h Hh) as (Hs & _ & Hp & _).
  assert (2 <= h_header_size h) by (destruct (h_mask h); lia).
  repeat split; lia.
Qed.

(** ** Incomplete buffers *)

(** Extending a buffer does not change the header that was read from it,
    the masking key apart when the buffer ended inside it. *)
Lemma header_of_app (data more : list byte) (h : header) :
  header_of data = Some h ->
  exists h',
    header_of (data ++ more) = Some h'
    /\ h_header_size h' = h_header_size h
    /\ h_payload_len h' = h_payload_len h.
Proof.
  destruct data as [|b1 [|b2 tl]]; try discriminate.
  cbn [header_of app].
  destruct (Z.land (byte_val b2) 127 =? 126);
    [|destruct (Z.land (byte_val b2) 127 =? 127)].
  - destruct tl as [|e0 [|e1 rest]]; try discriminate.
    cbn [app].
    destruct (negb (Z.land (byte_val b2) 128 =? 0)); intros [= <-];
      eexists; repeat split.
  - destruct tl as [|e0 [|e1 [|e2 [|e3 [|e4 [|e5 [|e6 [|e7 rest]]]]]]]];
      try discriminate.
    cbn [app].
    destruct (negb (Z.land (byte_val b2) 128 =? 0)); intros [= <-];
      eexists; repeat split.
  - destruct (negb (Z.land (byte_val b2) 128 =? 0)); intros [= <-];
      eexists; repeat split.
Qed.

(** A buffer that stops before the end of a frame of [create_frame] is
    incomplete. *)
Lemma parse_frame_strict_prefix (now_ms : Z) (payload : list byte)
  (opcode : Z) (mask : bool) (frame pre post : list byte) :
  create_frame now_ms payload opcode mask = Ok frame ->
  frame = pre ++ post ->
  post <> [] ->
  parse_frame pre = Ok Incomplete.
Proof.
  intros Hc Hf Hpost.
  rewrite parse_frame_eq.
  destruct (header_of pre) as [h|] eqn:Hh; [|reflexivity].
  destruct (header_of_app pre post h Hh) as (h' & Hh' & Hs & Hp).
  rewrite <- Hf in Hh'.
  assert (Hfull : h_header_size h' + h_payload_len h' = len frame).
  { unfold create_frame in Hc.
    destruct (to_byte (Z.lor 128 opcode)) as [b0|]; [|discriminate].
    cbn [bind] in Hc.
    destruct (length_field (len payload)) as [lf|] eqn:Elf; [|discriminate].
    cbn [bind] in Hc. rewrite masking_key_at_eq in Hc. cbn [bind] in Hc.
    destruct (xor_loop_involutive (be_bytes 4 (now_ms mod 0xFFFFFFFF))
                payload 0 (be_bytes_length 4 _)) as (masked & Em & Hl & _).
    rewrite Em in Hc. cbn [bind] in Hc.
    set (key := be_bytes 4 (now_ms mod 0xFFFFFFFF)) in *.
    assert (Ef : frame = (b0 :: lf ++ key) ++ masked ++ [])
      by (rewrite app_nil_r; cbn [app] in *; rewrite <- app_assoc;
          congruence).
    assert (Hn : 0 <= len payload < 2 ^ 64).
    { split; [apply len_nonneg|].
      unfold length_field in Elf.
      destruct (Z.leb_spec (len payload) 125); [lia|].
      destruct (Z.leb_spec (len payload) 65535); [lia|].
      destruct (to_byte (Z.lor 128 127)); [|discriminate].
      cbn [bind] in Elf. unfold struct_pack in Elf.
      destruct (Z.ltb_spec (len payload)
                  (256 ^ Z.of_nat (fmt_size fmt_Q))); [assumption|].
      rewrite andb_false_r in Elf. discriminate. }
    pose proof (header_of_created b0 lf key (masked ++ []) (len payload)
                  Hn Elf (be_bytes_length 4 _)) as Hh2.
    rewrite <- Ef, Hh' in Hh2. injection Hh2 as ->.
    cbn [h_header_size h_payload_len].
    rewrite Ef, app_nil_r, (len_app (b0 :: lf ++ key) masked).
    unfold len. rewrite Hl. reflexivity. }
  rewrite <- Hs, <- Hp, Hfull, Hf, len_app.
  assert (0 < len post)
    by (destruct post; [congruence|rewrite len_cons;
                                    pose proof (len_nonneg post); lia]).
  destruct (Z.ltb_spec (len pre) (len pre + len post)); [reflexivity|lia].
Qed.

Lemma decode_accumulating_frame (now_ms : Z) (payload : list byte)
  (opcode : Z) (mask : bool) (frame : list byte) :
  0 <= opcode < 16 ->
  create_frame now_ms payload opcode mask = Ok frame ->
  forall chunks buffer,
    buffer ++ concat chunks = frame ->
    (length buffer < length frame)%nat ->
    decode_accumulating buffer chunks
    = Ok (Frame opcode payload (len payload) true (len frame)).
Proof.
  intros Hop Hc.
  induction chunks as [|data later IH]; intros buffer Hcat Hlt.
  - cbn [concat] in Hcat. rewrite app_nil_r in Hcat. subst. lia.
  - cbn [concat] in Hcat. rewrite app_assoc in Hcat.
    cbn [decode_accumulating].
    destruct (concat later) as [|x post] eqn:Epost.
    + rewrite app_nil_r in Hcat. rewrite Hcat.
      rewrite <- (app_nil_r frame) at 1.
      rewrite (parse_created_frame now_ms payload opcode mask frame []
                 Hop Hc).
      reflexivity.
    + rewrite (parse_frame_strict_prefix now_ms payload opcode mask frame
                 (buffer ++ data) (x :: post) Hc (eq_sym Hcat))
        by discriminate.
      cbn [bind]. apply IH.
      * exact Hcat.
      * rewrite <- Hcat, (length_app (buffer ++ data)). cbn [length]. lia.
Qed.

(** C3.  On every buffer [parse_frame] returns a frame, with consumed count
    header size plus declared length, exactly when the header can be read
    and the buffer holds that many bytes, and returns the incomplete result
    otherwise; so every strict prefix of a frame of [create_frame] is
    incomplete, and feeding the frame in pieces, accumulating while the
    result is incomplete, gives the frame that decoding it whole gives. *)
Theorem decode_incomplete_until_whole :
  (forall data,
      (exists h payload,
          parse_header data = Ok (Some h)
          /\ h_header_size h + h_payload_len h <= len data
          /\ parse_frame data
             = Ok (Frame (h_opcode h) payload (h_payload_len h) (h_fin h)
                         (h_header_size h + h_payload_len h)))
      \/ ((forall h, parse_header data = Ok (Some h) ->
                     len data < h_header_size h + h_payload_len h)
          /\ parse_frame data = Ok Incomplete))
  /\ (forall now_ms payload opcode mask frame n,
         create_frame now_ms payload opcode mask = Ok frame ->
         (n < length frame)%nat ->
         parse_frame (firstn n frame) = Ok Incomplete)
  /\ (forall now_ms payload opcode mask frame chunks,
         In opcode opcodes ->
         create_frame now_ms payload opcode mask = Ok frame ->
         concat chunks = frame ->
         decode_accumulating [] chunks = parse_frame frame
         /\ parse_frame frame
            = Ok (Frame opcode payload (len payload) true (len frame))).
Proof.
  split; [|split].
  - intros data. rewrite parse_frame_eq, parse_header_eq.
    destruct (header_of data) as [h|] eqn:Hh.
    + destruct (Z.ltb_spec (len data) (h_header_size h + h_payload_len h))
        as [Hlt|Hge].
      * right. split; [|reflexivity]. now intros h' [= <-].
      * left. destruct (parse_frame_payload data h Hh Hge)
          as (payload & Ep & _).
        exists h, payload. rewrite Ep. repeat split. exact Hge.
    + right. split; [discriminate|reflexivity].
  - intros now_ms payload opcode mask frame n Hc Hn.
    apply (parse_frame_strict_prefix now_ms payload opcode mask frame
             (firstn n frame) (skipn n frame) Hc).
    + symmetry. apply firstn_skipn.
    + intros E. apply (f_equal (@length byte)) in E.
      rewrite length_skipn in E. cbn [length] in E. lia.
  - intros now_ms payload opcode mask frame chunks Hop Hc Hcat.
    assert (Hop16 : 0 <= opcode < 16).
    { unfold opcodes, OPCODE_CONT, OPCODE_TEXT, OPCODE_BINARY, OPCODE_CLOSE,
        OPCODE_PING, OPCODE_PONG in Hop.
      cbn [In] in Hop. lia. }
    assert (Hwhole : parse_frame frame
                     = Ok (Frame opcode payload (len payload) true
                                 (len frame))).
    { rewrite <- (app_nil_r frame) at 1.
      apply (parse_created_frame now_ms payload opcode mask frame []
               Hop16 Hc). }
    split; [|exact Hwhole]. rewrite Hwhole.
    apply (decode_accumulating_frame now_ms payload opcode mask frame
             Hop16 Hc chunks []); [exact Hcat|].
    cbn [length]. destruct frame; [|cbn [length]; lia].
    rewrite parse_frame_eq in Hwhole. discriminate.
Qed.

Lemma decode_incomplete_until_whole_witness :
  parse_frame (firstn 7 [x81; x85; x01; x02; x03; x04; x69; x67; x6f; x68;
                         x6e]) = Ok Incomplete
  /\ decode_accumulating []
       [[x81]; [x85; x01; x02]; []; [x03; x04; x69; x67]; [x6f; x68; x6e]]
     = parse_frame [x81; x85; x01; x02; x03; x04; x69; x67; x6f; x68; x6e].
Proof.
  destruct decode_incomplete_until_whole as (_ & Hprefix & Hacc).
  split.
  - apply (Hprefix 0x01020304 hello OPCODE_TEXT true).
    + reflexivity.
    + cbn [length]. lia.
  - apply (Hacc 0x01020304 hello OPCODE_TEXT true).
    + unfold opcodes. right; left; reflexivity.
    + reflexivity.
    + reflexivity.
Defined.

(** ** The masking key and the clock *)

Lemma be_bytes_inj (n : nat) (v w : Z) :
  0 <= v < 256 ^ Z.of_nat n -> 0 <= w < 256 ^ Z.of_nat n ->
  be_bytes n v = be_bytes n w -> v = w.
Proof.
  intros Hv Hw E. apply (f_equal be_value) in E.
  rewrite !be_value_bytes, !Z.mod_small in E; assumption.
Qed.

(** C6 as stated fails: two runs that differ only in the clock, one
    millisecond apart, emit different frames. *)
Lemma masking_key_changes_with_clock :
  ~ (forall t1 t2 payload opcode mask,
        create_frame t1 payload opcode mask
        = create_frame t2 payload opcode mask).
Proof.
  intros H. specialize (H 0 1 hello OPCODE_TEXT true).
  vm_compute in H. discriminate H.
Qed.

(** C6, amended.  The masking key is the clock reading in milliseconds
    modulo 0xFFFFFFFF, written as four big-endian bytes; two runs of the
    encoder on the same payload and opcode emit the same frame exactly when
    their clock readings agree modulo 0xFFFFFFFF. *)
Theorem masking_key_is_clock (t1 t2 : Z) (payload : list byte) (opcode : Z)
  (mask : bool) :
  0 <= opcode < 256 ->
  len payload < 2 ^ 64 ->
  masking_key_at t1 = Ok (be_bytes 4 (t1 mod 0xFFFFFFFF))
  /\ (create_frame t1 payload opcode mask
      = create_frame t2 payload opcode mask
      <-> t1 mod 0xFFFFFFFF = t2 mod 0xFFFFFFFF).
Proof.
  intros Hop Hlen. split; [apply masking_key_at_eq|]. split.
  - intros E.
    destruct (create_frame_ok t1 payload opcode mask Hop Hlen)
      as (b0 & lf & m1 & E1 & Eb0 & Elf & _ & _ & Hl1).
    destruct (create_frame_ok t2 payload opcode mask Hop Hlen)
      as (b0' & lf' & m2 & E2 & Eb0' & Elf' & _ & _ & Hl2).
    cbv zeta in *.
    assert (b0' = b0) by congruence. assert (lf' = lf) by congruence.
    subst b0' lf'. rewrite E1, E2 in E.
    set (k1 := be_bytes 4 (t1 mod 0xFFFFFFFF)) in *.
    set (k2 := be_bytes 4 (t2 mod 0xFFFFFFFF)) in *.
    assert (E' : (b0 :: lf) ++ k1 ++ m1 = (b0 :: lf) ++ k2 ++ m2)
      by (cbn [app] in *; rewrite <- !app_assoc in E; congruence).
    apply app_inv_head in E'.
    assert (Ek : k1 = k2).
    { apply (f_equal (firstn 4)) in E'.
      rewrite !firstn_app in E'.
      unfold k1, k2 in E'. rewrite !be_bytes_length in E'.
      rewrite !firstn_all2 in E' by (rewrite be_bytes_length; lia).
      cbn [Nat.sub firstn] in E'. rewrite !app_nil_r in E'. exact E'. }
    pose proof (Z.mod_pos_bound t1 0xFFFFFFFF ltac:(lia)).
    pose proof (Z.mod_pos_bound t2 0xFFFFFFFF ltac:(lia)).
    apply (be_bytes_inj 4); [| |exact Ek];
      change (256 ^ Z.of_nat 4) with 0x100000000; lia.
  - intros E. unfold create_frame, masking_key_at. now rewrite E.
Qed.

Lemma masking_key_is_clock_witness :
  masking_key_at 5 = Ok (be_bytes 4 (5 mod 0xFFFFFFFF))
  /\ (create_frame 5 hello OPCODE_TEXT true
      = create_frame (5 + 0xFFFFFFFF) hello OPCODE_TEXT true
      <-> 5 mod 0xFFFFFFFF = (5 + 0xFFFFFFFF) mod 0xFFFFFFFF).
Proof.
  apply (masking_key_is_clock 5 (5 + 0xFFFFFFFF) hello OPCODE_TEXT true).
  - unfold OPCODE_TEXT. lia.
  - vm_compute. reflexivity.
Defined.

Example sha1_abc : sha1 (list_byte_of_string "abc") = hex_abc_sha1.
Proof. vm_compute. reflexivity. Qed.

Example b64encode_foobar :
  string_of_list_byte (b64encode (list_byte_of_string "fooba")) = "Zm9vYmE="%string.
Proof. vm_compute. reflexivity. Qed.

Local Open Scope string_scope.

Example split_crlf :
  split CRLF ("GET / HTTP/1.1" ++ CRLF ++ "a: b" ++ CRLF ++ CRLF)
  = ["GET / HTTP/1.1"; "a: b"; ""; ""].
Proof. reflexivity. Qed.

Example split_1_colon : split_1 ": " "Host: a: b" = ["Host"; "a: b"].
Proof. reflexivity. Qed.

Example lower_mixed : lower "Sec-WebSocket-Key[@`{" = "sec-websocket-key[@`{".
Proof. reflexivity. Qed.

Example accept_key_rfc :
  accept_key_of "dGhlIHNhbXBsZSBub25jZQ==" = "s3pPLMBiTxaQ9kYGzzhZRbK+xOo=".
Proof. vm_compute. reflexivity. Qed.

Example handshake_rfc :
  _handshake rfc_request fresh_socket
  = Ok (true,
        mk_transport false true
          [list_byte_of_string
             (response_for "s3pPLMBiTxaQ9kYGzzhZRbK+xOo=")]).
Proof. vm_compute. reflexivity. Qed.

(** ** The handshake *)








Example handshake_without_upgrade :
  _handshake request_without_upgrade fresh_socket = Ok (false, fresh_socket).
Proof. reflexivity. Qed.

Example handshake_without_key :
  _handshake request_without_key fresh_socket = Ok (false, fresh_socket).
Proof. reflexivity. Qed.

(** C5.  The accept key is base64(SHA-1(client key + GUID)): whenever
    [_handshake] returns True it has sent exactly one message, the 101
    response whose Sec-WebSocket-Accept value is that function of the value
    of the request's Sec-WebSocket-Key header; for the client key
    dGhlIHNhbXBsZSBub25jZQ== the accept key is
    s3pPLMBiTxaQ9kYGzzhZRbK+xOo=, and that is what the handshake sends for
    the request of RFC 6455. *)
Theorem handshake_accept_key :
  GUID = "258EAFA5-E914-47DA-95CA-C5AB0DC85B11"
  /\ (forall data t t',
         _handshake data t = Ok (true, t') ->
         exists headers client_key,
           read_headers (tl (split CRLF data)) [] = Ok headers
           /\ dict_find "sec-websocket-key" headers = Some client_key
           /\ t_sent t'
              = (t_sent t
                 ++ [list_byte_of_string
                       (response_for
                          (string_of_list_byte
                             (b64encode
                                (sha1 (list_byte_of_string
                                         (client_key ++ GUID))))))])%list)
  /\ accept_key_of "dGhlIHNhbXBsZSBub25jZQ=="
     = "s3pPLMBiTxaQ9kYGzzhZRbK+xOo="
  /\ _handshake rfc_request fresh_socket
     = Ok (true,
           mk_transport false true
             [list_byte_of_string
                (response_for "s3pPLMBiTxaQ9kYGzzhZRbK+xOo=")]).
Proof.
  split; [reflexivity|]. split; [|split; vm_compute; reflexivity].
  intros data t t' H. unfold _handshake in H.
  destruct (startswith data "GET"); [|discriminate].
  cbn [negb] in H.
  destruct (read_headers (tl (split CRLF data)) []) as [d|]; [|discriminate].
  cbn [bind] in H. unfold dict_in, dict_get in H.
  destruct (dict_find "upgrade" d) as [u|]; [|discriminate].
  cbn [negb bind] in H.
  destruct (str_in "websocket" (lower u)); [|discriminate].
  cbn [negb] in H.
  destruct (dict_find "connection" d) as [c|]; [|discriminate].
  cbn [negb bind] in H.
  destruct (str_in "upgrade" (lower c)); [|discriminate].
  cbn [negb] in H.
  destruct (dict_find "sec-websocket-key" d) as [k|] eqn:Ek; [|discriminate].
  cbn [negb bind] in H. cbv zeta in H.
  exists d, k. split; [reflexivity|]. split; [exact Ek|].
  unfold sock_send in H.
  destruct (negb (t_closed t) && t_up t); [|discriminate].
  cbn [bind] in H. injection H as <-. reflexivity.
Qed.

Lemma handshake_accept_key_witness :
  exists headers client_key,
    read_headers (tl (split CRLF rfc_request)) [] = Ok headers
    /\ dict_find "sec-websocket-key" headers = Some client_key
    /\ [list_byte_of_string (response_for "s3pPLMBiTxaQ9kYGzzhZRbK+xOo=")]
       = ([] ++ [list_byte_of_string
                   (response_for
                      (string_of_list_byte
                         (b64encode
                            (sha1 (list_byte_of_string
                                     (client_key ++ GUID))))))])%list.
Proof.
  destruct handshake_accept_key as (_ & H & _ & Hrfc).
  apply (H rfc_request fresh_socket _ Hrfc).
Defined.

Local Close Scope string_scope.

Example utf8_valid_examples :
  utf8_valid hello = true
  /\ utf8_valid [xc3; xa9] = true
  /\ utf8_valid [xe2; x82; xac] = true
  /\ utf8_valid [xf0; x9f; x98; x80] = true
  /\ utf8_valid [xc0; x80] = false
  /\ utf8_valid [xed; xa0; x80] = false
  /\ utf8_valid [xff] = false
  /\ utf8_valid [xe2; x82] = false.
Proof. repeat split. Qed.

(** ** Registry and broadcast: when every write succeeds *)

Lemma sock_send_writable (t : transport) (f : list byte) :
  writable t -> sock_send t f = Ok (pushes [f] t).
Proof.
  intros [Hc Hu]. unfold sock_send, pushes. now rewrite Hc, Hu.
Qed.

Lemma sock_send_inv (t t' : transport) (f : list byte) :
  sock_send t f = Ok t' -> writable t /\ t' = pushes [f] t.
Proof.
  unfold sock_send, writable, pushes.
  destruct (t_closed t), (t_up t); cbn; try discriminate.
  intros [= <-]. repeat split.
Qed.

Lemma sock_send_fails (t : transport) (f : list byte) (e : exn) :
  sock_send t f = Raise e -> e = OSError /\ ~ writable t.
Proof.
  unfold sock_send, writable.
  destruct (t_closed t), (t_up t); cbn; try discriminate;
    intros [= <-]; split; try reflexivity; intros [? ?]; discriminate.
Qed.

Lemma pushes_nil (t : transport) : pushes [] t = t.
Proof. destruct t. unfold pushes. cbn. now rewrite app_nil_r. Qed.

Lemma pushes_pushes (fs gs : list (list byte)) (t : transport) :
  pushes gs (pushes fs t) = pushes (fs ++ gs) t.
Proof. unfold pushes. cbn. now rewrite app_assoc. Qed.

Lemma writable_pushes (fs : list (list byte)) (t : transport) :
  writable (pushes fs t) <-> writable t.
Proof. reflexivity. Qed.

(** When the sockets it writes to are all writable, the loop writes the
    frame once per occurrence of a socket among its targets, the sender
    apart, and does nothing else. *)
Lemma broadcast_loop_writable
  (cc : server -> sock -> result server) (frame : list byte)
  (sender_sock : option sock) (targets : list sock) (st : server) :
  (forall s, In s targets -> is_sender sender_sock s = false ->
             writable (net st s)) ->
  exists st',
    broadcast_loop cc frame sender_sock targets st = Ok st'
    /\ clients st' = clients st
    /\ ticks st' = ticks st
    /\ forall x,
        net st' x
        = pushes (repeat frame (reached sender_sock targets x)) (net st x).
Proof.
  revert st. induction targets as [|s rest IH]; intros st Hw.
  - exists st. repeat split. intros x. unfold reached.
    destruct (is_sender sender_sock x); cbn; now rewrite pushes_nil.
  - cbn [broadcast_loop].
    destruct (is_sender sender_sock s) eqn:Es.
    + destruct (IH st) as (st' & E & Hc & Ht & Hn).
      { intros s' Hin. apply Hw. now right. }
      exists st'. repeat split; try assumption.
      intros x. rewrite Hn. unfold reached.
      destruct (is_sender sender_sock x) eqn:Ex; [reflexivity|].
      cbn [count_occ]. destruct (Nat.eq_dec s x) as [->|]; [congruence|].
      reflexivity.
    + rewrite (sock_send_writable (net st s) frame)
        by (apply Hw; [now left|assumption]).
      destruct (IH (net_set st s (pushes [frame] (net st s))))
        as (st' & E & Hc & Ht & Hn).
      { intros s' Hin Hs'. cbn [net_set net].
        destruct (Nat.eqb s' s) eqn:E'.
        - apply Nat.eqb_eq in E'. subst s'. apply writable_pushes.
          apply Hw; [now left|assumption].
        - apply Hw; [now right|assumption]. }
      exists st'. repeat split; try assumption.
      intros x. rewrite Hn. cbn [net_set net]. unfold reached.
      destruct (is_sender sender_sock x) eqn:Ex.
      * destruct (Nat.eqb x s) eqn:E'; [|reflexivity].
        apply Nat.eqb_eq in E'. congruence.
      * cbn [count_occ]. destruct (Nat.eq_dec s x) as [->|Hne].
        -- rewrite Nat.eqb_refl, pushes_pushes. reflexivity.
        -- destruct (Nat.eqb x s) eqn:E'; [|reflexivity].
           apply Nat.eqb_eq in E'. congruence.
Qed.

Lemma clients_find_In (s : sock) (cl : list (sock * string)) :
  In s (map fst cl) <-> clients_find s cl <> None.
Proof.
  induction cl as [|[s' n] rest IH]; cbn [map fst In clients_find].
  - split; [intros []|congruence].
  - destruct (Nat.eqb s' s) eqn:E.
    + apply Nat.eqb_eq in E. split; [discriminate|now left].
    + apply Nat.eqb_neq in E. rewrite <- IH. split; [intros [?|?]|]; tauto.
Qed.

Lemma clients_pop_In (s x : sock) (cl : list (sock * string)) :
  In x (map fst (clients_pop s cl)) <-> In x (map fst cl) /\ x <> s.
Proof.
  unfold clients_pop. rewrite !in_map_iff. split.
  - intros ([x' n] & <- & Hin). apply filter_In in Hin as [Hin Hne].
    cbn [fst] in *. apply negb_true_iff, Nat.eqb_neq in Hne.
    split; [|assumption]. now exists (x', n).
  - intros (([x' n] & <- & Hin) & Hne). exists (x', n). split; [reflexivity|].
    apply filter_In. split; [assumption|].
    cbn [fst] in *. now apply negb_true_iff, Nat.eqb_neq.
Qed.

Lemma clients_pop_find (s : sock) (cl : list (sock * string)) :
  clients_find s (clients_pop s cl) = None.
Proof.
  destruct (clients_find s (clients_pop s cl)) eqn:E; [|reflexivity].
  assert (H : In s (map fst (clients_pop s cl)))
    by (apply clients_find_In; congruence).
  apply clients_pop_In in H. tauto.
Qed.

Lemma clients_pop_NoDup (s : sock) (cl : list (sock * string)) :
  NoDup (map fst cl) -> NoDup (map fst (clients_pop s cl)).
Proof.
  induction cl as [|[s' n] rest IH]; intros H; [constructor|].
  cbn [map fst] in H. inversion H as [|? ? Hnin Hnd]; subst.
  unfold clients_pop. cbn [filter fst].
  destruct (negb (Nat.eqb s' s)).
  - cbn [map fst]. constructor; [|now apply IH].
    intros Hin. apply Hnin. now apply (clients_pop_In s s' rest).
  - now apply IH.
Qed.

Lemma count_occ_NoDup (l : list sock) (x : sock) :
  NoDup l -> In x l -> count_occ Nat.eq_dec l x = 1%nat.
Proof.
  intros Hnd Hin.
  pose proof (proj1 (NoDup_count_occ Nat.eq_dec l) Hnd x).
  pose proof (proj1 (count_occ_In Nat.eq_dec l x) Hin). lia.
Qed.

Section HubProofs.

Variable clock : nat -> Z.

Lemma new_frame_ok (st : server) (payload : list byte) (opcode : Z) :
  0 <= opcode < 16 ->
  len payload < 2 ^ 64 ->
  exists frame,
    create_frame (clock (ticks st)) payload opcode true = Ok frame
    /\ new_frame clock st payload opcode
       = Ok (frame, mk_server (clients st) (net st) (S (ticks st)))
    /\ parse_frame frame
       = Ok (Frame opcode payload (len payload) true (len frame)).
Proof.
  intros Hop Hlen.
  destruct (create_frame_ok (clock (ticks st)) payload opcode true
              ltac:(lia) Hlen) as (b0 & lf & masked & Ec & _).
  cbv zeta in Ec. eexists. split; [exact Ec|]. split.
  - unfold new_frame. rewrite Ec. reflexivity.
  - rewrite <- (app_nil_r (_ ++ masked)%list) at 1.
    apply (parse_created_frame _ payload opcode true _ [] Hop Ec).
Qed.

(** [close_client] on a socket that is not registered does nothing. *)
Lemma close_client_absent (depth : nat) (st : server) (s : sock) :
  clients_find s (clients st) = None ->
  close_client clock (S depth) st s = Ok st.
Proof.
  intros H. cbn [close_client]. now rewrite H.
Qed.

(** [close_client] on a registered socket when the sockets of the other
    registered clients are writable. *)
Lemma close_client_writable (depth : nat) (st : server) (a : sock)
  (name : string) :
  clients_find a (clients st) = Some name ->
  NoDup (map fst (clients st)) ->
  (forall s, In s (map fst (clients st)) -> s <> a -> writable (net st s)) ->
  len (list_byte_of_string (leave_notice name)) < 2 ^ 64 ->
  exists close_frame notice st',
    create_frame (clock (ticks st)) [] OPCODE_CLOSE true = Ok close_frame
    /\ create_frame (clock (S (ticks st)))
         (list_byte_of_string (leave_notice name)) OPCODE_TEXT true
       = Ok notice
    /\ close_client clock (S depth) st a = Ok st'
    /\ clients st' = clients_pop a (clients st)
    /\ ticks st' = S (S (ticks st))
    /\ (forall s, In s (map fst (clients st')) ->
                  net st' s = pushes [notice] (net st s))
    /\ (forall s, ~ In s (map fst (clients st')) -> s <> a ->
                  net st' s = net st s)
    /\ t_sent (net st' a)
       = (t_sent (net st a)
          ++ (if negb (t_closed (net st a)) && t_up (net st a)
              then [close_frame] else []))%list.
Proof.
  intros Hfind Hnd Hw Hshort.
  set (st1 := mk_server (clients_pop a (clients st)) (net st) (ticks st)).
  destruct (new_frame_ok st1 [] OPCODE_CLOSE ltac:(unfold OPCODE_CLOSE; lia)
              ltac:(cbn; lia)) as (close_frame & Ecf & Enf1 & _).
  set (st2 := match sock_send (net st a) close_frame with
              | Ok t => net_set (mk_server (clients st1) (net st1)
                                           (S (ticks st1))) a (sock_close t)
              | Raise _ => mk_server (clients st1) (net st1) (S (ticks st1))
              end).
  assert (Hst2 : clients st2 = clients_pop a (clients st)
                 /\ ticks st2 = S (ticks st)
                 /\ (forall s, s <> a -> net st2 s = net st s)
                 /\ t_sent (net st2 a)
                    = (t_sent (net st a)
                       ++ (if negb (t_closed (net st a)) && t_up (net st a)
                           then [close_frame] else []))%list).
  { unfold st2, sock_send.
    destruct (negb (t_closed (net st a)) && t_up (net st a));
      cbn [clients ticks net net_set st1]; repeat split.
    - intros s Hs. apply Nat.eqb_neq in Hs. now rewrite Hs.
    - now rewrite Nat.eqb_refl.
    - now rewrite app_nil_r. }
  destruct Hst2 as (Hc2 & Ht2 & Hn2 & Ha2).
  destruct (new_frame_ok st2 (list_byte_of_string (leave_notice name))
              OPCODE_TEXT ltac:(unfold OPCODE_TEXT; lia) Hshort)
    as (notice & Enot & Enf2 & _).
  rewrite Ht2 in Enot.
  set (st3 := mk_server (clients st2) (net st2) (S (ticks st2))) in *.
  destruct (broadcast_loop_writable (close_client clock depth) notice None
              (map fst (clients st3)) st3) as (st' & El & Hc' & Ht' & Hn').
  { intros s Hin _. cbn [st3 clients net] in *. rewrite Hc2 in Hin.
    apply clients_pop_In in Hin as [Hin Hne].
    rewrite (Hn2 s Hne). now apply Hw. }
  exists close_frame, notice, st'.
  split; [exact Ecf|]. split; [exact Enot|].
  assert (Hkeys : forall s, In s (map fst (clients st')) <->
                            In s (map fst (clients st)) /\ s <> a).
  { intros s. rewrite Hc'. cbn [st3 clients]. rewrite Hc2.
    apply clients_pop_In. }
  assert (Hnd3 : NoDup (map fst (clients st3))).
  { cbn [st3 clients]. rewrite Hc2. now apply clients_pop_NoDup. }
  split; [|repeat split].
  - transitivity
      (fs <- new_frame clock st2 (list_byte_of_string (leave_notice name))
               OPCODE_TEXT ;;
       let '(frame, st0) := fs in
       broadcast_loop (close_client clock depth) frame None
                      (map fst (clients st0)) st0).
    + cbn [close_client]. rewrite Hfind. fold st1. rewrite Enf1.
      reflexivity.
    + rewrite Enf2. cbn [bind]. exact El.
  - rewrite Hc'. cbn [st3 clients]. exact Hc2.
  - rewrite Ht'. cbn [st3 ticks]. now rewrite Ht2.
  - intros s Hin. rewrite Hn'. unfold reached. cbn [is_sender].
    rewrite count_occ_NoDup; [|exact Hnd3|now rewrite <- Hc'].
    cbn [repeat st3 net]. apply Hkeys in Hin as [_ Hne].
    now rewrite (Hn2 s Hne).
  - intros s Hnin Hne. rewrite Hn'. unfold reached. cbn [is_sender].
    rewrite (proj1 (count_occ_not_In Nat.eq_dec _ s));
      [|now rewrite <- Hc'].
    cbn [repeat st3 net]. rewrite pushes_nil. exact (Hn2 s Hne).
  - rewrite Hn'. unfold reached. cbn [is_sender].
    rewrite (proj1 (count_occ_not_In Nat.eq_dec _ a)).
    + cbn [repeat st3 net]. rewrite pushes_nil. exact Ha2.
    + rewrite <- Hc'. intros Hin. apply Hkeys in Hin. tauto.
Qed.

End HubProofs.

(** ** Registry and broadcast: when writes may fail *)

Lemma clients_find_Some_In (s : sock) (cl : list (sock * string))
  (name : string) :
  clients_find s cl = Some name -> In (s, name) cl.
Proof.
  induction cl as [|[s' n] rest IH]; cbn [clients_find]; [discriminate|].
  destruct (Nat.eqb s' s) eqn:E.
  - apply Nat.eqb_eq in E. intros [= <-]. subst. now left.
  - intros H. right. now apply IH.
Qed.

Lemma clients_find_incl (s : sock) (cl cl' : list (sock * string)) :
  (forall p, In p cl' -> In p cl) ->
  clients_find s cl = None -> clients_find s cl' = None.
Proof.
  intros Hincl Hnone.
  destruct (clients_find s cl') as [n|] eqn:E; [|reflexivity].
  apply clients_find_Some_In, Hincl in E.
  assert (In s (map fst cl)) by (apply in_map_iff; now exists (s, n)).
  apply clients_find_In in H. congruence.
Qed.

Lemma clients_pop_incl (s : sock) (cl : list (sock * string))
  (p : sock * string) :
  In p (clients_pop s cl) <-> In p cl /\ fst p <> s.
Proof.
  unfold clients_pop. rewrite filter_In, negb_true_iff, Nat.eqb_neq.
  reflexivity.
Qed.

Lemma clients_pop_length (s : sock) (cl : list (sock * string))
  (name : string) :
  In (s, name) cl -> (length (clients_pop s cl) < length cl)%nat.
Proof.
  induction cl as [|[s' n] rest IH]; intros Hin; [destruct Hin|].
  unfold clients_pop. cbn [filter fst length].
  destruct (Nat.eqb s' s) eqn:E; cbn [negb].
  - pose proof (filter_length_le
                  (fun p : sock * string => negb (Nat.eqb (fst p) s)) rest).
    unfold sock in *. lia.
  - destruct Hin as [Hin|Hin].
    + injection Hin as -> ->. rewrite Nat.eqb_refl in E. discriminate.
    + cbn [length]. apply IH in Hin. unfold clients_pop in Hin. lia.
Qed.

Lemma writable_flags (t t' : transport) :
  t_up t' = t_up t -> t_closed t' = t_closed t ->
  writable t -> writable t'.
Proof. unfold writable. intros -> ->. tauto. Qed.

Section HubLoop.

Variable clock : nat -> Z.

Lemma broadcast_loop_spreads
  (cc : server -> sock -> result server) (bound : nat) (frame : list byte)
  (sender_sock : option sock) :
  (forall st1 s,
      (length (clients st1) <= bound)%nat ->
      names_short (clients st1) ->
      exists st2, cc st1 s = Ok st2 /\ closes clock s st1 st2) ->
  forall targets st,
    (length (clients st) <= bound)%nat ->
    names_short (clients st) ->
    exists st',
      broadcast_loop cc frame sender_sock targets st = Ok st'
      /\ spreads clock frame sender_sock targets st st'.
Proof.
  intros Hcc. induction targets as [|s rest IH]; intros st Hlen Hshort.
  - exists st. split; [reflexivity|]. unfold spreads.
    repeat split; try tauto; try lia.
    intros x. exists []. rewrite app_nil_r.
    repeat split; try constructor. intros [].
  - cbn [broadcast_loop].
    destruct (is_sender sender_sock s) eqn:Es.
    + destruct (IH st Hlen Hshort) as (st' & E & H1 & H2 & H3 & H4 & H5).
      exists st'. split; [exact E|]. unfold spreads.
      repeat split; try assumption; try apply H3.
      intros x. destruct (H5 x) as (new & En & Ha & Hb & Hc).
      exists new. repeat split; try assumption.
      intros [->|Hin] Hx Hw; [congruence|now apply Hc].
    + destruct (sock_send (net st s) frame) as [t|e] eqn:Esend.
      * apply sock_send_inv in Esend as [Hws ->].
        set (st1 := net_set st s (pushes [frame] (net st s))).
        destruct (IH st1 Hlen Hshort)
          as (st' & E & H1 & H2 & H3 & H4 & H5).
        exists st'. split; [exact E|]. unfold spreads.
        assert (Hflags : forall x, t_up (net st1 x) = t_up (net st x)
                                   /\ t_closed (net st1 x)
                                      = t_closed (net st x)).
        { intros x. cbn [st1 net_set net].
          destruct (Nat.eqb x s) eqn:E'; [|tauto].
          apply Nat.eqb_eq in E'. subst x. split; reflexivity. }
        repeat split; try assumption.
        -- rewrite (proj1 (H3 x)). apply Hflags.
        -- rewrite (proj2 (H3 x)). apply Hflags.
        -- intros x n Hw Hin. apply H4; [|exact Hin].
           apply (writable_flags (net st x)); try apply Hflags. exact Hw.
        -- intros x. destruct (H5 x) as (new & En & Ha & Hb & Hc).
           destruct (Nat.eq_dec x s) as [->|Hne].
           ++ exists (frame :: new). rewrite En.
              cbn [st1 net_set net]. rewrite Nat.eqb_refl.
              cbn [pushes t_sent]. rewrite <- app_assoc.
              repeat split.
              ** constructor; [now left|exact Ha].
              ** congruence.
              ** intros; now left.
           ++ exists new. rewrite En. cbn [st1 net_set net].
              apply Nat.eqb_neq in Hne. rewrite Hne.
              repeat split; try assumption.
              intros [E'|Hin] Hx Hw.
              ** apply Nat.eqb_neq in Hne. congruence.
              ** apply Hc; try assumption.
                 apply (writable_flags (net st x)); try apply Hflags.
                 exact Hw.
      * apply sock_send_fails in Esend as [-> Hnw].
        destruct (Hcc st s Hlen Hshort)
          as (st1 & Ecc & C1 & C2 & C3 & C4 & C5 & C6 & C7).
        rewrite Ecc. cbn [bind].
        assert (Hshort1 : names_short (clients st1)).
        { intros x n Hin. apply (Hshort x n). now apply C1. }
        destruct (IH st1 ltac:(lia) Hshort1)
          as (st' & E & H1 & H2 & H3 & H4 & H5).
        exists st'. split; [exact E|]. unfold spreads.
        assert (Hflags : forall x, t_up (net st1 x) = t_up (net st x)
                                   /\ t_closed (net st1 x)
                                      = t_closed (net st x)).
        { intros x. split; [apply C4|apply C5; now right]. }
        repeat split.
        -- intros p Hp. now apply C1, H1.
        -- lia.
        -- rewrite (proj1 (H3 x)). apply Hflags.
        -- rewrite (proj2 (H3 x)). apply Hflags.
        -- intros x n Hw Hin.
           assert (Hne : x <> s) by (intros ->; contradiction).
           apply H4.
           ++ apply (writable_flags (net st x)); try apply Hflags.
              exact Hw.
           ++ now apply C6.
        -- intros x. destruct (H5 x) as (new & En & Ha & Hb & Hc).
           destruct (C7 x) as (new1 & En1 & Ha1).
           exists (new1 ++ new). rewrite En, En1, app_assoc.
           repeat split.
           ++ apply Forall_app. split; [|exact Ha].
              eapply Forall_impl; [|exact Ha1]. cbv beta. tauto.
           ++ intros Hx. apply Forall_app. split; [exact Ha1|now apply Hb].
           ++ intros [E'|Hin] Hx Hw; [subst; contradiction|].
              apply in_or_app. right. apply Hc; try assumption.
              apply (writable_flags (net st x)); try apply Hflags.
              exact Hw.
Qed.

End HubLoop.

Section HubTotal.

Variable clock : nat -> Z.

Lemma control_close (t : nat) (f : list byte) :
  create_frame (clock t) [] OPCODE_CLOSE true = Ok f ->
  control_frame clock f.
Proof. intros H. exists t. now left. Qed.

Lemma control_notice (t : nat) (name : string) (f : list byte) :
  create_frame (clock t) (list_byte_of_string (leave_notice name))
               OPCODE_TEXT true = Ok f ->
  control_frame clock f.
Proof. intros H. exists t. right. now exists name. Qed.

(** With room for one nested call per registered client, [close_client]
    returns, and the socket it was called on is no longer registered. *)
Lemma close_client_closes (depth : nat) :
  forall st c,
    (length (clients st) < depth)%nat ->
    names_short (clients st) ->
    exists st', close_client clock depth st c = Ok st' /\ closes clock c st st'.
Proof.
  induction depth as [|d IH]; intros st c Hlen Hshort; [lia|].
  cbn [close_client].
  destruct (clients_find c (clients st)) as [name|] eqn:Hfind.
  2:{ exists st. split; [reflexivity|]. unfold closes.
      repeat split; try tauto; try lia.
      intros x. exists []. rewrite app_nil_r. split; [reflexivity|constructor]. }
  pose proof (clients_find_Some_In _ _ _ Hfind) as Hin.
  set (st1 := mk_server (clients_pop c (clients st)) (net st) (ticks st)).
  destruct (new_frame_ok clock st1 [] OPCODE_CLOSE
              ltac:(unfold OPCODE_CLOSE; lia) ltac:(cbn; lia))
    as (close_frame & Ecf & Enf1 & _).
  rewrite Enf1. cbn [bind].
  set (st2 := match sock_send (net st c) close_frame with
              | Ok t => net_set (mk_server (clients st1) (net st1)
                                           (S (ticks st1))) c (sock_close t)
              | Raise _ => mk_server (clients st1) (net st1) (S (ticks st1))
              end).
  assert (Hst2 : clients st2 = clients_pop c (clients st)
                 /\ (forall x, t_up (net st2 x) = t_up (net st x))
                 /\ (forall x, x <> c \/ ~ writable (net st c) ->
                               t_closed (net st2 x) = t_closed (net st x))
                 /\ (forall x, x <> c -> net st2 x = net st x)
                 /\ (forall x, exists new,
                        t_sent (net st2 x) = t_sent (net st x) ++ new
                        /\ Forall (control_frame clock) new)).
  { unfold st2.
    destruct (sock_send (net st c) close_frame) as [t|e] eqn:Es.
    - apply sock_send_inv in Es as [Hw ->].
      cbn [clients net net_set st1]. repeat split.
      + intros x. destruct (Nat.eqb x c) eqn:E; [|reflexivity].
        apply Nat.eqb_eq in E. now subst.
      + intros x [Hne|Hnw]; [|contradiction].
        apply Nat.eqb_neq in Hne. now rewrite Hne.
      + intros x Hne. apply Nat.eqb_neq in Hne. now rewrite Hne.
      + intros x. destruct (Nat.eqb x c) eqn:E.
        * apply Nat.eqb_eq in E. subst x. exists [close_frame].
          split; [reflexivity|]. constructor; [|constructor].
          exact (control_close _ _ Ecf).
        * exists []. rewrite app_nil_r. split; [reflexivity|constructor].
    - cbn [clients net st1]. repeat split.
      intros x. exists []. rewrite app_nil_r. split; [reflexivity|constructor]. }
  destruct Hst2 as (Hc2 & Hu2 & Hcl2 & Hn2 & Hs2).
  assert (Hshort2 : names_short (clients st2)).
  { intros x n Hx. rewrite Hc2 in Hx. apply clients_pop_incl in Hx.
    apply (Hshort x n). tauto. }
  destruct (new_frame_ok clock st2 (list_byte_of_string (leave_notice name))
              OPCODE_TEXT ltac:(unfold OPCODE_TEXT; lia)
              (Hshort c name Hin)) as (notice & Enot & Enf2 & _).
  set (st3 := mk_server (clients st2) (net st2) (S (ticks st2))) in *.
  assert (Hlen3 : (length (clients st3) < d)%nat).
  { cbn [st3 clients]. rewrite Hc2.
    pose proof (clients_pop_length c (clients st) name Hin). lia. }
  destruct (broadcast_loop_spreads clock (close_client clock d)
              (length (clients st3)) notice None
              ltac:(intros st' s' Hl Hs; apply IH; [lia|exact Hs])
              (map fst (clients st3)) st3 (le_n _) Hshort2)
    as (st' & El & H1 & H2 & H3 & H4 & H5).
  exists st'. split.
  - transitivity
      (fs <- new_frame clock st2 (list_byte_of_string (leave_notice name))
               OPCODE_TEXT ;;
       let '(frame, st0) := fs in
       broadcast_loop (close_client clock d) frame None
                      (map fst (clients st0)) st0); [reflexivity|].
    rewrite Enf2. cbn [bind]. exact El.
  - unfold closes. repeat split.
    + intros p Hp. apply H1 in Hp. cbn [st3 clients] in Hp.
      rewrite Hc2 in Hp. apply clients_pop_incl in Hp. tauto.
    + apply (clients_find_incl c (clients_pop c (clients st))).
      * intros p Hp. apply H1 in Hp. cbn [st3 clients] in Hp.
        now rewrite Hc2 in Hp.
      * apply clients_pop_find.
    + pose proof (clients_pop_length c (clients st) name Hin).
      cbn [st3 clients] in H2. rewrite Hc2 in H2. unfold sock in *. lia.
    + intros x. rewrite (proj1 (H3 x)). apply Hu2.
    + intros x Hx. rewrite (proj2 (H3 x)). now apply Hcl2.
    + intros x n Hne Hw Hx. apply H4.
      * cbn [st3 net]. now rewrite (Hn2 x Hne).
      * cbn [st3 clients]. rewrite Hc2. apply clients_pop_incl.
        split; [exact Hx|exact Hne].
    + intros x. destruct (H5 x) as (new & En & Ha & _).
      destruct (Hs2 x) as (new2 & En2 & Ha2).
      exists (new2 ++ new). cbn [st3 net] in En.
      rewrite En, En2, app_assoc. split; [reflexivity|].
      apply Forall_app. split; [exact Ha2|].
      eapply Forall_impl; [|exact Ha]. cbv beta.
      intros g [->|Hg]; [exact (control_notice _ _ _ Enot)|exact Hg].
Qed.

(** [broadcast] returns when there is room for one nested [close_client]
    per registered client; a registered socket other than the sender that
    is writable is still registered afterwards and has been sent the frame;
    the sender has been sent nothing but what the close paths of other
    clients send. *)
Lemma broadcast_spreads (depth : nat) (st : server) (message : string)
  (sender_sock : option sock) :
  (length (clients st) < depth)%nat ->
  names_short (clients st) ->
  len (list_byte_of_string message) < 2 ^ 64 ->
  exists frame st',
    create_frame (clock (ticks st)) (list_byte_of_string message)
                 OPCODE_TEXT true = Ok frame
    /\ broadcast clock depth st message sender_sock = Ok st'
    /\ spreads clock frame sender_sock (map fst (clients st))
               (mk_server (clients st) (net st) (S (ticks st))) st'.
Proof.
  intros Hlen Hshort Hmsg.
  destruct (new_frame_ok clock st (list_byte_of_string message) OPCODE_TEXT
              ltac:(unfold OPCODE_TEXT; lia) Hmsg)
    as (frame & Ecf & Enf & _).
  set (st1 := mk_server (clients st) (net st) (S (ticks st))).
  destruct (broadcast_loop_spreads clock (close_client clock depth)
              (length (clients st1)) frame sender_sock
              ltac:(intros st' s' Hl Hs; apply close_client_closes;
                    [cbn [st1 clients] in Hl; lia|exact Hs])
              (map fst (clients st1)) st1 (le_n _) Hshort)
    as (st' & El & Hsp).
  exists frame, st'. split; [exact Ecf|]. split; [|exact Hsp].
  unfold broadcast. rewrite Enf. cbn [bind]. exact El.
Qed.

End HubTotal.

(** ** Claims about the registry *)

Lemma chat_room_short : names_short (clients chat_room).
Proof.
  intros s n [E|[E|[E|[]]]]; injection E as <- <-; vm_compute; reflexivity.
Qed.

Lemma chat_room_NoDup : NoDup (map fst (clients chat_room)).
Proof.
  cbn. repeat constructor; cbn; intuition discriminate.
Qed.

Lemma chat_room_writable (s : sock) : writable (net chat_room s).
Proof. split; reflexivity. Qed.

(** C9.  [broadcast(message, sender_sock)] returns; every registered socket
    other than the sender on which a write succeeds is still registered and
    has been sent the frame of the message; the sender has been sent
    nothing but frames of the close paths of clients whose write failed.
    When every other registered socket is writable, each of them has been
    sent exactly the frame, once, and the registry, the sender's socket and
    the sockets that are not registered are as they were. *)
Theorem broadcast_excludes_sender (clock : nat -> Z) (depth : nat)
  (st : server) (message : string) (a : sock) :
  (length (clients st) < depth)%nat ->
  names_short (clients st) ->
  len (list_byte_of_string message) < 2 ^ 64 ->
  exists frame st',
    create_frame (clock (ticks st)) (list_byte_of_string message)
                 OPCODE_TEXT true = Ok frame
    /\ broadcast clock depth st message (Some a) = Ok st'
    /\ (forall s n,
           In (s, n) (clients st) -> s <> a -> writable (net st s) ->
           In (s, n) (clients st')
           /\ exists new,
               t_sent (net st' s) = t_sent (net st s) ++ new
               /\ In frame new)
    /\ (exists new,
           t_sent (net st' a) = t_sent (net st a) ++ new
           /\ Forall (control_frame clock) new)
    /\ (NoDup (map fst (clients st)) ->
        (forall s, In s (map fst (clients st)) -> s <> a ->
                   writable (net st s)) ->
        clients st' = clients st
        /\ (forall s, In s (map fst (clients st)) -> s <> a ->
                      net st' s = pushes [frame] (net st s))
        /\ net st' a = net st a
        /\ (forall s, ~ In s (map fst (clients st)) ->
                      net st' s = net st s)).
Proof.
  intros Hlen Hshort Hmsg.
  destruct (broadcast_spreads clock depth st message (Some a) Hlen Hshort
              Hmsg) as (frame & st' & Ecf & Eb & _ & _ & _ & H4 & H5).
  exists frame, st'. split; [exact Ecf|]. split; [exact Eb|].
  split; [|split].
  - intros s n Hin Hne Hw. split; [now apply H4|].
    destruct (H5 s) as (new & En & _ & _ & Hc).
    exists new. split; [exact En|]. apply Hc.
    + apply in_map_iff. now exists (s, n).
    + cbn [is_sender]. now apply Nat.eqb_neq.
    + exact Hw.
  - destruct (H5 a) as (new & En & _ & Hb & _).
    exists new. split; [exact En|]. apply Hb.
    cbn [is_sender]. apply Nat.eqb_refl.
  - intros Hnd Hall.
    unfold broadcast in Eb. unfold new_frame in Eb. rewrite Ecf in Eb.
    cbn [bind clients] in Eb.
    destruct (broadcast_loop_writable (close_client clock depth) frame
                (Some a) (map fst (clients st))
                (mk_server (clients st) (net st) (S (ticks st))))
      as (st'' & El & Hc & _ & Hn).
    { intros s Hin Hs. cbn [net]. apply Hall; [exact Hin|].
      cbn [is_sender] in Hs. now apply Nat.eqb_neq. }
    cbn [clients] in El. rewrite El in Eb. injection Eb as <-.
    cbn [clients net] in *. split; [exact Hc|]. repeat split.
    + intros s Hin Hne. rewrite Hn. unfold reached. cbn [is_sender].
      apply Nat.eqb_neq in Hne. rewrite Hne.
      now rewrite count_occ_NoDup.
    + rewrite Hn. unfold reached. cbn [is_sender]. rewrite Nat.eqb_refl.
      apply pushes_nil.
    + intros s Hnin. rewrite Hn. unfold reached.
      destruct (is_sender (Some a) s); [apply pushes_nil|].
      rewrite (proj1 (count_occ_not_In Nat.eq_dec _ s) Hnin).
      apply pushes_nil.
Qed.

Lemma broadcast_excludes_sender_witness :
  exists frame st',
    create_frame (chat_clock 0) (list_byte_of_string "hi") OPCODE_TEXT true
    = Ok frame
    /\ broadcast chat_clock 4 chat_room "hi" (Some 1%nat) = Ok st'
    /\ net st' 2%nat = pushes [frame] fresh_socket
    /\ net st' 3%nat = pushes [frame] fresh_socket
    /\ net st' 1%nat = fresh_socket.
Proof.
  destruct (broadcast_excludes_sender chat_clock 4 chat_room "hi" 1%nat)
    as (frame & st' & Ecf & Eb & _ & _ & Hall).
  - cbn. lia.
  - exact chat_room_short.
  - vm_compute. reflexivity.
  - destruct (Hall chat_room_NoDup
                (fun s _ _ => chat_room_writable s)) as (_ & Hn & Ha & _).
    exists frame, st'. repeat split; try assumption.
    + apply (Hn 2%nat); [cbn; tauto|discriminate].
    + apply (Hn 3%nat); [cbn; tauto|discriminate].
Defined.

(** C8.  When the session of a registered client reads a close frame,
    [_handle_client] ends with the client removed from the registry; the
    second call of [close_client], from the [finally] clause, finds the
    client absent and changes nothing, as any later call does; writable
    sockets of the other clients stay registered.  When every other
    registered socket is writable, the registry is the old one without the
    client and each remaining socket has been sent exactly one frame, the
    leave notice [<name> has left the chat]; sockets that are not
    registered are untouched. *)
Theorem close_frame_propagation (clock : nat -> Z) (depth : nat)
  (st : server) (a : sock) (name : string) (data payload : list byte)
  (plen consumed : Z) (fin : bool) :
  clients_find a (clients st) = Some name ->
  (length (clients st) < depth)%nat ->
  names_short (clients st) ->
  parse_frame data = Ok (Frame OPCODE_CLOSE payload plen fin consumed) ->
  exists st',
    _handle_client clock depth st a data = Ok (st', true)
    /\ close_client clock depth st a = Ok st'
    /\ clients_find a (clients st') = None
    /\ close_client clock depth st' a = Ok st'
    /\ (forall s n, s <> a -> writable (net st s) ->
                    In (s, n) (clients st) -> In (s, n) (clients st'))
    /\ (NoDup (map fst (clients st)) ->
        (forall s, In s (map fst (clients st)) -> s <> a ->
                   writable (net st s)) ->
        exists notice,
          create_frame (clock (S (ticks st)))
            (list_byte_of_string (name ++ " has left the chat")%string)
            OPCODE_TEXT true = Ok notice
          /\ parse_frame notice
             = Ok (Frame OPCODE_TEXT
                     (list_byte_of_string
                        (name ++ " has left the chat")%string)
                     (len (list_byte_of_string
                             (name ++ " has left the chat")%string))
                     true (len notice))
          /\ clients st' = clients_pop a (clients st)
          /\ (forall s, In s (map fst (clients st')) ->
                        net st' s = pushes [notice] (net st s))
          /\ (forall s, ~ In s (map fst (clients st')) -> s <> a ->
                        net st' s = net st s)).
Proof.
  intros Hfind Hlen Hshort Hparse.
  destruct (close_client_closes clock depth st a Hlen Hshort)
    as (st' & Ecl & _ & Habs & _ & _ & _ & Hkeep & _).
  destruct depth as [|d]; [lia|].
  pose proof (close_client_absent clock d st' a Habs) as Enoop.
  exists st'. split; [|split; [exact Ecl|split; [exact Habs|split;
                       [exact Enoop|split; [exact Hkeep|]]]]].
  - destruct data as [|b rest].
    { rewrite parse_frame_eq in Hparse. discriminate. }
    unfold _handle_client. cbn [length handle_frames].
    rewrite Hparse. cbn [bind].
    change (OPCODE_CLOSE =? OPCODE_TEXT) with false.
    change (OPCODE_CLOSE =? OPCODE_CLOSE) with true.
    cbv iota. rewrite Ecl. cbn [bind]. rewrite Enoop. reflexivity.
  - intros Hnd Hall.
    destruct (close_client_writable clock d st a name Hfind Hnd Hall
                (Hshort a name (clients_find_Some_In _ _ _ Hfind)))
      as (close_frame & notice & st'' & _ & Enot & Ecl' & Hc & _ & Hn
          & Hout & _).
    rewrite Ecl in Ecl'. injection Ecl' as <-.
    exists notice. split; [exact Enot|]. split; [|repeat split; assumption].
    rewrite <- (app_nil_r notice) at 1.
    apply (parse_created_frame _ _ OPCODE_TEXT true notice []
             ltac:(unfold OPCODE_TEXT; lia) Enot).
Qed.

Lemma close_frame_propagation_witness :
  exists st',
    _handle_client chat_clock 4 chat_room 2%nat close_frame_bytes
    = Ok (st', true)
    /\ clients st' = [(1%nat, "ann"%string); (3%nat, "cy"%string)]
    /\ close_client chat_clock 4 st' 2%nat = Ok st'
    /\ exists notice,
        parse_frame notice
        = Ok (Frame OPCODE_TEXT
                (list_byte_of_string "bob has left the chat") 21 true
                (len notice))
        /\ net st' 1%nat = pushes [notice] fresh_socket
        /\ net st' 3%nat = pushes [notice] fresh_socket.
Proof.
  destruct (close_frame_propagation chat_clock 4 chat_room 2%nat "bob"
              close_frame_bytes [] 0 6 true)
    as (st' & Eh & _ & _ & Enoop & _ & Hall).
  - reflexivity.
  - cbn. lia.
  - exact chat_room_short.
  - reflexivity.
  - destruct (Hall chat_room_NoDup (fun s _ _ => chat_room_writable s))
      as (notice & _ & Hp & Hc & Hn & _).
    exists st'. split; [exact Eh|]. split; [exact Hc|].
    split; [exact Enoop|]. exists notice. split; [exact Hp|].
    split; apply Hn; rewrite Hc; cbn; tauto.
Defined.

(** ** More about the frame codec *)

Lemma lor_80_range (v : Z) : 0 <= Z.lor 0x80 v < 256 -> 0 <= v < 256.
Proof.
  intros [H0 H1].
  apply Z.lor_nonneg in H0 as [_ Hv].
  pose proof (Z.sub_lor_l_same_r 0x80 v) as Hs.
  assert (0 <= Z.land 0x80 (Z.lnot v)) by (apply Z.land_nonneg; left; lia).
  lia.
Qed.

(** Decoding what [create_frame] wrote for any opcode that fits a byte:
    the opcode comes back cut to its low four bits. *)
Lemma parse_created_frame_any (now_ms : Z) (payload : list byte) (opcode : Z)
  (mask : bool) (frame rest : list byte) :
  create_frame now_ms payload opcode mask = Ok frame ->
  parse_frame (frame ++ rest)
  = Ok (Frame (Z.land opcode 0x0F) payload (len payload) true (len frame)).
Proof.
  intros Hc.
  assert (Hop : 0 <= opcode < 256).
  { unfold create_frame in Hc.
    destruct (to_byte (Z.lor 128 opcode)) as [b|] eqn:E; [|discriminate].
    apply to_byte_inv in E as [E _]. now apply lor_80_range. }
  assert (Hlen : len payload < 2 ^ 64).
  { unfold create_frame in Hc.
    destruct (to_byte (Z.lor 128 opcode)); [|discriminate].
    cbn [bind] in Hc. unfold length_field in Hc.
    destruct (Z.leb_spec (len payload) 125); [lia|].
    destruct (Z.leb_spec (len payload) 65535); [lia|].
    destruct (to_byte (Z.lor 128 127)); [|discriminate].
    cbn [bind] in Hc. unfold struct_pack in Hc.
    destruct (Z.ltb_spec (len payload) (256 ^ Z.of_nat (fmt_size fmt_Q)));
      [assumption|].
    rewrite andb_false_r in Hc. discriminate. }
  destruct (create_frame_ok now_ms payload opcode mask Hop Hlen)
    as (b0 & lf & masked & Ec & Eb0 & Elf & Em & Eu & Hl).
  cbv zeta in *.
  set (key := be_bytes 4 (now_ms mod 0xFFFFFFFF)) in *.
  assert (Ef : frame = (b0 :: lf ++ key) ++ masked) by congruence.
  subst frame. clear Ec.
  destruct (lor_80_ok opcode Hop) as (b0' & Eb0' & H80 & _ & H0F).
  rewrite Eb0 in Eb0'. injection Eb0' as <-.
  pose proof (header_of_created b0 lf key (masked ++ rest) (len payload)
                ltac:(pose proof (len_nonneg payload); lia) Elf
                (be_bytes_length 4 _)) as Hh.
  rewrite H80, H0F in Hh. cbn [negb] in Hh.
  rewrite <- app_assoc.
  rewrite (parse_frame_masked (b0 :: lf ++ key) masked rest payload _ Hh);
    cbn [h_mask h_header_size h_payload_len h_masking_key h_opcode h_fin];
    try reflexivity; try assumption; try (symmetry; assumption).
  rewrite len_app, Hl. reflexivity.
Qed.

(** X1.  [create_frame] returns a frame for every opcode in range(256) and
    every payload under 2^64 bytes, and [parse_frame] reads it back from the
    front of any buffer: same payload, fin set, the opcode cut to its low
    four bits, and a consumed count equal to the length of the frame,
    whatever bytes follow. *)
Theorem round_trip_with_trailing_bytes (now_ms : Z) (payload : list byte)
  (opcode : Z) (mask : bool) (rest : list byte) :
  0 <= opcode < 256 ->
  len payload < 2 ^ 64 ->
  exists frame,
    create_frame now_ms payload opcode mask = Ok frame
    /\ parse_frame (frame ++ rest)
       = Ok (Frame (Z.land opcode 0x0F) payload (len payload) true
                   (len frame)).
Proof.
  intros Hop Hlen.
  destruct (create_frame_ok now_ms payload opcode mask Hop Hlen)
    as (b0 & lf & masked & Ec & _).
  cbv zeta in Ec. eexists. split; [exact Ec|].
  now apply (parse_created_frame_any now_ms payload opcode mask).
Qed.

Lemma round_trip_with_trailing_bytes_witness :
  exists frame,
    create_frame 7 hello 0x31 true = Ok frame
    /\ parse_frame (frame ++ [xff; x00])
       = Ok (Frame (Z.land 0x31 0x0F) hello (len hello) true (len frame)).
Proof.
  apply (round_trip_with_trailing_bytes 7 hello 0x31 true [xff; x00]).
  - lia.
  - vm_compute. reflexivity.
Defined.

(** X2.  [create_frame] raises [ValueError] exactly when the opcode does
    not fit a byte: for a payload under 2^64 bytes it returns a frame when
    [0 <= opcode < 256] and raises otherwise. *)
Theorem create_frame_opcode_range (now_ms : Z) (payload : list byte)
  (opcode : Z) (mask : bool) :
  len payload < 2 ^ 64 ->
  (0 <= opcode < 256 ->
   exists frame, create_frame now_ms payload opcode mask = Ok frame)
  /\ (~ 0 <= opcode < 256 ->
      create_frame now_ms payload opcode mask = Raise ValueError).
Proof.
  intros Hlen. split.
  - intros Hop.
    destruct (create_frame_ok now_ms payload opcode mask Hop Hlen)
      as (b0 & lf & masked & Ec & _).
    cbv zeta in Ec. eexists. exact Ec.
  - intros Hop. unfold create_frame, to_byte.
    destruct ((0 <=? Z.lor 128 opcode) && (Z.lor 128 opcode <? 256)) eqn:E;
      [|reflexivity].
    exfalso. apply Hop. apply lor_80_range.
    apply andb_true_iff in E as [E1 E2]. lia.
Qed.

Lemma create_frame_opcode_range_witness :
  create_frame 0 hello 256 true = Raise ValueError.
Proof.
  apply (create_frame_opcode_range 0 hello 256 true).
  - vm_compute. reflexivity.
  - lia.
Defined.

Lemma length_field_len (n : Z) (lf : list byte) :
  length_field n = Ok lf ->
  len lf = (if n <=? 125 then 1 else if n <=? 65535 then 3 else 9).
Proof.
  unfold length_field, struct_pack.
  destruct (n <=? 125); [|destruct (n <=? 65535)].
  - destruct (to_byte (Z.lor 128 n)); [|discriminate].
    cbn [bind]. now intros [= <-].
  - destruct (to_byte (Z.lor 128 126)) as [b|]; [|discriminate]. cbn [bind].
    destruct ((0 <=? n) && (n <? 256 ^ Z.of_nat (fmt_size fmt_H)));
      [|discriminate].
    cbn [bind]. intros E.
    assert (lf = b :: be_bytes (fmt_size fmt_H) n) by congruence. subst lf.
    rewrite len_cons. unfold len. now rewrite be_bytes_length.
  - destruct (to_byte (Z.lor 128 127)) as [b|]; [|discriminate]. cbn [bind].
    destruct ((0 <=? n) && (n <? 256 ^ Z.of_nat (fmt_size fmt_Q)));
      [|discriminate].
    cbn [bind]. intros E.
    assert (lf = b :: be_bytes (fmt_size fmt_Q) n) by congruence. subst lf.
    rewrite len_cons. unfold len. now rewrite be_bytes_length.
Qed.

(** X3.  A frame of [create_frame] is 6 bytes longer than its payload when
    the payload has at most 125 bytes, 8 bytes longer up to 65535 bytes and
    14 bytes longer above: two header bytes, the extended length and the
    4-byte key. *)
Theorem create_frame_overhead (now_ms : Z) (payload : list byte)
  (opcode : Z) (mask : bool) (frame : list byte) :
  create_frame now_ms payload opcode mask = Ok frame ->
  len frame
  = len payload
    + (if len payload <=? 125 then 6
       else if len payload <=? 65535 then 8 else 14).
Proof.
  intros Hc. unfold create_frame in Hc.
  destruct (to_byte (Z.lor 128 opcode)) as [b0|]; [|discriminate].
  cbn [bind] in Hc.
  destruct (length_field (len payload)) as [lf|] eqn:Elf; [|discriminate].
  cbn [bind] in Hc. rewrite masking_key_at_eq in Hc. cbn [bind] in Hc.
  destruct (xor_loop_involutive (be_bytes 4 (now_ms mod 0xFFFFFFFF))
              payload 0 (be_bytes_length 4 _)) as (masked & Em & Hl & _).
  rewrite Em in Hc. cbn [bind] in Hc.
  set (key := be_bytes 4 (now_ms mod 0xFFFFFFFF)) in *.
  assert (frame = (b0 :: lf) ++ key ++ masked) by congruence. subst frame.
  apply length_field_len in Elf.
  assert (Hk : len key = 4) by (unfold len, key; now rewrite be_bytes_length).
  assert (Hm : len masked = len payload) by (unfold len; now rewrite Hl).
  rewrite !len_app, len_cons, Elf, Hk, Hm.
  destruct (len payload <=? 125); [|destruct (len payload <=? 65535)]; lia.
Qed.

Lemma create_frame_overhead_witness :
  len [x81; x85; x01; x02; x03; x04; x69; x67; x6f; x68; x6e]
  = len hello
    + (if len hello <=? 125 then 6
       else if len hello <=? 65535 then 8 else 14).
Proof.
  apply (create_frame_overhead 0x01020304 hello OPCODE_TEXT true).
  reflexivity.
Defined.

(** X4.  Two frames of [create_frame] written one after the other are read
    back in order: the first from the front of the buffer, with a consumed
    count equal to its length, and the second from [buffer[frame_len:]]. *)
Theorem two_frames_in_one_buffer (now1 now2 : Z) (p1 p2 : list byte)
  (op1 op2 : Z) (m1 m2 : bool) (f1 f2 : list byte) :
  create_frame now1 p1 op1 m1 = Ok f1 ->
  create_frame now2 p2 op2 m2 = Ok f2 ->
  parse_frame (f1 ++ f2)
  = Ok (Frame (Z.land op1 0x0F) p1 (len p1) true (len f1))
  /\ parse_frame (skipn (Z.to_nat (len f1)) (f1 ++ f2))
     = Ok (Frame (Z.land op2 0x0F) p2 (len p2) true (len f2)).
Proof.
  intros H1 H2. split.
  - exact (parse_created_frame_any now1 p1 op1 m1 f1 f2 H1).
  - unfold len at 1. rewrite Nat2Z.id, skipn_app, skipn_all, Nat.sub_diag.
    cbn [skipn app].
    rewrite <- (app_nil_r f2) at 1.
    exact (parse_created_frame_any now2 p2 op2 m2 f2 [] H2).
Qed.

Lemma two_frames_in_one_buffer_witness :
  parse_frame ([x81; x85; x01; x02; x03; x04; x69; x67; x6f; x68; x6e]
               ++ [x88; x80; x00; x00; x00; x00])
  = Ok (Frame (Z.land OPCODE_TEXT 0x0F) hello (len hello) true
              (len [x81; x85; x01; x02; x03; x04; x69; x67; x6f; x68; x6e]))
  /\ parse_frame
       (skipn (Z.to_nat
                 (len [x81; x85; x01; x02; x03; x04; x69; x67; x6f; x68;
                       x6e]))
              ([x81; x85; x01; x02; x03; x04; x69; x67; x6f; x68; x6e]
               ++ [x88; x80; x00; x00; x00; x00]))
     = Ok (Frame (Z.land OPCODE_CLOSE 0x0F) [] (len (@nil byte)) true
                 (len [x88; x80; x00; x00; x00; x00])).
Proof.
  apply (two_frames_in_one_buffer 0x01020304 0 hello [] OPCODE_TEXT
           OPCODE_CLOSE true true); reflexivity.
Defined.

(** X5.  The masking loop with a 4-byte key never raises, keeps the length
    of the payload and undoes itself: masking the masked bytes with the
    same key gives the payload back. *)
Theorem masking_undoes_itself (key payload : list byte) :
  length key = 4%nat ->
  exists masked,
    xor_loop key 0 payload = Ok masked
    /\ len masked = len payload
    /\ xor_loop key 0 masked = Ok payload.
Proof.
  intros Hk.
  destruct (xor_loop_involutive key payload 0 Hk) as (m & Em & Hl & Eu).
  exists m. split; [exact Em|]. split; [|exact Eu].
  unfold len. now rewrite Hl.
Qed.

Lemma masking_undoes_itself_witness :
  exists masked,
    xor_loop [x01; x02; x03; x04] 0 hello = Ok masked
    /\ len masked = len hello
    /\ xor_loop [x01; x02; x03; x04] 0 masked = Ok hello.
Proof.
  apply (masking_undoes_itself [x01; x02; x03; x04] hello).
  reflexivity.
Defined.

Lemma land_80_low (b : byte) :
  byte_val b < 128 -> (Z.land (byte_val b) 0x80 =? 0) = true.
Proof.
  destruct b; vm_compute; intros H; try reflexivity; discriminate H.
Qed.

Lemma parse_frame_unmasked (pre body rest : list byte) (h : header) :
  header_of (pre ++ body ++ rest) = Some h ->
  h_mask h = false ->
  h_header_size h = len pre ->
  h_payload_len h = len body ->
  parse_frame (pre ++ body ++ rest)
  = Ok (Frame (h_opcode h) body (len body) (h_fin h) (len pre + len body)).
Proof.
  intros Hh Hm Hs Hp.
  rewrite parse_frame_eq, Hh, Hm, Hs, Hp.
  rewrite slice_app_mid. cbn [bind].
  rewrite !len_app.
  destruct (Z.ltb_spec (len pre + (len body + len rest))
                       (len pre + len body)); [|reflexivity].
  pose proof (len_nonneg rest). lia.
Qed.

(** X6.  [parse_frame] also reads frames whose MASK bit is clear, in each
    of the three length forms and whatever the first byte: the payload
    comes back as it is in the buffer, fin and opcode are read from the
    first byte, and the header counts 2, 4 or 10 bytes. *)
Theorem parse_frame_reads_unmasked (b0 : byte) (payload rest : list byte) :
  let fin := negb (Z.land (byte_val b0) 0x80 =? 0) in
  let opcode := Z.land (byte_val b0) 0x0F in
  let n := len payload in
  (n <= 125 ->
   parse_frame (b0 :: byte_trunc n :: payload ++ rest)
   = Ok (Frame opcode payload n fin (2 + n)))
  /\ (n < 65536 ->
      parse_frame (b0 :: x7e :: be_bytes 2 n ++ payload ++ rest)
      = Ok (Frame opcode payload n fin (4 + n)))
  /\ (n < 2 ^ 64 ->
      parse_frame (b0 :: x7f :: be_bytes 8 n ++ payload ++ rest)
      = Ok (Frame opcode payload n fin (10 + n))).
Proof.
  cbv zeta. pose proof (len_nonneg payload) as H0.
  split; [|split]; intros Hn.
  - assert (Hv : byte_val (byte_trunc (len payload)) = len payload)
      by (rewrite byte_val_trunc; apply Z.mod_small; lia).
    pose proof (land_80_low (byte_trunc (len payload)) ltac:(lia)) as H80.
    pose proof (land_7F_small (len payload) ltac:(lia)) as H7F.
    apply (parse_frame_unmasked [b0; byte_trunc (len payload)] payload rest
             (mk_header (negb (Z.land (byte_val b0) 0x80 =? 0))
                        (Z.land (byte_val b0) 0x0F) false (len payload) 2
                        [])); try reflexivity.
    cbn [app header_of]. rewrite H80, Hv, H7F.
    destruct (Z.eqb_spec (len payload) 126); [lia|].
    destruct (Z.eqb_spec (len payload) 127); [lia|]. reflexivity.
  - pose proof (be_value_bytes 2 (len payload)) as Hv.
    rewrite Z.mod_small in Hv by (change (256 ^ Z.of_nat 2) with 65536; lia).
    pose proof (be_bytes_length 2 (len payload)) as Hl.
    destruct (be_bytes 2 (len payload)) as [|e0 [|e1 [|]]] eqn:Ebe;
      try discriminate Hl.
    apply (parse_frame_unmasked [b0; x7e; e0; e1] payload rest
             (mk_header (negb (Z.land (byte_val b0) 0x80 =? 0))
                        (Z.land (byte_val b0) 0x0F) false (len payload) 4
                        [])); try reflexivity.
    cbn [app header_of].
    change (Z.land (byte_val x7e) 127 =? 126) with true.
    change (negb (Z.land (byte_val x7e) 128 =? 0)) with false.
    cbv iota. now rewrite Hv.
  - pose proof (be_value_bytes 8 (len payload)) as Hv.
    rewrite Z.mod_small in Hv
      by (change (256 ^ Z.of_nat 8) with (2 ^ 64); lia).
    pose proof (be_bytes_length 8 (len payload)) as Hl.
    destruct (be_bytes 8 (len payload))
      as [|e0 [|e1 [|e2 [|e3 [|e4 [|e5 [|e6 [|e7 [|]]]]]]]]] eqn:Ebe;
      try discriminate Hl.
    apply (parse_frame_unmasked [b0; x7f; e0; e1; e2; e3; e4; e5; e6; e7]
             payload rest
             (mk_header (negb (Z.land (byte_val b0) 0x80 =? 0))
                        (Z.land (byte_val b0) 0x0F) false (len payload) 10
                        [])); try reflexivity.
    cbn [app header_of].
    change (Z.land (byte_val x7f) 127 =? 126) with false.
    change (Z.land (byte_val x7f) 127 =? 127) with true.
    change (negb (Z.land (byte_val x7f) 128 =? 0)) with false.
    cbv iota. now rewrite Hv.
Qed.

Lemma parse_frame_reads_unmasked_witness :
  parse_frame (x01 :: byte_trunc (len hello) :: hello ++ [x00])
  = Ok (Frame (Z.land (byte_val x01) 0x0F) hello (len hello)
              (negb (Z.land (byte_val x01) 0x80 =? 0)) (2 + len hello)).
Proof.
  apply (parse_frame_reads_unmasked x01 hello [x00]).
  vm_compute. discriminate.
Defined.

(** ** The session of one client, frame by frame *)

Lemma parse_frame_consumed (buffer payload : list byte) (opcode plen n : Z)
  (fin : bool) :
  parse_frame buffer = Ok (Frame opcode payload plen fin n) ->
  2 <= n <= len buffer.
Proof.
  rewrite parse_frame_eq.
  destruct (header_of buffer) as [h|] eqn:Hh; [|discriminate].
  destruct (Z.ltb_spec (len buffer) (h_header_size h + h_payload_len h))
    as [Hlt|Hge]; [discriminate|].
  destruct (parse_frame_payload buffer h Hh Hge) as (p & Ep & _).
  rewrite Ep. cbn [bind]. intros [= _ _ _ _ <-].
  destruct (header_of_bounds buffer h Hh) as (Hs & _ & Hp & _).
  destruct (h_mask h); lia.
Qed.

Lemma skipn_consumed (buffer : list byte) (n : Z) :
  2 <= n <= len buffer ->
  (length (skipn (Z.to_nat n) buffer) + 2 <= length buffer)%nat.
Proof.
  intros H. rewrite length_skipn. unfold len in H. lia.
Qed.

Section SessionFrames.

Variable clock : nat -> Z.

Lemma handle_frames_fuel (depth : nat) (a : sock) :
  forall fuel1 fuel2 st buffer,
    (length buffer <= fuel1)%nat ->
    (length buffer <= fuel2)%nat ->
    handle_frames clock fuel1 depth st a buffer
    = handle_frames clock fuel2 depth st a buffer.
Proof.
  induction fuel1 as [|f1 IH]; intros fuel2 st buffer H1 H2.
  - destruct buffer; [|cbn [length] in H1; lia].
    destruct fuel2; reflexivity.
  - destruct buffer as [|b rest]; [destruct fuel2; reflexivity|].
    destruct fuel2 as [|f2]; [cbn [length] in H2; lia|].
    cbn [handle_frames].
    destruct (parse_frame (b :: rest)) as [[|op p plen fin n]|e] eqn:Ep;
      cbn [bind]; try reflexivity.
    pose proof (skipn_consumed _ _ (parse_frame_consumed _ _ _ _ _ _ Ep))
      as Hs.
    assert (Hf1 : (length (skipn (Z.to_nat n) (b :: rest)) <= f1)%nat) by lia.
    assert (Hf2 : (length (skipn (Z.to_nat n) (b :: rest)) <= f2)%nat) by lia.
    destruct (op =? OPCODE_TEXT).
    { destruct (utf8_valid p); [|reflexivity].
      destruct (broadcast clock depth st (string_of_list_byte p) (Some a));
        cbn [bind]; [|reflexivity].
      now apply IH. }
    destruct (op =? OPCODE_CLOSE); [reflexivity|].
    destruct (op =? OPCODE_PING); [|now apply IH].
    destruct (new_frame clock st [] OPCODE_PONG) as [[pong st1]|];
      cbn [bind]; [|reflexivity].
    destruct (sock_send (net st1 a) pong); [|reflexivity].
    now apply IH.
Qed.

Lemma receive_frames_fuel :
  forall fuel1 fuel2 buffer,
    (length buffer <= fuel1)%nat ->
    (length buffer <= fuel2)%nat ->
    receive_frames fuel1 buffer = receive_frames fuel2 buffer.
Proof.
  induction fuel1 as [|f1 IH]; intros fuel2 buffer H1 H2.
  - destruct buffer; [|cbn [length] in H1; lia].
    destruct fuel2; reflexivity.
  - destruct buffer as [|b rest]; [destruct fuel2; reflexivity|].
    destruct fuel2 as [|f2]; [cbn [length] in H2; lia|].
    cbn [receive_frames].
    destruct (parse_frame (b :: rest)) as [[|op p plen fin n]|e] eqn:Ep;
      cbn [bind]; try reflexivity.
    pose proof (skipn_consumed _ _ (parse_frame_consumed _ _ _ _ _ _ Ep))
      as Hs.
    destruct (op =? OPCODE_TEXT); [reflexivity|].
    destruct (op =? OPCODE_CLOSE); [reflexivity|].
    apply IH; lia.
Qed.

(** X7.  The loops over the frames of a received buffer, in the server's
    session and in the client's [receive], always end: every pass takes at
    least two bytes off the buffer, so as many passes as the buffer has
    bytes are enough, and allowing more changes nothing. *)
Theorem frame_loop_ends (depth fuel : nat) (st : server) (a : sock)
  (buffer : list byte) :
  (length buffer <= fuel)%nat ->
  handle_frames clock fuel depth st a buffer
  = handle_frames clock (length buffer) depth st a buffer
  /\ receive_frames fuel buffer = receive_frames (length buffer) buffer
  /\ forall opcode payload plen fin n,
      parse_frame buffer = Ok (Frame opcode payload plen fin n) ->
      (length (skipn (Z.to_nat n) buffer) + 2 <= length buffer)%nat.
Proof.
  intros H. split; [|split].
  - now apply handle_frames_fuel.
  - now apply receive_frames_fuel.
  - intros op p plen fin n Ep.
    exact (skipn_consumed _ _ (parse_frame_consumed _ _ _ _ _ _ Ep)).
Qed.

End SessionFrames.

Section SessionDispatch.

Variable clock : nat -> Z.

Lemma create_frame_nonempty (now_ms : Z) (payload : list byte) (opcode : Z)
  (mask : bool) (frame : list byte) :
  create_frame now_ms payload opcode mask = Ok frame -> frame <> [].
Proof.
  intros Hc E. subst frame.
  pose proof (parse_created_frame_any now_ms payload opcode mask [] [] Hc)
    as Hp.
  rewrite parse_frame_eq in Hp. discriminate.
Qed.

(** One pass of the loop on a buffer that starts with a frame of
    [create_frame]. *)
Lemma handle_frames_first (fuel depth : nat) (st : server) (a : sock)
  (now_ms : Z) (payload : list byte) (opcode : Z) (mask : bool)
  (frame rest : list byte) :
  create_frame now_ms payload opcode mask = Ok frame ->
  handle_frames clock (S fuel) depth st a (frame ++ rest)
  = if Z.land opcode 0x0F =? OPCODE_TEXT then
      if utf8_valid payload then
        st' <- broadcast clock depth st (string_of_list_byte payload)
                 (Some a) ;;
        handle_frames clock fuel depth st' a rest
      else Ok (st, Raised UnicodeDecodeError)
    else if Z.land opcode 0x0F =? OPCODE_CLOSE then
      st' <- close_client clock depth st a ;;
      Ok (st', Returned)
    else if Z.land opcode 0x0F =? OPCODE_PING then
      fs <- new_frame clock st [] OPCODE_PONG ;;
      let '(pong_frame, st1) := fs in
      match sock_send (net st1 a) pong_frame with
      | Ok t => handle_frames clock fuel depth (net_set st1 a t) a rest
      | Raise e => Ok (st1, Raised e)
      end
    else handle_frames clock fuel depth st a rest.
Proof.
  intros Hc.
  pose proof (parse_created_frame_any now_ms payload opcode mask frame rest
                Hc) as Hp.
  assert (Hskip : skipn (Z.to_nat (len frame)) (frame ++ rest) = rest).
  { unfold len. rewrite Nat2Z.id, skipn_app, skipn_all, Nat.sub_diag.
    reflexivity. }
  destruct (frame ++ rest) as [|b tl] eqn:E.
  { apply app_eq_nil in E as [E _].
    now apply create_frame_nonempty in Hc. }
  cbn [handle_frames]. rewrite Hp. cbn [bind]. rewrite Hskip. reflexivity.
Qed.

(** [_handle_client] on a received buffer that starts with a frame of
    [create_frame]. *)
Lemma handle_client_first (depth : nat) (st : server) (a : sock)
  (now_ms : Z) (payload : list byte) (opcode : Z) (mask : bool)
  (frame rest : list byte) :
  create_frame now_ms payload opcode mask = Ok frame ->
  exists fuel,
    (length rest <= fuel)%nat
    /\ _handle_client clock depth st a (frame ++ rest)
       = (r <- handle_frames clock (S fuel) depth st a (frame ++ rest) ;;
          let '(st', o) := r in
          match o with
          | LoopEnd => Ok (st', false)
          | Returned =>
              st'' <- close_client clock depth st' a ;;
              Ok (st'', true)
          | Raised OSError =>
              st'' <- close_client clock depth st' a ;;
              Ok (st'', true)
          | Raised e =>
              st'' <- close_client clock depth st' a ;;
              Raise e
          end).
Proof.
  intros Hc. exists (length (frame ++ rest)). split.
  - rewrite length_app. lia.
  - unfold _handle_client.
    destruct (frame ++ rest) as [|b tl] eqn:E.
    { apply app_eq_nil in E as [E _].
      now apply create_frame_nonempty in Hc. }
    rewrite (handle_frames_fuel clock depth a (length (b :: tl))
               (S (length (b :: tl))) st (b :: tl)) by lia.
    reflexivity.
Qed.

Lemma handle_frames_nil (fuel depth : nat) (st : server) (a : sock) :
  handle_frames clock fuel depth st a [] = Ok (st, LoopEnd).
Proof. destruct fuel; reflexivity. Qed.

(** X8.  A text frame read by the session is passed on: [_handle_client] on
    the frame that [WebSocketClient.send(message)] wrote broadcasts
    [message] with the client's socket as the excluded sender, and the
    session goes on. *)
Theorem sent_text_is_broadcast (cclock : nat -> Z) (c c' : client)
  (message : string) (depth : nat) (st : server) (a : sock) :
  client_send cclock c message = Ok c' ->
  utf8_valid (list_byte_of_string message) = true ->
  exists frame,
    t_sent (c_sock c') = t_sent (c_sock c) ++ [frame]
    /\ _handle_client clock depth st a frame
       = (st' <- broadcast clock depth st message (Some a) ;;
          Ok (st', false)).
Proof.
  intros Hs Hu. unfold client_send in Hs.
  destruct (create_frame (cclock (c_ticks c)) (list_byte_of_string message)
              OPCODE_TEXT true) as [frame|] eqn:Hc; [|discriminate].
  cbn [bind] in Hs.
  destruct (sock_send (c_sock c) frame) as [t|] eqn:Et; [|discriminate].
  cbn [bind] in Hs. injection Hs as <-.
  apply sock_send_inv in Et as [_ ->].
  exists frame. split; [reflexivity|].
  destruct (handle_client_first depth st a _ _ _ _ frame [] Hc)
    as (fuel & _ & E).
  rewrite app_nil_r in E. rewrite E.
  rewrite <- (app_nil_r frame) at 1.
  rewrite (handle_frames_first fuel depth st a _ _ _ _ frame [] Hc).
  change (Z.land OPCODE_TEXT 15 =? OPCODE_TEXT) with true. cbv iota.
  rewrite Hu, string_of_list_byte_of_string.
  destruct (broadcast clock depth st message (Some a)) as [st'|e];
    cbn [bind]; [|reflexivity].
  rewrite handle_frames_nil. reflexivity.
Qed.

End SessionDispatch.

Section SessionCases.

Variable clock : nat -> Z.

(** X9.  A text frame whose payload is not well-formed UTF-8 ends the
    session: [payload.decode] raises [UnicodeDecodeError], which no
    [except] clause of [_handle_client] catches; the [finally] clause runs
    [close_client] and the exception leaves the method, the frames that
    follow in the buffer being left unread. *)
Theorem text_frame_not_utf8 (depth : nat) (st : server) (a : sock)
  (now_ms : Z) (payload : list byte) (mask : bool)
  (frame rest : list byte) :
  create_frame now_ms payload OPCODE_TEXT mask = Ok frame ->
  utf8_valid payload = false ->
  _handle_client clock depth st a (frame ++ rest)
  = (st' <- close_client clock depth st a ;; Raise UnicodeDecodeError).
Proof.
  intros Hc Hu.
  destruct (handle_client_first clock depth st a _ _ _ _ frame rest Hc)
    as (fuel & _ & E).
  rewrite E, (handle_frames_first clock fuel depth st a _ _ _ _ frame rest Hc).
  change (Z.land OPCODE_TEXT 15 =? OPCODE_TEXT) with true. cbv iota.
  rewrite Hu. reflexivity.
Qed.

(** X10.  A ping frame is answered to the client alone and with an empty
    pong, whatever payload the ping carried: when the client's socket is
    writable the pong frame is sent on it, nothing else changes and the
    session goes on; when it is not, the failed write ends the session
    through [close_client]. *)
Theorem ping_gets_empty_pong (depth : nat) (st : server) (a : sock)
  (now_ms : Z) (payload : list byte) (mask : bool) (frame : list byte) :
  create_frame now_ms payload OPCODE_PING mask = Ok frame ->
  exists pong,
    create_frame (clock (ticks st)) [] OPCODE_PONG true = Ok pong
    /\ parse_frame pong = Ok (Frame OPCODE_PONG [] 0 true (len pong))
    /\ (writable (net st a) ->
        _handle_client clock depth st a frame
        = Ok (net_set (mk_server (clients st) (net st) (S (ticks st))) a
                      (pushes [pong] (net st a)), false))
    /\ (~ writable (net st a) ->
        _handle_client clock depth st a frame
        = (st' <- close_client clock depth
                    (mk_server (clients st) (net st) (S (ticks st))) a ;;
           Ok (st', true))).
Proof.
  intros Hc.
  destruct (new_frame_ok clock st [] OPCODE_PONG
              ltac:(unfold OPCODE_PONG; lia) ltac:(cbn; lia))
    as (pong & Epong & Enf & Hparse).
  exists pong. split; [exact Epong|]. split; [exact Hparse|].
  destruct (handle_client_first clock depth st a _ _ _ _ frame [] Hc)
    as (fuel & _ & E).
  pose proof (handle_frames_first clock fuel depth st a _ _ _ _ frame []
                Hc) as E1.
  rewrite app_nil_r in E, E1. rewrite E, E1. clear E E1.
  change (Z.land OPCODE_PING 15 =? OPCODE_TEXT) with false.
  change (Z.land OPCODE_PING 15 =? OPCODE_CLOSE) with false.
  change (Z.land OPCODE_PING 15 =? OPCODE_PING) with true.
  cbv iota. rewrite Enf. cbn [bind net].
  split; intros Hw.
  - rewrite (sock_send_writable _ pong Hw), handle_frames_nil. reflexivity.
  - destruct (sock_send (net st a) pong) as [t|e] eqn:Es.
    + apply sock_send_inv in Es as [Hw' _]. contradiction.
    + apply sock_send_fails in Es as [-> _]. reflexivity.
Qed.

(** X11.  Frames of any other kind have no effect: on a frame whose opcode
    is not text, close or ping (continuation, binary, pong, or one of the
    reserved codes) [_handle_client] leaves the server as it was and the
    session goes on. *)
Theorem other_frames_are_ignored (depth : nat) (st : server) (a : sock)
  (now_ms : Z) (payload : list byte) (opcode : Z) (mask : bool)
  (frame : list byte) :
  create_frame now_ms payload opcode mask = Ok frame ->
  Z.land opcode 0x0F <> OPCODE_TEXT ->
  Z.land opcode 0x0F <> OPCODE_CLOSE ->
  Z.land opcode 0x0F <> OPCODE_PING ->
  _handle_client clock depth st a frame = Ok (st, false).
Proof.
  intros Hc H1 H8 H9.
  destruct (handle_client_first clock depth st a _ _ _ _ frame [] Hc)
    as (fuel & _ & E).
  rewrite app_nil_r in E. rewrite E. clear E.
  rewrite <- (app_nil_r frame) at 1.
  rewrite (handle_frames_first clock fuel depth st a _ _ _ _ frame [] Hc).
  apply Z.eqb_neq in H1, H8, H9. rewrite H1, H8, H9.
  rewrite handle_frames_nil. reflexivity.
Qed.

(** X12.  The session keeps nothing of a frame that arrives in pieces: on a
    received buffer that holds only the beginning of a frame
    [_handle_client] leaves the server as it was and goes back to reading,
    with no buffer carried over to the next [recv]. *)
Theorem partial_frame_is_dropped (depth : nat) (st : server) (a : sock)
  (now_ms : Z) (payload : list byte) (opcode : Z) (mask : bool)
  (frame pre post : list byte) :
  create_frame now_ms payload opcode mask = Ok frame ->
  frame = pre ++ post ->
  pre <> [] ->
  post <> [] ->
  _handle_client clock depth st a pre = Ok (st, false).
Proof.
  intros Hc Hf Hpre Hpost.
  pose proof (parse_frame_strict_prefix now_ms payload opcode mask frame
                pre post Hc Hf Hpost) as Hp.
  destruct pre as [|b tl]; [congruence|].
  unfold _handle_client. cbn [length handle_frames].
  rewrite Hp. reflexivity.
Qed.

(** X13.  Every frame of a received buffer is handled, in order: on a
    buffer made of two text frames [_handle_client] broadcasts the first
    message and then the second, each with the client as excluded
    sender. *)
Theorem two_text_frames_both_broadcast (depth : nat) (st : server)
  (a : sock) (now1 now2 : Z) (m1 m2 : string) (k1 k2 : bool)
  (f1 f2 : list byte) :
  create_frame now1 (list_byte_of_string m1) OPCODE_TEXT k1 = Ok f1 ->
  create_frame now2 (list_byte_of_string m2) OPCODE_TEXT k2 = Ok f2 ->
  utf8_valid (list_byte_of_string m1) = true ->
  utf8_valid (list_byte_of_string m2) = true ->
  _handle_client clock depth st a (f1 ++ f2)
  = (st1 <- broadcast clock depth st m1 (Some a) ;;
     st2 <- broadcast clock depth st1 m2 (Some a) ;;
     Ok (st2, false)).
Proof.
  intros H1 H2 U1 U2.
  destruct (handle_client_first clock depth st a _ _ _ _ f1 f2 H1)
    as (fuel & Hfuel & E).
  rewrite E, (handle_frames_first clock fuel depth st a _ _ _ _ f1 f2 H1).
  clear E.
  change (Z.land OPCODE_TEXT 15 =? OPCODE_TEXT) with true. cbv iota.
  rewrite U1, string_of_list_byte_of_string.
  destruct (broadcast clock depth st m1 (Some a)) as [st1|e];
    cbn [bind]; [|reflexivity].
  rewrite (handle_frames_fuel clock depth a fuel (S (length f2)) st1 f2)
    by lia.
  rewrite <- (app_nil_r f2) at 2.
  rewrite (handle_frames_first clock (length f2) depth st1 a _ _ _ _ f2 []
             H2).
  change (Z.land OPCODE_TEXT 15 =? OPCODE_TEXT) with true. cbv iota.
  rewrite U2, string_of_list_byte_of_string.
  destruct (broadcast clock depth st1 m2 (Some a)) as [st2|e];
    cbn [bind]; [|reflexivity].
  rewrite handle_frames_nil. reflexivity.
Qed.

End SessionCases.

(** ** What the close paths leave alone *)

Lemma keeps_refl (c : option sock) (st : server) : keeps c st st.
Proof.
  unfold keeps. split; [|split; [|split; [|split]]]; try tauto.
  intros x. exists []. now rewrite app_nil_r.
Qed.

Lemma keys_incl (st st' : server) (x : sock) :
  (forall p, In p (clients st') -> In p (clients st)) ->
  In x (map fst (clients st')) -> In x (map fst (clients st)).
Proof.
  intros H Hin. apply in_map_iff in Hin as (p & <- & Hp).
  apply in_map_iff. exists p. split; [reflexivity|now apply H].
Qed.

Lemma keeps_trans (c : option sock) (st st1 st' : server) :
  keeps c st st1 -> keeps None st1 st' -> keeps c st st'.
Proof.
  intros (A1 & A2 & A3 & A4 & A5) (B1 & B2 & B3 & B4 & B5).
  unfold keeps. split; [|split; [|split; [|split]]].
  - intros p Hp. now apply A1, B1.
  - intros x Hx. rewrite B2; [now apply A2|]. now rewrite A2.
  - intros x Hx. rewrite B3; [now apply A3|].
    intros Hin. apply Hx. now apply (keys_incl st st1).
  - intros x n Hc Hw Hin. destruct (A4 x n Hc Hw Hin) as [Hin1 Hw1].
    apply (B4 x n); [discriminate|assumption..].
  - intros x. destruct (A5 x) as (n1 & E1). destruct (B5 x) as (n2 & E2).
    exists (n1 ++ n2). now rewrite E2, E1, app_assoc.
Qed.

Lemma keeps_weaken (s : sock) (st st' : server) :
  ~ writable (net st s) -> keeps (Some s) st st' -> keeps None st st'.
Proof.
  intros Hnw (A1 & A2 & A3 & A4 & A5).
  unfold keeps. split; [|split; [|split; [|split]]]; try assumption.
  intros x n _ Hw Hin. apply A4; try assumption.
  intros [= ->]. contradiction.
Qed.

Lemma not_writable_closed (t : transport) : ~ writable (sock_close t).
Proof. intros [H _]. discriminate H. Qed.

Lemma broadcast_loop_keeps
  (cc : server -> sock -> result server) (frame : list byte)
  (sender_sock : option sock) :
  (forall st1 s st2, cc st1 s = Ok st2 -> keeps (Some s) st1 st2) ->
  forall targets st st',
    (forall s, In s targets ->
               In s (map fst (clients st)) \/ ~ writable (net st s)) ->
    broadcast_loop cc frame sender_sock targets st = Ok st' ->
    keeps None st st'.
Proof.
  intros Hcc. induction targets as [|s rest IH]; intros st st' HT Hl.
  - cbn in Hl. injection Hl as <-. apply keeps_refl.
  - cbn [broadcast_loop] in Hl.
    destruct (is_sender sender_sock s).
    { apply (IH st st'); [|exact Hl]. intros s' Hs'. apply HT. now right. }
    destruct (sock_send (net st s) frame) as [t|e] eqn:Es.
    + apply sock_send_inv in Es as [Hw ->].
      assert (Hreg : In s (map fst (clients st))).
      { destruct (HT s (or_introl eq_refl)) as [H|H]; [exact H|contradiction]. }
      set (st1 := net_set st s (pushes [frame] (net st s))) in *.
      assert (Hflags : forall x, writable (net st1 x) <-> writable (net st x)).
      { intros x. cbn [st1 net_set net]. destruct (Nat.eqb x s) eqn:E.
        - apply Nat.eqb_eq in E. subst x. apply writable_pushes.
        - reflexivity. }
      apply (keeps_trans None st st1 st').
      * unfold keeps. split; [|split; [|split; [|split]]].
        -- tauto.
        -- intros x Hx. cbn [st1 net_set net].
           destruct (Nat.eqb x s) eqn:E; [|reflexivity].
           apply Nat.eqb_eq in E. subst x. contradiction.
        -- intros x Hx. cbn [st1 net_set net].
           destruct (Nat.eqb x s) eqn:E; [|reflexivity].
           apply Nat.eqb_eq in E. subst x. contradiction.
        -- intros x n _ Hwx Hin. split; [exact Hin|now apply Hflags].
        -- intros x. cbn [st1 net_set net].
           destruct (Nat.eqb x s) eqn:E.
           ++ apply Nat.eqb_eq in E. subst x. now exists [frame].
           ++ exists []. now rewrite app_nil_r.
      * apply IH; [|exact Hl]. intros s' Hs'.
        destruct (HT s' (or_intror Hs')) as [H|H]; [now left|].
        right. now rewrite Hflags.
    + apply sock_send_fails in Es as [-> Hnw].
      destruct (cc st s) as [st1|] eqn:Ecc; [|discriminate].
      cbn [bind] in Hl.
      pose proof (Hcc st s st1 Ecc) as Hk.
      pose proof Hk as (K1 & K2 & K3 & K4 & K5).
      apply (keeps_trans None st st1 st').
      * now apply (keeps_weaken s).
      * apply IH; [|exact Hl]. intros s' Hs'.
        destruct (HT s' (or_intror Hs')) as [Hin|Hnw'].
        -- destruct (Nat.eq_dec s' s) as [->|Hne].
           ++ right. now rewrite K2.
           ++ apply in_map_iff in Hin as ([x n] & Ex & Hin).
              cbn [fst] in Ex. subst x.
              assert (Hdec : writable (net st s') \/ ~ writable (net st s')).
              { unfold writable.
                destruct (t_closed (net st s')), (t_up (net st s'));
                  intuition discriminate. }
              destruct Hdec as [Hw|Hnw'].
              ** left. apply in_map_iff. exists (s', n).
                 split; [reflexivity|].
                 apply (K4 s' n); [congruence|assumption..].
              ** right. now rewrite K2.
        -- right. now rewrite K2.
Qed.

Section CloseKeeps.

Variable clock : nat -> Z.

Lemma close_client_keeps (depth : nat) :
  forall st c st',
    close_client clock depth st c = Ok st' -> keeps (Some c) st st'.
Proof.
  induction depth as [|d IH]; intros st c st' H; [discriminate|].
  cbn [close_client] in H.
  destruct (clients_find c (clients st)) as [name|] eqn:Hfind.
  2:{ injection H as <-. apply keeps_refl. }
  assert (Hreg : In c (map fst (clients st)))
    by (apply clients_find_In; congruence).
  set (st1 := mk_server (clients_pop c (clients st)) (net st) (ticks st))
    in *.
  destruct (new_frame clock st1 [] OPCODE_CLOSE) as [[cf st1']|] eqn:Enf1;
    [|discriminate].
  unfold new_frame in Enf1.
  destruct (create_frame (clock (ticks st1)) [] OPCODE_CLOSE true)
    as [cf'|]; [|discriminate].
  cbn [bind] in Enf1, H. injection Enf1 as <- <-.
  set (st2 := match sock_send (net st c) cf' with
              | Ok t => net_set (mk_server (clients st1) (net st1)
                                           (S (ticks st1))) c (sock_close t)
              | Raise _ => mk_server (clients st1) (net st1) (S (ticks st1))
              end).
  assert (K : keeps (Some c) st st2
              /\ clients st2 = clients_pop c (clients st)).
  { unfold st2.
    destruct (sock_send (net st c) cf') as [t|e] eqn:Es.
    - apply sock_send_inv in Es as [Hw ->]. split; [|reflexivity].
      unfold keeps. cbn [clients net net_set st1].
      split; [|split; [|split; [|split]]].
      + intros p Hp. apply clients_pop_incl in Hp. tauto.
      + intros x Hx. destruct (Nat.eqb x c) eqn:E; [|reflexivity].
        apply Nat.eqb_eq in E. subst x. contradiction.
      + intros x Hx. destruct (Nat.eqb x c) eqn:E; [|reflexivity].
        apply Nat.eqb_eq in E. subst x. contradiction.
      + intros x n Hne Hwx Hin.
        assert (Hxc : x <> c) by congruence.
        apply Nat.eqb_neq in Hxc as E. rewrite E.
        split; [|exact Hwx]. apply clients_pop_incl. now split.
      + intros x. destruct (Nat.eqb x c) eqn:E.
        * apply Nat.eqb_eq in E. subst x. now exists [cf'].
        * exists []. now rewrite app_nil_r.
    - split; [|reflexivity].
      unfold keeps. cbn [clients net st1].
      split; [|split; [|split; [|split]]]; try reflexivity.
      + intros p Hp. apply clients_pop_incl in Hp. tauto.
      + intros x n Hne Hwx Hin. split; [|exact Hwx].
        apply clients_pop_incl. split; [exact Hin|cbn [fst]; congruence].
      + intros x. exists []. now rewrite app_nil_r. }
  destruct K as [K Hc2].
  change ((fs <- new_frame clock st2
                   (list_byte_of_string (name ++ " has left the chat")%string)
                   OPCODE_TEXT ;;
           let '(frame, st0) := fs in
           broadcast_loop (close_client clock d) frame None
                          (map fst (clients st0)) st0) = Ok st') in H.
  destruct (new_frame clock st2
              (list_byte_of_string (name ++ " has left the chat")%string)
              OPCODE_TEXT) as [[notice st3]|] eqn:Enf2; [|discriminate].
  cbn [bind] in H. unfold new_frame in Enf2.
  destruct (create_frame (clock (ticks st2))
              (list_byte_of_string (name ++ " has left the chat")%string)
              OPCODE_TEXT true) as [notice'|]; [|discriminate].
  cbn [bind] in Enf2.
  assert (notice = notice'
          /\ st3 = mk_server (clients st2) (net st2) (S (ticks st2)))
    as [-> ->] by (split; congruence).
  clear Enf2.
  apply (keeps_trans (Some c) st st2 st'); [exact K|].
  apply (keeps_trans None st2
           (mk_server (clients st2) (net st2) (S (ticks st2))) st').
  { unfold keeps. cbn [clients net].
    split; [|split; [|split; [|split]]]; try tauto.
    intros x. exists []. now rewrite app_nil_r. }
  apply (broadcast_loop_keeps (close_client clock d) notice' None IH
           (map fst (clients st2))
           (mk_server (clients st2) (net st2) (S (ticks st2))) st');
    [|exact H].
  intros s Hs. now left.
Qed.

(** The socket of a registered client, when writable, is sent the close
    frame and closed, and [close_client] does nothing more to it. *)
Lemma close_client_own_socket (depth : nat) (st st' : server) (c : sock) :
  In c (map fst (clients st)) ->
  writable (net st c) ->
  close_client clock depth st c = Ok st' ->
  exists close_frame,
    create_frame (clock (ticks st)) [] OPCODE_CLOSE true = Ok close_frame
    /\ net st' c = sock_close (pushes [close_frame] (net st c)).
Proof.
  intros Hreg Hw H.
  destruct depth as [|d]; [discriminate|].
  cbn [close_client] in H.
  destruct (clients_find c (clients st)) as [name|] eqn:Hfind.
  2:{ apply clients_find_In in Hreg. congruence. }
  set (st1 := mk_server (clients_pop c (clients st)) (net st) (ticks st))
    in *.
  unfold new_frame at 1 in H. cbn [ticks st1] in H.
  destruct (create_frame (clock (ticks st)) [] OPCODE_CLOSE true)
    as [cf|]; [|discriminate].
  exists cf. split; [reflexivity|].
  cbn [bind clients net ticks st1] in H.
  rewrite (sock_send_writable _ cf Hw) in H.
  set (st2 := net_set _ c _) in H.
  unfold new_frame in H.
  destruct (create_frame (clock (ticks st2))
              (list_byte_of_string (name ++ " has left the chat")%string)
              OPCODE_TEXT true) as [notice|]; [|discriminate].
  cbn [bind] in H.
  assert (Hk : keeps None
                 (mk_server (clients st2) (net st2) (S (ticks st2))) st').
  { apply (broadcast_loop_keeps (close_client clock d) notice None
             (close_client_keeps d) (map fst (clients st2))); [|exact H].
    intros s Hs. now left. }
  destruct Hk as (_ & K2 & _). cbn [net] in K2.
  rewrite K2.
  - cbn [net st2 net_set]. now rewrite Nat.eqb_refl.
  - cbn [net st2 net_set]. rewrite Nat.eqb_refl. apply not_writable_closed.
Qed.

End CloseKeeps.

Lemma writable_pushes_eq (t t' : transport) (new : list (list byte)) :
  writable t -> writable t' -> t_sent t' = t_sent t ++ new ->
  t' = pushes new t.
Proof.
  destruct t, t'. unfold writable, pushes. cbn. intros [-> ->] [-> ->] ->.
  reflexivity.
Qed.

Section StopProofs.

Variable clock : nat -> Z.

Lemma stop_loop_closes (depth : nat) :
  forall targets st,
    (length (clients st) < depth)%nat ->
    names_short (clients st) ->
    exists st',
      stop_loop clock depth targets st = Ok st'
      /\ (forall p, In p (clients st') -> In p (clients st))
      /\ (forall s, In s targets -> clients_find s (clients st') = None)
      /\ (forall x, ~ writable (net st x) -> net st' x = net st x)
      /\ (forall x, ~ In x (map fst (clients st)) -> net st' x = net st x)
      /\ (forall x n, writable (net st x) -> In (x, n) (clients st) ->
                      ~ In x targets ->
                      In (x, n) (clients st') /\ writable (net st' x))
      /\ (forall x n, writable (net st x) -> In (x, n) (clients st) ->
                      In x targets ->
                      exists new close_frame tick,
                        create_frame (clock tick) [] OPCODE_CLOSE true
                        = Ok close_frame
                        /\ net st' x
                           = sock_close
                               (pushes (new ++ [close_frame]) (net st x))).
Proof.
  induction targets as [|s rest IH]; intros st Hlen Hshort.
  - exists st. split; [reflexivity|].
    split; [tauto|]. split; [intros s []|]. split; [tauto|].
    split; [tauto|]. split; [tauto|]. intros x n _ _ [].
  - cbn [stop_loop].
    destruct (close_client_closes clock depth st s Hlen Hshort)
      as (st1 & Ecl & C1 & C2 & C3 & _).
    pose proof (close_client_keeps clock depth st s st1 Ecl)
      as (K1 & K2 & K3 & K4 & K5).
    rewrite Ecl. cbn [bind].
    assert (Hshort1 : names_short (clients st1)).
    { intros x n Hin. apply (Hshort x n). now apply C1. }
    destruct (IH st1 ltac:(lia) Hshort1)
      as (st' & El & I1 & I2 & I3 & I4 & I5 & I6).
    exists st'. split; [exact El|].
    split; [|split; [|split; [|split; [|split]]]].
    + intros p Hp. now apply C1, I1.
    + intros s' [<-|Hs'].
      * now apply (clients_find_incl s (clients st1)).
      * now apply I2.
    + intros x Hx. rewrite I3; [now apply K2|]. now rewrite K2.
    + intros x Hx. rewrite I4; [now apply K3|].
      intros Hin. apply Hx. now apply (keys_incl st st1).
    + intros x n Hw Hin Hnin.
      assert (Hne : Some x <> Some s).
      { intros [= ->]. apply Hnin. now left. }
      destruct (K4 x n Hne Hw Hin) as [Hin1 Hw1].
      apply (I5 x n Hw1 Hin1). intros H. apply Hnin. now right.
    + intros x n Hw Hin Hx.
      destruct (Nat.eq_dec x s) as [->|Hne].
      * destruct (close_client_own_socket clock depth st st1 s)
          as (cf & Ecf & En); try assumption.
        { apply in_map_iff. now exists (s, n). }
        exists [], cf, (ticks st). split; [exact Ecf|].
        rewrite I3; [exact En|]. rewrite En. apply not_writable_closed.
      * destruct Hx as [E|Hx]; [congruence|].
        destruct (K4 x n ltac:(congruence) Hw Hin) as [Hin1 Hw1].
        destruct (K5 x) as (n1 & E1).
        destruct (I6 x n Hw1 Hin1 Hx) as (new & cf & tick & Ecf & En).
        exists (n1 ++ new), cf, tick. split; [exact Ecf|].
        rewrite En, (writable_pushes_eq (net st x) (net st1 x) n1 Hw Hw1 E1).
        rewrite pushes_pushes, app_assoc. reflexivity.
Qed.

(** X14.  [stop()] returns with [running] false, the listening socket
    closed and the registry empty.  Every client whose socket was writable
    has been sent a close frame, as the last thing written to it, and its
    socket is closed; a socket that was not writable, or not registered, is
    exactly as it was: it is not even closed. *)
Theorem stop_closes_everyone (depth : nat) (l : listener) :
  (length (clients (srv l)) < depth)%nat ->
  names_short (clients (srv l)) ->
  exists st',
    stop clock depth l = Ok (mk_listener st' false false)
    /\ clients st' = []
    /\ (forall x n, In (x, n) (clients (srv l)) ->
                    writable (net (srv l) x) ->
                    exists new close_frame,
                      parse_frame close_frame
                      = Ok (Frame OPCODE_CLOSE [] 0 true (len close_frame))
                      /\ net st' x
                         = sock_close
                             (pushes (new ++ [close_frame])
                                     (net (srv l) x)))
    /\ (forall x, ~ writable (net (srv l) x) ->
                  net st' x = net (srv l) x)
    /\ (forall x, ~ In x (map fst (clients (srv l))) ->
                  net st' x = net (srv l) x).
Proof.
  intros Hlen Hshort.
  destruct (stop_loop_closes depth (map fst (clients (srv l))) (srv l) Hlen
              Hshort) as (st' & El & I1 & I2 & I3 & I4 & _ & I6).
  exists st'. unfold stop. cbn [srv running listening]. rewrite El.
  cbn [bind]. split; [reflexivity|].
  split; [|split; [|split]]; try assumption.
  - destruct (clients st') as [|[x n] rest] eqn:E; [reflexivity|].
    assert (Hin : In (x, n) (clients (srv l))) by (apply I1; now left).
    assert (Hk : In x (map fst (clients (srv l))))
      by (apply in_map_iff; now exists (x, n)).
    apply I2 in Hk. rewrite ?E in Hk. cbn [clients_find] in Hk.
    rewrite Nat.eqb_refl in Hk. discriminate.
  - intros x n Hin Hw.
    destruct (I6 x n Hw Hin) as (new & cf & tick & Ecf & En).
    { apply in_map_iff. now exists (x, n). }
    exists new, cf. split; [|exact En].
    rewrite <- (app_nil_r cf) at 1.
    apply (parse_created_frame _ [] OPCODE_CLOSE true cf []
             ltac:(unfold OPCODE_CLOSE; lia) Ecf).
Qed.

End StopProofs.

Section LeftAlone.

Variable clock : nat -> Z.

(** X15.  Whatever writes fail, [close_client] and [broadcast] only remove
    clients from the registry, never take back what was sent, and leave
    every socket that is not registered, and every socket that is not
    writable, exactly as it was; in particular a socket whose [send] fails
    is never closed by [close_client]. *)
Theorem close_paths_leave_others_alone :
  (forall depth st c st',
      close_client clock depth st c = Ok st' ->
      (forall p, In p (clients st') -> In p (clients st))
      /\ (forall x, ~ writable (net st x) -> net st' x = net st x)
      /\ (forall x, ~ In x (map fst (clients st)) -> net st' x = net st x)
      /\ (forall x, exists new,
             t_sent (net st' x) = t_sent (net st x) ++ new))
  /\ (forall depth st message sender_sock st',
         broadcast clock depth st message sender_sock = Ok st' ->
         (forall p, In p (clients st') -> In p (clients st))
         /\ (forall x, ~ writable (net st x) -> net st' x = net st x)
         /\ (forall x, ~ In x (map fst (clients st)) ->
                       net st' x = net st x)
         /\ (forall x, exists new,
                t_sent (net st' x) = t_sent (net st x) ++ new)).
Proof.
  split.
  - intros depth st c st' H.
    destruct (close_client_keeps clock depth st c st' H)
      as (K1 & K2 & K3 & _ & K5).
    repeat split; assumption.
  - intros depth st message sender_sock st' H.
    unfold broadcast, new_frame in H.
    destruct (create_frame (clock (ticks st)) (list_byte_of_string message)
                OPCODE_TEXT true) as [frame|]; [|discriminate].
    cbn [bind clients] in H.
    assert (Hk : keeps None (mk_server (clients st) (net st) (S (ticks st)))
                   st').
    { apply (broadcast_loop_keeps (close_client clock depth) frame
               sender_sock (close_client_keeps clock depth)
               (map fst (clients st))); [|exact H].
      intros s Hs. now left. }
    destruct Hk as (K1 & K2 & K3 & _ & K5).
    repeat split; assumption.
Qed.

End LeftAlone.

(** ** [start]: who gets registered *)

Lemma handshake_answers (request : string) (t t' : transport) (ok : bool) :
  _handshake request t = Ok (ok, t') ->
  if ok
  then writable t
       /\ exists k, t' = pushes [list_byte_of_string
                                   (response_for (accept_key_of k))] t
  else t' = t.
Proof.
  unfold _handshake.
  destruct (startswith request "GET"); cbn [negb];
    [|intros [= <- <-]; reflexivity].
  destruct (read_headers (tl (split CRLF request)) []) as [d|];
    [|discriminate].
  cbn [bind]. unfold dict_in, dict_get.
  destruct (dict_find "upgrade" d) as [u|]; cbn [negb bind];
    [|intros [= <- <-]; reflexivity].
  destruct (str_in "websocket" (lower u)); cbn [negb];
    [|intros [= <- <-]; reflexivity].
  destruct (dict_find "connection" d) as [c|]; cbn [negb bind];
    [|intros [= <- <-]; reflexivity].
  destruct (str_in "upgrade" (lower c)); cbn [negb];
    [|intros [= <- <-]; reflexivity].
  destruct (dict_find "sec-websocket-key" d) as [k|]; cbn [negb bind];
    [|intros [= <- <-]; reflexivity].
  destruct (sock_send t (list_byte_of_string
                           (response_for (accept_key_of k)))) as [t1|]
    eqn:Es; [|discriminate].
  cbn [bind]. intros [= <- <-].
  apply sock_send_inv in Es as [Hw ->]. split; [exact Hw|]. now exists k.
Qed.

Lemma clients_set_fresh (s : sock) (name : string)
  (cl : list (sock * string)) :
  clients_find s cl = None -> clients_set s name cl = cl ++ [(s, name)].
Proof.
  induction cl as [|[s' n] rest IH]; cbn [clients_find clients_set app];
    [reflexivity|].
  destruct (Nat.eqb s' s); [discriminate|]. intros H. now rewrite IH.
Qed.

Section StartProofs.

Variable clock : nat -> Z.

Lemma start_accept_registers (depth : nat) (st : server) (a : sock)
  (request : string) (t1 : transport) (data payload : list byte)
  (plen n : Z) (fin : bool) :
  let name := string_of_list_byte payload in
  _handshake request (net st a) = Ok (true, t1) ->
  parse_frame data = Ok (Frame OPCODE_TEXT payload plen fin n) ->
  utf8_valid payload = true ->
  clients_find a (clients st) = None ->
  NoDup (map fst (clients st)) ->
  (forall s, In s (map fst (clients st)) -> writable (net st s)) ->
  len (list_byte_of_string (name ++ " joined the chat")%string) < 2 ^ 64 ->
  exists notice st',
    create_frame (clock (ticks st))
      (list_byte_of_string (name ++ " joined the chat")%string)
      OPCODE_TEXT true = Ok notice
    /\ start_accept clock depth st a request data = Ok (st', true)
    /\ clients st' = clients st ++ [(a, name)]
    /\ (forall s, In s (map fst (clients st)) ->
                  net st' s = pushes [notice] (net st s))
    /\ net st' a = pushes [notice] t1
    /\ (forall s, s <> a -> ~ In s (map fst (clients st)) ->
                  net st' s = net st s).
Proof.
  cbv zeta. intros Hh Hp Hu Hfresh Hnd Hw Hshort.
  pose proof (handshake_answers _ _ _ _ Hh) as [Hwa (k & Et1)].
  assert (Hw1 : writable t1) by (rewrite Et1; now apply writable_pushes).
  set (name := string_of_list_byte payload) in *.
  set (st2 := mk_server (clients_set a name (clients (net_set st a t1)))
                        (net (net_set st a t1)) (ticks (net_set st a t1))).
  destruct (new_frame_ok clock st2
              (list_byte_of_string (name ++ " joined the chat")%string)
              OPCODE_TEXT ltac:(unfold OPCODE_TEXT; lia) Hshort)
    as (notice & Ecf & Enf & _).
  assert (Hcl2 : clients st2 = clients st ++ [(a, name)]).
  { cbn [st2 clients net_set]. now apply clients_set_fresh. }
  assert (Hnotin : ~ In a (map fst (clients st))).
  { intros Hin. apply clients_find_In in Hin. congruence. }
  assert (Hkeys : map fst (clients st2) = map fst (clients st) ++ [a]).
  { rewrite Hcl2, map_app. reflexivity. }
  destruct (broadcast_loop_writable (close_client clock depth) notice None
              (map fst (clients st2))
              (mk_server (clients st2) (net st2) (S (ticks st2))))
    as (st' & El & Hc' & _ & Hn').
  { intros s Hin _. cbn [net st2 net_set]. rewrite Hkeys in Hin.
    destruct (Nat.eqb s a) eqn:E; [exact Hw1|].
    apply in_app_or in Hin as [Hin|[->|[]]]; [now apply Hw|].
    rewrite Nat.eqb_refl in E. discriminate. }
  assert (Hnd2 : NoDup (map fst (clients st2))).
  { rewrite Hkeys. apply NoDup_app; [exact Hnd|repeat constructor; tauto|].
    intros x Hx [->|[]]. contradiction. }
  exists notice, st'. split; [exact Ecf|]. split.
  { unfold start_accept. rewrite Hh. cbn [bind]. rewrite Hp. cbn [bind].
    change (OPCODE_TEXT =? OPCODE_TEXT) with true. cbv iota. rewrite Hu.
    fold name. fold st2. unfold broadcast. rewrite Enf. cbn [bind].
    change (clients (mk_server (clients st2) (net st2) (S (ticks st2))))
      with (clients st2).
    rewrite El. reflexivity. }
  cbn [clients] in Hc'. split; [now rewrite Hc'|].
  cbn [net] in Hn'. unfold reached in Hn'. cbn [is_sender] in Hn'.
  split; [|split].
  - intros s Hin. rewrite Hn', count_occ_NoDup;
      [|exact Hnd2|rewrite Hkeys; apply in_or_app; now left].
    cbn [repeat st2 net net_set].
    destruct (Nat.eqb s a) eqn:E; [|reflexivity].
    apply Nat.eqb_eq in E. subst s. contradiction.
  - rewrite Hn', count_occ_NoDup;
      [|exact Hnd2|rewrite Hkeys; apply in_or_app; right; now left].
    cbn [repeat st2 net net_set]. now rewrite Nat.eqb_refl.
  - intros s Hne Hnin. rewrite Hn'.
    rewrite (proj1 (count_occ_not_In Nat.eq_dec _ s)).
    + cbn [repeat st2 net net_set]. rewrite pushes_nil.
      apply Nat.eqb_neq in Hne. now rewrite Hne.
    + rewrite Hkeys. intros Hin.
      apply in_app_or in Hin as [Hin|[E|[]]]; [contradiction|congruence].
Qed.

(** X16.  A client is registered when the handshake succeeds and the first
    frame it sends is a text frame: the payload becomes its name, the
    registry gets the new entry last, and, when the registered sockets are
    writable, the notice [<name> joined the chat] is sent once to every
    registered client and to the new client itself. *)
Theorem start_registers (depth : nat) (st : server) (a : sock)
  (request : string) (t1 : transport) (data payload : list byte)
  (plen n : Z) (fin : bool) :
  let name := string_of_list_byte payload in
  _handshake request (net st a) = Ok (true, t1) ->
  parse_frame data = Ok (Frame OPCODE_TEXT payload plen fin n) ->
  utf8_valid payload = true ->
  clients_find a (clients st) = None ->
  NoDup (map fst (clients st)) ->
  (forall s, In s (map fst (clients st)) -> writable (net st s)) ->
  len (list_byte_of_string (name ++ " joined the chat")%string) < 2 ^ 64 ->
  exists notice st',
    create_frame (clock (ticks st))
      (list_byte_of_string (name ++ " joined the chat")%string)
      OPCODE_TEXT true = Ok notice
    /\ start_accept clock depth st a request data = Ok (st', true)
    /\ clients st' = clients st ++ [(a, name)]
    /\ (forall s, In s (map fst (clients st)) ->
                  net st' s = pushes [notice] (net st s))
    /\ net st' a = pushes [notice] t1
    /\ (forall s, s <> a -> ~ In s (map fst (clients st)) ->
                  net st' s = net st s).
Proof.
  exact (start_accept_registers depth st a request t1 data payload plen n
           fin).
Qed.

(** X17.  A connection that [start] does not register is left as it is: the
    registry and the other sockets are unchanged, nothing is broadcast, and
    the socket itself is not closed; it has been sent nothing when the
    handshake failed, and only the 101 response when the first frame was
    not a whole text frame. *)
Theorem start_rejects_quietly (depth : nat) (st st' : server) (a : sock)
  (request : string) (data : list byte) :
  start_accept clock depth st a request data = Ok (st', false) ->
  clients st' = clients st
  /\ (forall s, s <> a -> net st' s = net st s)
  /\ t_closed (net st' a) = t_closed (net st a)
  /\ (net st' a = net st a
      \/ exists k,
          net st' a
          = pushes [list_byte_of_string (response_for (accept_key_of k))]
                   (net st a)).
Proof.
  unfold start_accept. intros H.
  destruct (_handshake request (net st a)) as [[ok t]|] eqn:Hh;
    [|discriminate].
  cbn [bind] in H. pose proof (handshake_answers _ _ _ _ Hh) as Ha.
  assert (Hst : forall st0, st0 = net_set st a t ->
                  clients st0 = clients st
                  /\ (forall s, s <> a -> net st0 s = net st s)
                  /\ net st0 a = t).
  { intros st0 ->. cbn [clients net net_set]. rewrite Nat.eqb_refl.
    repeat split. intros s Hs. apply Nat.eqb_neq in Hs. now rewrite Hs. }
  assert (Hfin : st' = net_set st a t).
  { destruct ok; [|congruence].
    destruct (parse_frame data) as [[|op p pl f n]|]; cbn [bind] in H;
      try congruence.
    destruct (op =? OPCODE_TEXT); [|congruence].
    destruct (utf8_valid p); [|discriminate].
    destruct (broadcast clock depth _ _ None); discriminate. }
  destruct (Hst st' Hfin) as (Hc & Hn & Hna).
  split; [exact Hc|]. split; [exact Hn|]. rewrite Hna.
  destruct ok.
  - destruct Ha as [_ (k & ->)]. split; [reflexivity|]. right. now exists k.
  - subst t. split; [reflexivity|now left].
Qed.

End StartProofs.

Local Open Scope string_scope.

(** ** The two handshakes together *)

Lemma lacks_app (bad : ascii) (s1 s2 : string) :
  lacks bad (s1 ++ s2) = lacks bad s1 && lacks bad s2.
Proof.
  induction s1 as [|c s1 IH]; cbn [append lacks]; [reflexivity|].
  now rewrite IH, andb_assoc.
Qed.

Lemma split_go_line (cur : list ascii) (line rest : string) :
  lacks CR line = true ->
  split_go CRLF 0 cur (line ++ CRLF ++ rest)
  = string_of_list_ascii (rev cur ++ list_ascii_of_string line)
      :: split_go CRLF 0 [] rest.
Proof.
  revert cur. induction line as [|c line IH]; intros cur H.
  - cbn [append list_ascii_of_string]. rewrite app_nil_r.
    unfold CRLF at 2. cbn [append split_go].
    destruct rest; reflexivity.
  - cbn [lacks] in H. apply andb_true_iff in H as [Hc Hl].
    apply negb_true_iff, Ascii.eqb_neq in Hc.
    change (String c line ++ CRLF ++ rest)
      with (String c (line ++ CRLF ++ rest)).
    cbn [split_go].
    replace (prefix CRLF (String c (line ++ CRLF ++ rest))) with false.
    + rewrite (IH (c :: cur) Hl). cbn [rev list_ascii_of_string].
      now rewrite <- app_assoc.
    + unfold CRLF at 1. cbn [prefix].
      destruct (ascii_dec "013" c) as [E|]; [|reflexivity].
      unfold CR in Hc. congruence.
Qed.

Lemma split_line (line rest : string) :
  lacks CR line = true ->
  split CRLF (line ++ CRLF ++ rest) = line :: split CRLF rest.
Proof.
  intros H. unfold split. rewrite split_go_line by exact H.
  cbn [rev app]. now rewrite string_of_list_ascii_of_string.
Qed.

Lemma partition_colon (name val : string) :
  lacks ":" name = true ->
  partition_at ": " (name ++ ": " ++ val) = Some (name, val).
Proof.
  induction name as [|c name IH]; intros H.
  - cbn [append]. destruct val; reflexivity.
  - cbn [lacks] in H. apply andb_true_iff in H as [Hc Hl].
    apply negb_true_iff, Ascii.eqb_neq in Hc.
    change (String c name ++ ": " ++ val)
      with (String c (name ++ ": " ++ val)).
    cbn [partition_at prefix].
    destruct (ascii_dec ":" c) as [E|]; [congruence|].
    now rewrite (IH Hl).
Qed.

Lemma read_headers_line (name val : string) (rest : list string)
  (headers : dict) :
  lacks ":" name = true ->
  read_headers ((name ++ ": " ++ val) :: rest) headers
  = read_headers rest (dict_set (lower name) val headers).
Proof.
  intros H. cbn [read_headers]. unfold str_in, split_1.
  rewrite (partition_colon name val H). reflexivity.
Qed.

Lemma b64_alphabet_lacks_cr (b : byte) :
  In b (x3d :: b64_alphabet) ->
  negb (Ascii.eqb (ascii_of_byte b) CR) = true.
Proof.
  assert (H : forallb (fun b => negb (Ascii.eqb (ascii_of_byte b) CR))
                      (x3d :: b64_alphabet) = true)
    by (vm_compute; reflexivity).
  rewrite forallb_forall in H. apply H.
Qed.

Lemma b64_char_lacks_cr (i : Z) :
  negb (Ascii.eqb (ascii_of_byte (b64_char i)) CR) = true.
Proof.
  apply b64_alphabet_lacks_cr. unfold b64_char.
  destruct (nth_in_or_default (Z.to_nat i) b64_alphabet x3d) as [H|H].
  - now right.
  - left. now rewrite H.
Qed.

Lemma b64encode_lacks_cr (bs : list byte) :
  lacks CR (string_of_list_byte (b64encode bs)) = true.
Proof.
  assert (H : forall n bs, (length bs <= n)%nat ->
                lacks CR (string_of_list_byte (b64encode bs)) = true).
  { clear bs. induction n as [|n IH]; intros bs Hn.
    - destruct bs; [reflexivity|cbn [length] in Hn; lia].
    - destruct bs as [|a [|b [|c rest]]].
      + reflexivity.
      + cbn [b64encode]. unfold string_of_list_byte.
        cbn [map string_of_list_ascii lacks].
        now rewrite !b64_char_lacks_cr.
      + cbn [b64encode]. unfold string_of_list_byte.
        cbn [map string_of_list_ascii lacks].
        now rewrite !b64_char_lacks_cr.
      + cbn [b64encode]. unfold string_of_list_byte.
        cbn [map string_of_list_ascii lacks].
        rewrite !b64_char_lacks_cr. cbn [andb].
        apply (IH rest). cbn [length] in Hn. lia. }
  apply (H (length bs)). lia.
Qed.

Lemma response_has_101 (accept_key : string) :
  str_in "101 Switching Protocols" (response_for accept_key) = true.
Proof. reflexivity. Qed.

Lemma handshakes_agree (host port now_text : string)
  (t : transport) (c : client) :
  lacks CR host = true ->
  lacks CR port = true ->
  writable t ->
  writable (c_sock c) ->
  let key := request_key now_text in
  let request := client_request host port key in
  let response := response_for (accept_key_of key) in
  _handshake request t = Ok (true, pushes [list_byte_of_string response] t)
  /\ client_handshake c host port now_text response
     = (mk_client (connected c)
                  (pushes [list_byte_of_string request] (c_sock c))
                  (c_ticks c), Ok tt).
Proof.
  intros Hhost Hport Hw Hwc. cbv zeta.
  split.
  - pose proof (b64encode_lacks_cr
                  (firstn 16 (sha1 (list_byte_of_string now_text)))) as Hkey.
    fold (request_key now_text) in Hkey.
    generalize dependent (request_key now_text). intros key Hkey.
    unfold _handshake, client_request.
    change (startswith ("GET / HTTP/1.1" ++ CRLF ++ _) "GET") with true.
    cbn [negb].
    rewrite (split_line "GET / HTTP/1.1") by reflexivity.
    rewrite (split_line ("Host: " ++ host ++ ":" ++ port))
      by (rewrite !lacks_app, Hhost, Hport; reflexivity).
    rewrite (split_line "Upgrade: websocket") by reflexivity.
    rewrite (split_line "Connection: Upgrade") by reflexivity.
    rewrite (split_line ("Sec-WebSocket-Key: " ++ key))
      by (rewrite lacks_app, Hkey; reflexivity).
    rewrite (split_line "Sec-WebSocket-Version: 13") by reflexivity.
    change (split CRLF CRLF) with [""; ""].
    cbn [tl].
    change ("Host: " ++ host ++ ":" ++ port)
      with ("Host" ++ ": " ++ (host ++ ":" ++ port)).
    rewrite (read_headers_line "Host") by reflexivity.
    rewrite (read_headers_line "Upgrade" "websocket") by reflexivity.
    rewrite (read_headers_line "Connection" "Upgrade") by reflexivity.
    change ("Sec-WebSocket-Key: " ++ key)
      with ("Sec-WebSocket-Key" ++ ": " ++ key).
    rewrite (read_headers_line "Sec-WebSocket-Key" key) by reflexivity.
    rewrite (read_headers_line "Sec-WebSocket-Version" "13") by reflexivity.
    cbn [read_headers str_in partition_at prefix bind].
    change (dict_in "upgrade" _) with true.
    change (dict_get "upgrade" _) with (@Ok string "websocket").
    cbn [negb bind].
    change (str_in "websocket" (lower "websocket")) with true.
    change (dict_in "connection" _) with true.
    change (dict_get "connection" _) with (@Ok string "Upgrade").
    cbn [negb bind].
    change (str_in "upgrade" (lower "Upgrade")) with true.
    change (dict_in "sec-websocket-key" _) with true.
    change (dict_get "sec-websocket-key" _) with (@Ok string key).
    cbn [negb bind].
    rewrite (sock_send_writable _ _ Hw). reflexivity.
  - unfold client_handshake. cbv zeta.
    rewrite (sock_send_writable _ _ Hwc), response_has_101. reflexivity.
Qed.

(** X18.  The two handshakes fit: the request that
    [WebSocketClient._handshake] builds, for any host and port text without
    a carriage return and any clock reading, is accepted by
    [WebSocketServer._handshake], which answers on a writable socket with
    the 101 response for the client's key; and that response makes the
    client's handshake return without raising. *)
Theorem client_handshake_is_accepted (host port now_text : string)
  (t : transport) (c : client) :
  lacks CR host = true ->
  lacks CR port = true ->
  writable t ->
  writable (c_sock c) ->
  let key := request_key now_text in
  let request := client_request host port key in
  let response := response_for (accept_key_of key) in
  _handshake request t = Ok (true, pushes [list_byte_of_string response] t)
  /\ client_handshake c host port now_text response
     = (mk_client (connected c)
                  (pushes [list_byte_of_string request] (c_sock c))
                  (c_ticks c), Ok tt).
Proof.
  exact (handshakes_agree host port now_text t c).
Qed.

(** ** Repeated headers *)






Local Close Scope string_scope.

(** ** The client's [receive] *)

Lemma receive_frames_first (fuel : nat) (now_ms : Z)
  (payload : list byte) (opcode : Z) (mask : bool) (frame rest : list byte) :
  create_frame now_ms payload opcode mask = Ok frame ->
  receive_frames (S fuel) (frame ++ rest)
  = if Z.land opcode 0x0F =? OPCODE_TEXT then Ok (GotText payload)
    else if Z.land opcode 0x0F =? OPCODE_CLOSE then Ok GotClose
    else receive_frames fuel rest.
Proof.
  intros Hc.
  pose proof (parse_created_frame_any now_ms payload opcode mask frame rest
                Hc) as Hp.
  assert (Hskip : skipn (Z.to_nat (len frame)) (frame ++ rest) = rest).
  { unfold len. rewrite Nat2Z.id, skipn_app, skipn_all, Nat.sub_diag.
    reflexivity. }
  destruct (frame ++ rest) as [|b tl] eqn:E.
  { apply app_eq_nil in E as [E _].
    now apply create_frame_nonempty in Hc. }
  cbn [receive_frames]. rewrite Hp. cbn [bind]. rewrite Hskip. reflexivity.
Qed.

Lemma receive_frames_whole (now_ms : Z) (payload : list byte) (opcode : Z)
  (mask : bool) (frame rest : list byte) :
  create_frame now_ms payload opcode mask = Ok frame ->
  exists fuel,
    receive_frames (length (frame ++ rest)) (frame ++ rest)
    = receive_frames (S fuel) (frame ++ rest).
Proof.
  intros Hc. destruct (frame ++ rest) as [|b tl] eqn:E.
  { apply app_eq_nil in E as [E _].
    now apply create_frame_nonempty in Hc. }
  exists (length tl). reflexivity.
Qed.

Section ReceiveProofs.

Variable clock : nat -> Z.

Lemma receive_loop_reassembles (now_ms : Z) (message : string)
  (mask : bool) (frame : list byte) (more : list (list byte)) (c : client) :
  create_frame now_ms (list_byte_of_string message) OPCODE_TEXT mask
  = Ok frame ->
  utf8_valid (list_byte_of_string message) = true ->
  connected c = true ->
  forall chunks buffer,
    Forall (fun data => data <> []) chunks ->
    buffer ++ concat chunks = frame ->
    (length buffer < length frame)%nat ->
    receive_loop clock buffer (chunks ++ more) c
    = Ok (Message message, more, c).
Proof.
  intros Hc Hu Hconn.
  induction chunks as [|data later IH]; intros buffer Hne Hcat Hlt.
  - cbn [concat] in Hcat. rewrite app_nil_r in Hcat. subst. lia.
  - inversion Hne as [|? ? Hd Hl]; subst.
    cbn [concat] in Hlt |- *. cbn [app receive_loop]. rewrite Hconn.
    cbn [negb].
    destruct data as [|b tl] eqn:Ed; [congruence|]. rewrite <- Ed in *.
    clear Ed b tl.
    destruct later as [|d2 later'].
    + cbn [concat] in *. rewrite app_nil_r in *.
      destruct (receive_frames_whole _ _ _ _ (buffer ++ data) [] Hc)
        as (fuel & E).
      rewrite app_nil_r in E. rewrite E.
      rewrite <- (app_nil_r (buffer ++ data)) at 1.
      rewrite (receive_frames_first fuel _ _ _ _ _ [] Hc).
      change (Z.land OPCODE_TEXT 15 =? OPCODE_TEXT) with true. cbv iota.
      cbn [bind]. rewrite Hu, string_of_list_byte_of_string. reflexivity.
    + inversion Hl as [|? ? Hd2 Hl']; subst.
      assert (Hpost : d2 ++ concat later' <> []).
      { destruct d2; [congruence|discriminate]. }
      assert (Hpre : parse_frame (buffer ++ data) = Ok Incomplete).
      { apply (parse_frame_strict_prefix _ _ _ _ _
                 (buffer ++ data) (d2 ++ concat later') Hc);
          [|exact Hpost].
        cbn [concat]. now rewrite app_assoc. }
      assert (Hnonempty : exists b tl, buffer ++ data = b :: tl).
      { destruct (buffer ++ data) as [|b tl] eqn:E; [|now exists b, tl].
        apply app_eq_nil in E as [_ E]. congruence. }
      destruct Hnonempty as (b & tl & E).
      assert (Hrf : receive_frames (length (buffer ++ data)) (buffer ++ data)
                    = Ok (Pending (buffer ++ data))).
      { rewrite E in *. cbn [length receive_frames]. rewrite Hpre.
        reflexivity. }
      rewrite Hrf. cbn [bind].
      apply (IH (buffer ++ data) Hl).
      * cbn [concat]. now rewrite <- app_assoc.
      * assert (0 < length d2)%nat by (destruct d2; [congruence|cbn; lia]).
        cbn [concat]. rewrite !length_app. lia.
Qed.

(** X20.  The client puts a frame back together: when a text frame arrives
    in any number of non-empty pieces, [receive] returns its message, has
    read exactly those pieces, and leaves the client as it was. *)
Theorem receive_reassembles (now_ms : Z) (message : string) (mask : bool)
  (frame : list byte) (chunks more : list (list byte)) (c : client) :
  create_frame now_ms (list_byte_of_string message) OPCODE_TEXT mask
  = Ok frame ->
  utf8_valid (list_byte_of_string message) = true ->
  connected c = true ->
  Forall (fun data => data <> []) chunks ->
  concat chunks = frame ->
  receive clock (chunks ++ more) c = Ok (Message message, more, c).
Proof.
  intros Hc Hu Hconn Hne Hcat. unfold receive.
  apply (receive_loop_reassembles now_ms message mask frame more c Hc Hu
           Hconn chunks [] Hne Hcat).
  cbn [length]. pose proof (create_frame_nonempty _ _ _ _ _ Hc).
  destruct frame; [congruence|cbn [length]; lia].
Qed.

Lemma receive_first_frame (now_ms : Z) (message : string) (mask : bool)
  (frame rest : list byte) (more : list (list byte)) (c : client) :
  create_frame now_ms (list_byte_of_string message) OPCODE_TEXT mask
  = Ok frame ->
  utf8_valid (list_byte_of_string message) = true ->
  connected c = true ->
  receive clock ((frame ++ rest) :: more) c = Ok (Message message, more, c).
Proof.
  intros Hc Hu Hconn.
  unfold receive. cbn [receive_loop app]. rewrite Hconn. cbn [negb].
  destruct (frame ++ rest) as [|b tl] eqn:E.
  { apply app_eq_nil in E as [E _].
    now apply create_frame_nonempty in Hc. }
  rewrite <- E.
  destruct (receive_frames_whole _ _ _ _ frame rest Hc) as (fuel & Ef).
  rewrite Ef, (receive_frames_first fuel _ _ _ _ _ rest Hc).
  change (Z.land OPCODE_TEXT 15 =? OPCODE_TEXT) with true. cbv iota.
  cbn [bind]. rewrite Hu, string_of_list_byte_of_string. reflexivity.
Qed.

(** X21.  [receive] keeps no bytes for the next call, so a message can be
    lost: when two text frames are read at once and a third comes later,
    the first call returns the first message and the next call returns the
    third; the second message is never returned. *)
Theorem receive_loses_second_message (now1 now2 now3 : Z)
  (m1 m2 m3 : string) (k1 k2 k3 : bool) (f1 f2 f3 : list byte)
  (more : list (list byte)) (c : client) :
  create_frame now1 (list_byte_of_string m1) OPCODE_TEXT k1 = Ok f1 ->
  create_frame now2 (list_byte_of_string m2) OPCODE_TEXT k2 = Ok f2 ->
  create_frame now3 (list_byte_of_string m3) OPCODE_TEXT k3 = Ok f3 ->
  utf8_valid (list_byte_of_string m1) = true ->
  utf8_valid (list_byte_of_string m3) = true ->
  connected c = true ->
  receive clock ((f1 ++ f2) :: f3 :: more) c
  = Ok (Message m1, f3 :: more, c)
  /\ receive clock (f3 :: more) c = Ok (Message m3, more, c).
Proof.
  intros H1 H2 H3 Hu1 Hu3 Hconn. split.
  - exact (receive_first_frame now1 m1 k1 f1 f2 (f3 :: more) c H1 Hu1 Hconn).
  - rewrite <- (app_nil_r f3).
    exact (receive_first_frame now3 m3 k3 f3 [] more c H3 Hu3 Hconn).
Qed.

(** X22.  The client skips what is neither text nor close: a ping, pong,
    binary or continuation frame read before a text frame changes nothing,
    [receive] returns the message of the text frame and the client has
    sent nothing, so a ping of the server gets no pong. *)
Theorem receive_skips_other_frames (now1 now2 : Z) (payload : list byte)
  (opcode : Z) (message : string) (mask1 mask2 : bool)
  (other frame rest : list byte) (more : list (list byte)) (c : client) :
  create_frame now1 payload opcode mask1 = Ok other ->
  Z.land opcode 0x0F <> OPCODE_TEXT ->
  Z.land opcode 0x0F <> OPCODE_CLOSE ->
  create_frame now2 (list_byte_of_string message) OPCODE_TEXT mask2
  = Ok frame ->
  utf8_valid (list_byte_of_string message) = true ->
  connected c = true ->
  receive clock ((other ++ frame ++ rest) :: more) c
  = Ok (Message message, more, c).
Proof.
  intros Ho Ht Hcl Hc Hu Hconn.
  unfold receive. cbn [receive_loop app]. rewrite Hconn. cbn [negb].
  destruct (other ++ frame ++ rest) as [|b tl] eqn:E.
  { apply app_eq_nil in E as [E _].
    now apply create_frame_nonempty in Ho. }
  rewrite <- E.
  assert (Hfuel : exists fuel,
             length (other ++ frame ++ rest) = S (S fuel)).
  { pose proof (create_frame_nonempty _ _ _ _ _ Ho) as Hn1.
    pose proof (create_frame_nonempty _ _ _ _ _ Hc) as Hn2.
    rewrite !length_app.
    destruct other as [|o1 other']; [congruence|].
    destruct frame as [|f1 frame']; [congruence|].
    exists (length other' + (length frame' + length rest))%nat.
    cbn [length]. lia. }
  destruct Hfuel as (fuel & ->).
  rewrite (receive_frames_first (S fuel) _ _ _ _ _ (frame ++ rest) Ho).
  destruct (Z.eqb_spec (Z.land opcode 15) OPCODE_TEXT) as [|_];
    [contradiction|].
  destruct (Z.eqb_spec (Z.land opcode 15) OPCODE_CLOSE) as [|_];
    [contradiction|].
  rewrite (receive_frames_first fuel _ _ _ _ _ rest Hc).
  change (Z.land OPCODE_TEXT 15 =? OPCODE_TEXT) with true. cbv iota.
  cbn [bind]. rewrite Hu, string_of_list_byte_of_string. reflexivity.
Qed.

Lemma client_close_connected (c : client) :
  connected c = true ->
  exists close_frame,
    create_frame (clock (c_ticks c)) [] OPCODE_CLOSE true = Ok close_frame
    /\ client_close clock c
       = Ok (mk_client false
               (sock_close (match sock_send (c_sock c) close_frame with
                            | Ok t => t
                            | Raise _ => c_sock c
                            end))
               (S (c_ticks c))).
Proof.
  intros Hconn.
  destruct (create_frame_ok (clock (c_ticks c)) [] OPCODE_CLOSE true)
    as (b0 & lf & masked & E & _).
  { unfold OPCODE_CLOSE. lia. }
  { cbn. lia. }
  cbv zeta in E. eexists. split; [exact E|].
  unfold client_close. rewrite Hconn, E. reflexivity.
Qed.

(** X23.  [close] of a connected client: the close frame, which parses as
    an empty frame of opcode 8, is sent when the socket is writable and
    nothing is sent otherwise; either way the socket is closed and the
    client is disconnected.  From then on [close] does nothing and
    [receive] returns [None] without reading. *)
Theorem client_close_disconnects (c : client) :
  connected c = true ->
  exists close_frame c',
    create_frame (clock (c_ticks c)) [] OPCODE_CLOSE true = Ok close_frame
    /\ parse_frame close_frame
       = Ok (Frame OPCODE_CLOSE [] 0 true (len close_frame))
    /\ client_close clock c = Ok c'
    /\ connected c' = false
    /\ t_closed (c_sock c') = true
    /\ (writable (c_sock c) ->
        t_sent (c_sock c') = t_sent (c_sock c) ++ [close_frame])
    /\ (~ writable (c_sock c) -> t_sent (c_sock c') = t_sent (c_sock c))
    /\ client_close clock c' = Ok c'
    /\ forall inbox, receive clock inbox c' = Ok (NoMessage, inbox, c').
Proof.
  intros Hconn.
  destruct (client_close_connected c Hconn) as (cf & Ecf & Ecl).
  exists cf. eexists. split; [exact Ecf|].
  split.
  { pose proof (parse_created_frame_any _ _ _ _ cf [] Ecf) as Hp.
    rewrite app_nil_r in Hp. exact Hp. }
  split; [exact Ecl|].
  split; [reflexivity|]. split; [reflexivity|].
  split.
  { intros Hw. rewrite (sock_send_writable _ cf Hw). reflexivity. }
  split.
  { intros Hw. destruct (sock_send (c_sock c) cf) as [t|e] eqn:Es;
      [|reflexivity].
    exfalso. apply Hw. unfold sock_send in Es. unfold writable.
    destruct (t_closed (c_sock c)), (t_up (c_sock c)); cbn in Es;
      try discriminate. now split. }
  split; [reflexivity|].
  intros inbox. unfold receive. destruct inbox as [|d later]; reflexivity.
Qed.

(** X24.  The server's close frame and the end of the stream end the
    client's session alike: [receive] returns [None], having closed the
    client as [close] does, and whatever was read after the close frame is
    dropped. *)
Theorem receive_close_or_eof (now_ms : Z) (payload : list byte)
  (mask : bool) (frame rest : list byte) (more : list (list byte))
  (c : client) :
  create_frame now_ms payload OPCODE_CLOSE mask = Ok frame ->
  connected c = true ->
  exists c',
    client_close clock c = Ok c'
    /\ connected c' = false
    /\ t_closed (c_sock c') = true
    /\ receive clock ((frame ++ rest) :: more) c = Ok (NoMessage, more, c')
    /\ receive clock ([] :: more) c = Ok (NoMessage, more, c').
Proof.
  intros Hc Hconn.
  destruct (client_close_connected c Hconn) as (cf & Ecf & Ecl).
  eexists. split; [exact Ecl|].
  split; [reflexivity|]. split; [reflexivity|].
  split.
  - unfold receive. cbn [receive_loop app]. rewrite Hconn. cbn [negb].
    destruct (frame ++ rest) as [|b tl] eqn:E.
    { apply app_eq_nil in E as [E _].
      now apply create_frame_nonempty in Hc. }
    rewrite <- E.
    destruct (receive_frames_whole _ _ _ _ frame rest Hc) as (fuel & Ef).
    rewrite Ef, (receive_frames_first fuel _ _ _ _ _ rest Hc).
    change (Z.land OPCODE_CLOSE 15 =? OPCODE_TEXT) with false.
    change (Z.land OPCODE_CLOSE 15 =? OPCODE_CLOSE) with true. cbv iota.
    cbn [bind]. rewrite Ecl. reflexivity.
  - unfold receive. cbn [receive_loop]. rewrite Hconn. cbn [negb].
    rewrite Ecl. reflexivity.
Qed.

End ReceiveProofs.

(** ** A client joins *)

Lemma list_byte_of_string_app_length (s1 s2 : string) :
  length (list_byte_of_string (s1 ++ s2)%string)
  = (length (list_byte_of_string s1)
     + length (list_byte_of_string s2))%nat.
Proof.
  induction s1 as [|ch s1 IH]; [reflexivity|].
  change (length (list_byte_of_string (String ch (s1 ++ s2)%string))
          = (length (list_byte_of_string (String ch s1))
             + length (list_byte_of_string s2))%nat).
  change (S (length (list_byte_of_string (s1 ++ s2)%string))
          = (S (length (list_byte_of_string s1))
             + length (list_byte_of_string s2))%nat).
  now rewrite IH.
Qed.

Section Join.

Variable cclock : nat -> Z.

Variable clock : nat -> Z.

(** X25.  [connect] on the client and one pass of [start] on the server fit
    together: the client sends its request and then its name as a text
    frame, the server accepts the request, answers with the 101 response
    that lets [connect] return [True], reads the name back out of the
    frame and registers the client under exactly that name. *)
Theorem client_joins (c : client) (host port now_text username : string)
  (depth : nat) (st : server) (a : sock) :
  lacks CR host = true ->
  lacks CR port = true ->
  writable (c_sock c) ->
  writable (net st a) ->
  clients_find a (clients st) = None ->
  NoDup (map fst (clients st)) ->
  (forall s, In s (map fst (clients st)) -> writable (net st s)) ->
  utf8_valid (list_byte_of_string username) = true ->
  len (list_byte_of_string (username ++ " joined the chat")%string)
  < 2 ^ 64 ->
  let key := request_key now_text in
  let request := client_request host port key in
  let response := response_for (accept_key_of key) in
  exists first c' st',
    create_frame (cclock (c_ticks c)) (list_byte_of_string username)
      OPCODE_TEXT true = Ok first
    /\ connect cclock c host port now_text response username = Ok (true, c')
    /\ connected c' = true
    /\ c_sock c' = pushes [list_byte_of_string request; first] (c_sock c)
    /\ start_accept clock depth st a request first = Ok (st', true)
    /\ clients st' = clients st ++ [(a, username)]
    /\ firstn 1 (skipn (length (t_sent (net st a))) (t_sent (net st' a)))
       = [list_byte_of_string response].
Proof.
  intros Hhost Hport Hwc Hwa Hfind Hnd Hall Hu Hlen key request response.
  destruct (handshakes_agree host port now_text (net st a) c Hhost Hport
              Hwa Hwc) as [Hsrv Hcli].
  fold key in Hsrv, Hcli. fold request in Hsrv, Hcli.
  fold response in Hsrv, Hcli.
  assert (Hlen' : len (list_byte_of_string username) < 2 ^ 64).
  { unfold len in *. rewrite list_byte_of_string_app_length in Hlen. lia. }
  destruct (create_frame_ok (cclock (c_ticks c))
              (list_byte_of_string username) OPCODE_TEXT true
              ltac:(unfold OPCODE_TEXT; lia) Hlen')
    as (b0 & lf & masked & Ecf & _).
  cbv zeta in Ecf.
  set (first := (b0 :: lf ++ be_bytes 4 (cclock (c_ticks c) mod 4294967295))
                ++ masked) in *.
  pose proof (parse_created_frame_any _ _ _ _ first [] Ecf) as Hparse.
  rewrite app_nil_r in Hparse.
  change (Z.land OPCODE_TEXT 15) with OPCODE_TEXT in Hparse.
  assert (Hname : string_of_list_byte (list_byte_of_string username)
                  = username) by apply string_of_list_byte_of_string.
  pose proof (start_accept_registers clock depth st a request
                (pushes [list_byte_of_string response] (net st a))
                first (list_byte_of_string username)
                (len (list_byte_of_string username)) (len first) true) as Hreg.
  cbv zeta in Hreg. rewrite Hname in Hreg.
  destruct (Hreg Hsrv Hparse Hu Hfind Hnd Hall Hlen)
    as (notice & st' & _ & Eacc & Ecl & _ & Ea & _).
  exists first. eexists. exists st'.
  split; [exact Ecf|].
  split.
  { unfold connect. rewrite Hcli. cbn [connected c_sock c_ticks].
    unfold client_send. cbn [connected c_sock c_ticks]. rewrite Ecf.
    cbn [bind].
    rewrite (sock_send_writable
               (pushes [list_byte_of_string request] (c_sock c)) first
               (proj2 (writable_pushes _ _) Hwc)).
    cbn [bind]. reflexivity. }
  split; [reflexivity|].
  split.
  { cbn [c_sock]. rewrite pushes_pushes. reflexivity. }
  split; [exact Eacc|]. split; [exact Ecl|].
  rewrite Ea. unfold pushes. cbn [t_sent].
  rewrite <- app_assoc, skipn_app, skipn_all, Nat.sub_diag.
  reflexivity.
Qed.

End Join.

(** ** The properties on the samples *)

Lemma frame_loop_ends_witness :
  handle_frames chat_clock 10 4 chat_room 2%nat close_frame_bytes
  = handle_frames chat_clock 6 4 chat_room 2%nat close_frame_bytes.
Proof.
  refine (proj1 (frame_loop_ends chat_clock 4 10 chat_room 2%nat
                   close_frame_bytes _)).
  cbn. lia.
Defined.

Lemma sent_text_is_broadcast_witness :
  exists frame,
    t_sent (pushes [[x81; x82; xcf; xe5; x69; x8b; xa7; x8c]] fresh_socket)
    = t_sent fresh_socket ++ [frame]
    /\ _handle_client chat_clock 4 chat_room 2%nat frame
       = (st' <- broadcast chat_clock 4 chat_room "hi" (Some 2%nat) ;;
          Ok (st', false)).
Proof.
  apply (sent_text_is_broadcast chat_clock chat_clock sample_client
           (mk_client true
              (pushes [[x81; x82; xcf; xe5; x69; x8b; xa7; x8c]]
                      fresh_socket) 1)
           "hi" 4 chat_room 2%nat).
  - reflexivity.
  - reflexivity.
Defined.

Lemma text_frame_not_utf8_witness :
  _handle_client chat_clock 4 chat_room 2%nat bad_text_frame
  = (st' <- close_client chat_clock 4 chat_room 2%nat ;;
     Raise UnicodeDecodeError).
Proof.
  apply (text_frame_not_utf8 chat_clock 4 chat_room 2%nat 0 [xff] true
           bad_text_frame []).
  - reflexivity.
  - reflexivity.
Defined.

Lemma ping_gets_empty_pong_witness :
  exists pong,
    create_frame (chat_clock 0) [] OPCODE_PONG true = Ok pong
    /\ _handle_client chat_clock 4 chat_room 2%nat ping_frame
       = Ok (net_set (mk_server (clients chat_room) (net chat_room) 1)
                     2%nat (pushes [pong] fresh_socket), false).
Proof.
  destruct (ping_gets_empty_pong chat_clock 4 chat_room 2%nat 0
              (list_byte_of_string "hi") true ping_frame)
    as (pong & Ecf & _ & Hw & _).
  - reflexivity.
  - exists pong. split; [exact Ecf|].
    apply Hw. exact (chat_room_writable 2%nat).
Defined.

Lemma other_frames_are_ignored_witness :
  _handle_client chat_clock 4 chat_room 2%nat binary_frame
  = Ok (chat_room, false).
Proof.
  apply (other_frames_are_ignored chat_clock 4 chat_room 2%nat 0
           (list_byte_of_string "hi") OPCODE_BINARY true binary_frame).
  - reflexivity.
  - vm_compute. lia.
  - vm_compute. lia.
  - vm_compute. lia.
Defined.

Lemma partial_frame_is_dropped_witness :
  _handle_client chat_clock 4 chat_room 2%nat [x81; x82; x00]
  = Ok (chat_room, false).
Proof.
  apply (partial_frame_is_dropped chat_clock 4 chat_room 2%nat 0
           (list_byte_of_string "hi") OPCODE_TEXT true hi_frame
           [x81; x82; x00] [x00; x00; x00; x68; x69]).
  - reflexivity.
  - reflexivity.
  - discriminate.
  - discriminate.
Defined.

Lemma two_text_frames_both_broadcast_witness :
  _handle_client chat_clock 4 chat_room 2%nat (hi_frame ++ yo_frame)
  = (st1 <- broadcast chat_clock 4 chat_room "hi" (Some 2%nat) ;;
     st2 <- broadcast chat_clock 4 st1 "yo" (Some 2%nat) ;;
     Ok (st2, false)).
Proof.
  apply (two_text_frames_both_broadcast chat_clock 4 chat_room 2%nat 0 0
           "hi" "yo" true true hi_frame yo_frame); reflexivity.
Defined.

Lemma stop_closes_everyone_witness :
  exists st',
    stop chat_clock 4 (mk_listener chat_room true true)
    = Ok (mk_listener st' false false)
    /\ clients st' = []
    /\ net st' 7%nat = fresh_socket.
Proof.
  destruct (stop_closes_everyone chat_clock 4
              (mk_listener chat_room true true))
    as (st' & E & Hcl & _ & _ & Hout).
  - cbn. lia.
  - exact chat_room_short.
  - exists st'. split; [exact E|]. split; [exact Hcl|].
    apply (Hout 7%nat). cbn. lia.
Defined.

Lemma close_paths_leave_others_alone_witness :
  exists st',
    close_client chat_clock 4 chat_room 2%nat = Ok st'
    /\ net st' 7%nat = fresh_socket.
Proof.
  destruct (close_client_closes chat_clock 4 chat_room 2%nat)
    as (st' & E & _).
  - cbn. lia.
  - exact chat_room_short.
  - exists st'. split; [exact E|].
    destruct (proj1 (close_paths_leave_others_alone chat_clock)
                4%nat chat_room 2%nat st' E) as (_ & _ & H & _).
    apply (H 7%nat). cbn. lia.
Defined.

Lemma start_registers_witness :
  exists notice st',
    start_accept chat_clock 4 chat_room 4%nat sample_request dee_frame
    = Ok (st', true)
    /\ clients st' = clients chat_room ++ [(4%nat, "dee"%string)]
    /\ net st' 1%nat = pushes [notice] fresh_socket.
Proof.
  pose proof (start_registers chat_clock 4 chat_room 4%nat sample_request
                (pushes [list_byte_of_string sample_response] fresh_socket)
                dee_frame (list_byte_of_string "dee") 3 9 true) as H.
  cbv zeta in H.
  destruct H as (notice & st' & _ & E & Hcl & Hn & _).
  - vm_compute. reflexivity.
  - reflexivity.
  - reflexivity.
  - reflexivity.
  - exact chat_room_NoDup.
  - intros s _. exact (chat_room_writable s).
  - vm_compute. reflexivity.
  - exists notice, st'. split; [exact E|]. split; [exact Hcl|].
    apply (Hn 1%nat). cbn. lia.
Defined.

Lemma start_rejects_quietly_witness :
  clients (net_set chat_room 4%nat fresh_socket) = clients chat_room
  /\ t_closed (net (net_set chat_room 4%nat fresh_socket) 4%nat) = false.
Proof.
  destruct (start_rejects_quietly chat_clock 4 chat_room
              (net_set chat_room 4%nat fresh_socket) 4%nat
              "POST / HTTP/1.1" [])
    as (Hcl & _ & Hclosed & _).
  - reflexivity.
  - split; [exact Hcl|exact Hclosed].
Defined.

Lemma client_handshake_is_accepted_witness :
  _handshake sample_request fresh_socket
  = Ok (true, pushes [list_byte_of_string sample_response] fresh_socket).
Proof.
  refine (proj1 (client_handshake_is_accepted "127.0.0.1" "8000"
                   "1700000000.5" fresh_socket sample_client _ _ _ _)).
  - reflexivity.
  - reflexivity.
  - split; reflexivity.
  - split; reflexivity.
Defined.

Lemma receive_reassembles_witness :
  receive chat_clock
    [[x81]; [x82; x00; x00]; [x00; x00; x68; x69]] sample_client
  = Ok (Message "hi", [], sample_client).
Proof.
  apply (receive_reassembles chat_clock 0 "hi" true hi_frame
           [[x81]; [x82; x00; x00]; [x00; x00; x68; x69]] []
           sample_client).
  - reflexivity.
  - reflexivity.
  - reflexivity.
  - repeat constructor; discriminate.
  - reflexivity.
Defined.

Lemma receive_loses_second_message_witness :
  receive chat_clock [hi_frame ++ yo_frame; dee_frame] sample_client
  = Ok (Message "hi", [dee_frame], sample_client)
  /\ receive chat_clock [dee_frame] sample_client
     = Ok (Message "dee", [], sample_client).
Proof.
  apply (receive_loses_second_message chat_clock 0 0 0 "hi" "yo" "dee"
           true true true hi_frame yo_frame dee_frame [] sample_client);
    reflexivity.
Defined.

Lemma receive_skips_other_frames_witness :
  receive chat_clock [ping_frame ++ yo_frame] sample_client
  = Ok (Message "yo", [], sample_client).
Proof.
  apply (receive_skips_other_frames chat_clock 0 0
           (list_byte_of_string "hi") OPCODE_PING "yo" true true
           ping_frame yo_frame [] [] sample_client).
  - reflexivity.
  - vm_compute. lia.
  - vm_compute. lia.
  - reflexivity.
  - reflexivity.
  - reflexivity.
Defined.

Lemma client_close_disconnects_witness :
  exists close_frame c',
    client_close chat_clock sample_client = Ok c'
    /\ connected c' = false
    /\ t_sent (c_sock c') = [close_frame]
    /\ receive chat_clock [hi_frame] c' = Ok (NoMessage, [hi_frame], c').
Proof.
  destruct (client_close_disconnects chat_clock sample_client)
    as (cf & c' & _ & _ & E & Hconn & _ & Hw & _ & _ & Hr).
  - reflexivity.
  - exists cf, c'. split; [exact E|]. split; [exact Hconn|].
    split; [|exact (Hr [hi_frame])].
    apply Hw. split; reflexivity.
Defined.

Lemma receive_close_or_eof_witness :
  exists c',
    client_close chat_clock sample_client = Ok c'
    /\ receive chat_clock [close_frame_bytes] sample_client
       = Ok (NoMessage, [], c')
    /\ receive chat_clock [[]] sample_client = Ok (NoMessage, [], c').
Proof.
  destruct (receive_close_or_eof chat_clock 0 [] true close_frame_bytes []
              [] sample_client)
    as (c' & E & _ & _ & H1 & H2).
  - reflexivity.
  - reflexivity.
  - exists c'. split; [exact E|]. split; [exact H1|exact H2].
Defined.

Lemma client_joins_witness :
  exists first c' st',
    connect chat_clock sample_client "127.0.0.1" "8000" "1700000000.5"
      sample_response "dee" = Ok (true, c')
    /\ start_accept chat_clock 4 chat_room 4%nat sample_request first
       = Ok (st', true)
    /\ clients st' = clients chat_room ++ [(4%nat, "dee"%string)].
Proof.
  pose proof (client_joins chat_clock chat_clock sample_client "127.0.0.1"
                "8000" "1700000000.5" "dee" 4 chat_room 4%nat) as H.
  cbv zeta in H.
  destruct H as (first & c' & st' & _ & Ec & _ & _ & Es & Hcl & _).
  - reflexivity.
  - reflexivity.
  - split; reflexivity.
  - split; reflexivity.
  - reflexivity.
  - exact chat_room_NoDup.
  - intros s _. exact (chat_room_writable s).
  - reflexivity.
  - vm_compute. reflexivity.
  - exists first, c', st'. split; [exact Ec|]. split; [exact Es|exact Hcl].
Defined.

(** ** Clients whose socket is dead *)

Section DeadClients.

Variable clock : nat -> Z.

Lemma close_client_unregisters (depth : nat) (st st' : server) (c : sock) :
  close_client clock depth st c = Ok st' ->
  clients_find c (clients st') = None.
Proof.
  destruct depth as [|d]; [discriminate|]. intros H.
  cbn [close_client] in H.
  destruct (clients_find c (clients st)) as [name|] eqn:Hfind.
  2:{ injection H as <-. exact Hfind. }
  destruct (new_frame clock
              (mk_server (clients_pop c (clients st)) (net st) (ticks st))
              [] OPCODE_CLOSE) as [[cf st1]|] eqn:Enf1; [|discriminate].
  unfold new_frame in Enf1.
  destruct (create_frame _ [] OPCODE_CLOSE true) as [cf'|]; [|discriminate].
  cbn [bind clients net ticks] in Enf1, H. injection Enf1 as <- <-.
  set (st2 := match sock_send (net st c) cf' with
              | Ok t => net_set (mk_server (clients_pop c (clients st))
                                           (net st) (S (ticks st)))
                                c (sock_close t)
              | Raise _ => mk_server (clients_pop c (clients st)) (net st)
                                     (S (ticks st))
              end) in *.
  assert (Hc2 : clients st2 = clients_pop c (clients st)).
  { unfold st2. now destruct (sock_send (net st c) cf'). }
  change ((fs <- new_frame clock st2
                   (list_byte_of_string (name ++ " has left the chat")%string)
                   OPCODE_TEXT ;;
           let '(frame, st0) := fs in
           broadcast_loop (close_client clock d) frame None
                          (map fst (clients st0)) st0) = Ok st') in H.
  unfold new_frame in H.
  destruct (create_frame (clock (ticks st2))
              (list_byte_of_string (name ++ " has left the chat")%string)
              OPCODE_TEXT true) as [notice|]; [|discriminate].
  cbn [bind clients] in H.
  pose proof (broadcast_loop_keeps (close_client clock d) notice None
                (close_client_keeps clock d) (map fst (clients st2))
                (mk_server (clients st2) (net st2) (S (ticks st2))) st'
                ltac:(intros s Hs; now left) H) as (K1 & _).
  apply (clients_find_incl c _ _ K1). cbn [clients]. rewrite Hc2.
  apply clients_pop_find.
Qed.

Lemma broadcast_loop_drops (depth : nat) (frame : list byte)
  (sender_sock : option sock) (x : sock) :
  is_sender sender_sock x = false ->
  forall targets st st',
    (forall s, In s targets ->
               In s (map fst (clients st)) \/ ~ writable (net st s)) ->
    broadcast_loop (close_client clock depth) frame sender_sock targets st
    = Ok st' ->
    In x targets ->
    ~ writable (net st x) ->
    clients_find x (clients st') = None.
Proof.
  intros Hx. induction targets as [|s rest IH]; intros st st' HT Hl Hin Hnw;
    [destruct Hin|].
  cbn [broadcast_loop] in Hl.
  destruct (is_sender sender_sock s) eqn:Esend.
  { destruct Hin as [->|Hin]; [congruence|].
    apply (IH st st'); try assumption.
    intros s' Hs'. apply HT. now right. }
  destruct (sock_send (net st s) frame) as [t|e] eqn:Es.
  - apply sock_send_inv in Es as [Hw ->].
    destruct Hin as [->|Hin]; [contradiction|].
    assert (Hxs : x <> s) by (intros ->; contradiction).
    set (st1 := net_set st s (pushes [frame] (net st s))) in *.
    assert (Hflags : forall y, writable (net st1 y) <-> writable (net st y)).
    { intros y. cbn [st1 net_set net]. destruct (Nat.eqb y s) eqn:E.
      - apply Nat.eqb_eq in E. subst y. apply writable_pushes.
      - reflexivity. }
    apply (IH st1 st'); try assumption.
    + intros s' Hs'.
      destruct (HT s' (or_intror Hs')) as [H|H]; [now left|].
      right. now rewrite Hflags.
    + now rewrite Hflags.
  - apply sock_send_fails in Es as [-> Hnws].
    destruct (close_client clock depth st s) as [st1|] eqn:Ecc;
      [|discriminate].
    cbn [bind] in Hl.
    pose proof (close_client_keeps clock depth st s st1 Ecc)
      as (K1 & K2 & K3 & K4 & K5).
    assert (HT1 : forall s', In s' rest ->
                    In s' (map fst (clients st1))
                    \/ ~ writable (net st1 s')).
    { intros s' Hs'.
      destruct (HT s' (or_intror Hs')) as [Hreg|Hnw'].
      - destruct (Nat.eq_dec s' s) as [->|Hne].
        + right. now rewrite K2.
        + apply in_map_iff in Hreg as ([y n] & Ey & Hreg).
          cbn [fst] in Ey. subst y.
          assert (Hdec : writable (net st s') \/ ~ writable (net st s')).
          { unfold writable.
            destruct (t_closed (net st s')), (t_up (net st s'));
              intuition discriminate. }
          destruct Hdec as [Hw|Hnw'].
          * left. apply in_map_iff. exists (s', n).
            split; [reflexivity|].
            apply (K4 s' n); [congruence|assumption..].
          * right. now rewrite K2.
      - right. now rewrite K2. }
    destruct (in_dec Nat.eq_dec x rest) as [Hrest|Hnot].
    + apply (IH st1 st'); try assumption. now rewrite K2.
    + destruct Hin as [->|Hin]; [|contradiction].
      pose proof (broadcast_loop_keeps (close_client clock depth) frame
                    sender_sock (close_client_keeps clock depth) rest st1
                    st' HT1 Hl) as (L1 & _).
      apply (clients_find_incl x _ _ L1).
      exact (close_client_unregisters depth st st1 x Ecc).
Qed.

(** X26.  [broadcast] weeds out dead connections: when it returns, every
    registered client other than the sender whose socket could not be
    written to is gone from the registry, and every client whose socket was
    writable is still registered. *)
Theorem broadcast_drops_dead_clients (depth : nat) (st st' : server)
  (message : string) (sender_sock : option sock) :
  broadcast clock depth st message sender_sock = Ok st' ->
  (forall x, In x (map fst (clients st)) ->
             sender_sock <> Some x ->
             ~ writable (net st x) ->
             clients_find x (clients st') = None)
  /\ (forall x n, In (x, n) (clients st) ->
                  writable (net st x) ->
                  In (x, n) (clients st')).
Proof.
  intros H. unfold broadcast, new_frame in H.
  destruct (create_frame (clock (ticks st)) (list_byte_of_string message)
              OPCODE_TEXT true) as [frame|]; [|discriminate].
  cbn [bind clients] in H.
  set (st1 := mk_server (clients st) (net st) (S (ticks st))) in *.
  assert (HT : forall s, In s (map fst (clients st1)) ->
                 In s (map fst (clients st1)) \/ ~ writable (net st1 s))
    by (intros s Hs; now left).
  split.
  - intros x Hin Hne Hnw.
    apply (broadcast_loop_drops depth frame sender_sock x) with
      (targets := map fst (clients st1)) (st := st1); try assumption.
    unfold is_sender. destruct sender_sock as [s|]; [|reflexivity].
    apply Nat.eqb_neq. congruence.
  - intros x n Hin Hw.
    pose proof (broadcast_loop_keeps (close_client clock depth) frame
                  sender_sock (close_client_keeps clock depth)
                  (map fst (clients st1)) st1 st' HT H)
      as (_ & _ & _ & K4 & _).
    apply (K4 x n); [discriminate|exact Hw|exact Hin].
Qed.

End DeadClients.

Lemma broadcast_drops_dead_clients_witness :
  exists st',
    broadcast chat_clock 4 broken_room "hi" (Some 1%nat) = Ok st'
    /\ clients_find 3%nat (clients st') = None
    /\ In (2%nat, "bob"%string) (clients st').
Proof.
  destruct (broadcast_spreads chat_clock 4 broken_room "hi" (Some 1%nat))
    as (frame & st' & _ & E & _).
  - cbn. lia.
  - exact chat_room_short.
  - vm_compute. reflexivity.
  - exists st'. split; [exact E|].
    destruct (broadcast_drops_dead_clients chat_clock 4 broken_room st' "hi"
                (Some 1%nat) E) as [Hdead Hlive].
    split.
    + apply (Hdead 3%nat).
      * cbn. lia.
      * discriminate.
      * intros [Hc _]. discriminate Hc.
    + apply (Hlive 2%nat "bob"%string).
      * cbn. tauto.
      * split; reflexivity.
Defined.

Local Open Scope string_scope.

(** ** The outcomes of the server's handshake *)


Local Close Scope string_scope.

(** ** The end of a session *)

Section SessionEnd.

Variable clock : nat -> Z.

(** X28.  However the session of a client ends without an exception (the
    peer closed the stream, a close frame came, or a write to the client
    failed), the client is no longer registered when [_handle_client] is
    over. *)
Theorem session_end_unregisters (depth : nat) (st st' : server) (a : sock)
  (data : list byte) :
  _handle_client clock depth st a data = Ok (st', true) ->
  clients_find a (clients st') = None.
Proof.
  unfold _handle_client. destruct data as [|b rest].
  - destruct (close_client clock depth st a) as [st1|] eqn:E;
      [|discriminate].
    cbn [bind]. intros [= <-].
    exact (close_client_unregisters clock depth st st1 a E).
  - destruct (handle_frames clock (length (b :: rest)) depth st a (b :: rest))
      as [[st1 o]|]; [|discriminate].
    cbn [bind].
    destruct o as [| |e]; [discriminate| |].
    + destruct (close_client clock depth st1 a) as [st2|] eqn:E;
        [|discriminate].
      cbn [bind]. intros [= <-].
      exact (close_client_unregisters clock depth st1 st2 a E).
    + destruct (close_client clock depth st1 a) as [st2|] eqn:E;
        [|destruct e; discriminate].
      cbn [bind]. destruct e; try discriminate. intros [= <-].
      exact (close_client_unregisters clock depth st1 st2 a E).
Qed.

End SessionEnd.

Lemma session_end_unregisters_witness :
  exists st',
    _handle_client chat_clock 4 chat_room 2%nat [] = Ok (st', true)
    /\ clients_find 2%nat (clients st') = None.
Proof.
  destruct (close_client_closes chat_clock 4 chat_room 2%nat)
    as (st' & E & _).
  - cbn. lia.
  - exact chat_room_short.
  - assert (Hs : _handle_client chat_clock 4 chat_room 2%nat []
                 = Ok (st', true)).
    { unfold _handle_client. rewrite E. reflexivity. }
    exists st'. split; [exact Hs|].
    exact (session_end_unregisters chat_clock 4 chat_room st' 2%nat [] Hs).
Defined.
